(** * Microsoft-Rewards-Bot: login challenge handling, human typing,
      account-creation retries, error-report deduplication, config loading.

    A shallow embedding of the TypeScript / JavaScript sources:
    - [Js]            : the string primitives of the JS runtime the sources call
    - [TotpHandler]   : src/functions/login/TotpHandler.ts
    - [HumanTyping]   : util/browser/HumanTyping.ts
    - [AccountCreator]: account-creation/AccountCreator.ts
    - [ReportError]   : api/report-error.js (the deduplicating revision)
    - [Load]          : util/state/Load.ts ([normalizeConfig])

    Conventions.  Milliseconds and [Date.now()] are integers ([Z]); the values
    of [Math.random()] and other JS numbers that may be fractional are exact
    rationals ([Q]); strings are byte strings, and case folding acts on the
    ASCII letters only.  The browser, the operator and the random source are
    the environment: a world type with the driver's operations as section
    variables, or oracles indexed by the call. *)

From Stdlib Require Import ZArith QArith Qround Lia Lqa List String Ascii Bool Sorting.Sorted DecimalString.
From stdpp Require Import base gmap strings sorting.
Import ListNotations.
Close Scope Q_scope.
Open Scope string_scope.
Open Scope list_scope.
Open Scope Z_scope.

(** Result of a call that may throw: [Throw e] carries the [Error]'s message. *)
Inductive Res (A : Type) : Type :=
| Ok (a : A)
| Throw (e : string).
Arguments Ok {A} a.
Arguments Throw {A} e.

(* ================================================================== *)
(** ** The JS string primitives used by the sources *)
(* ================================================================== *)
Module Js.

Definition isUpper (c : ascii) : bool :=
  let n := nat_of_ascii c in (65 <=? n)%nat && (n <=? 90)%nat.
Definition isLower (c : ascii) : bool :=
  let n := nat_of_ascii c in (97 <=? n)%nat && (n <=? 122)%nat.
Definition isDigit (c : ascii) : bool :=
  let n := nat_of_ascii c in (48 <=? n)%nat && (n <=? 57)%nat.
(** [\s] on ASCII: tab, line feed, vertical tab, form feed, carriage return, space. *)
Definition isSpace (c : ascii) : bool :=
  let n := nat_of_ascii c in ((9 <=? n)%nat && (n <=? 13)%nat) || (n =? 32)%nat.

Definition lowerChar (c : ascii) : ascii :=
  if isUpper c then ascii_of_nat (nat_of_ascii c + 32) else c.

Fixpoint mapStr (f : ascii -> ascii) (s : string) : string :=
  match s with
  | EmptyString => EmptyString
  | String c r => String (f c) (mapStr f r)
  end.

(** [s.toLowerCase()] *)
Definition toLowerCase (s : string) : string := mapStr lowerChar s.

(** [s.includes(sub)] *)
Fixpoint includes (s sub : string) : bool :=
  String.prefix sub s ||
  match s with
  | EmptyString => false
  | String _ r => includes r sub
  end.

(** [s.startsWith(p)] *)
Definition startsWith (s p : string) : bool := String.prefix p s.

Fixpoint existsStr (p : ascii -> bool) (s : string) : bool :=
  match s with
  | EmptyString => false
  | String c r => p c || existsStr p r
  end.

(** a regular expression that is an alternation of literals, [/a|b|c/.test(s)] *)
Definition testAny (alts : list string) (s : string) : bool :=
  existsb (includes s) alts.

Fixpoint dropSpaces (l : list ascii) : list ascii :=
  match l with
  | c :: r => if isSpace c then dropSpaces r else l
  | [] => []
  end.

(** [s.trim()] *)
Definition trim (s : string) : string :=
  string_of_list_ascii
    (rev (dropSpaces (rev (dropSpaces (list_ascii_of_string s))))).

(** truthiness of a [string | null | undefined] value *)
Definition truthy (o : option string) : bool :=
  match o with
  | Some s => negb (s =? "")%string
  | None => false
  end.

(** [a || b] on [string | undefined] operands *)
Definition orElse (a b : option string) : option string :=
  if truthy a then a else if truthy b then b else None.

(** [s.split(sep)[0]] for a one-character separator *)
Fixpoint beforeChar (sep : ascii) (s : string) : string :=
  match s with
  | EmptyString => EmptyString
  | String c r => if Ascii.eqb c sep then EmptyString else String c (beforeChar sep r)
  end.

(** [s.split(sep)[1]]: [undefined] when [s] has no separator *)
Fixpoint afterChar (sep : ascii) (s : string) : option string :=
  match s with
  | EmptyString => None
  | String c r => if Ascii.eqb c sep then Some (beforeChar sep r) else afterChar sep r
  end.

Lemma prefix_mapStr (f : ascii -> ascii) (p s : string) :
  String.prefix p s = true -> String.prefix (mapStr f p) (mapStr f s) = true.
Proof.
  revert p; induction s as [|c s IH]; intros [|d p]; simpl; try easy.
  destruct (ascii_dec d c) as [->|]; [|easy].
  intros H. destruct (ascii_dec (f c) (f c)); [auto | congruence].
Qed.

Lemma includes_mapStr (f : ascii -> ascii) (s sub : string) :
  includes s sub = true -> includes (mapStr f s) (mapStr f sub) = true.
Proof.
  induction s as [|c s IH]; cbn [includes mapStr]; intros H.
  - destruct sub; [reflexivity | discriminate H].
  - apply orb_true_iff in H as [H|H].
    + apply (prefix_mapStr f) in H. cbn [mapStr] in H. now rewrite H.
    + rewrite (IH H). apply orb_true_r.
Qed.

(** A literal already in lower case is still found after [toLowerCase]. *)
Lemma includes_toLowerCase (s sub : string) :
  toLowerCase sub = sub -> includes s sub = true ->
  includes (toLowerCase s) sub = true.
Proof.
  intros E H. rewrite <- E. now apply includes_mapStr.
Qed.

End Js.

(* ================================================================== *)
(** ** src/functions/login/TotpHandler.ts *)
(* ================================================================== *)
Module TotpHandler.
Import Js.

(** the double quote, for selectors that contain one *)
Definition dq : string := String (ascii_of_nat 34) EmptyString.

(** [TOTP_SELECTORS] *)
Definition inputSelectors : list string :=
  [ "input[name=" +:+ dq +:+ "otc" +:+ dq +:+ "]";
    "#idTxtBx_SAOTCC_OTC";
    "#idTxtBx_SAOTCS_OTC";
    "input[data-testid=" +:+ dq +:+ "otcInput" +:+ dq +:+ "]";
    "input[autocomplete=" +:+ dq +:+ "one-time-code" +:+ dq +:+ "]";
    "input[type=" +:+ dq +:+ "tel" +:+ dq +:+ "][name=" +:+ dq +:+ "otc" +:+ dq +:+ "]";
    "input[id^=" +:+ dq +:+ "floatingLabelInput" +:+ dq +:+ "]" ].

Definition altOptions : list string :=
  [ "#idA_SAOTCS_ProofPickerChange";
    "#idA_SAOTCC_AlternateLogin";
    "a:has-text(" +:+ dq +:+ "Use a different verification option" +:+ dq +:+ ")";
    "a:has-text(" +:+ dq +:+ "Sign in another way" +:+ dq +:+ ")";
    "a:has-text(" +:+ dq +:+ "I can't use my Microsoft Authenticator app right now" +:+ dq +:+ ")";
    "button:has-text(" +:+ dq +:+ "Use a different verification option" +:+ dq +:+ ")";
    "button:has-text(" +:+ dq +:+ "Sign in another way" +:+ dq +:+ ")" ].

Definition challenge : list string :=
  [ "[data-value=" +:+ dq +:+ "PhoneAppOTP" +:+ dq +:+ "]";
    "[data-value=" +:+ dq +:+ "OneTimeCode" +:+ dq +:+ "]";
    "button:has-text(" +:+ dq +:+ "Use a verification code" +:+ dq +:+ ")";
    "button:has-text(" +:+ dq +:+ "Enter code manually" +:+ dq +:+ ")";
    "button:has-text(" +:+ dq +:+ "Enter a code from your authenticator app" +:+ dq +:+ ")";
    "button:has-text(" +:+ dq +:+ "Use code from your authentication app" +:+ dq +:+ ")";
    "button:has-text(" +:+ dq +:+ "Utiliser un code de vérification" +:+ dq +:+ ")";
    "button:has-text(" +:+ dq +:+ "Entrer un code depuis votre application" +:+ dq +:+ ")";
    "button:has-text(" +:+ dq +:+ "Entrez un code" +:+ dq +:+ ")";
    "div[role=" +:+ dq +:+ "button" +:+ dq +:+ "]:has-text(" +:+ dq +:+ "Use a verification code" +:+ dq +:+ ")";
    "div[role=" +:+ dq +:+ "button" +:+ dq +:+ "]:has-text(" +:+ dq +:+ "Enter a code" +:+ dq +:+ ")" ].

Definition submitSelectors : list string :=
  [ "#idSubmit_SAOTCC_Continue";
    "#idSubmit_SAOTCC_OTC";
    "button[type=" +:+ dq +:+ "submit" +:+ dq +:+ "]:has-text(" +:+ dq +:+ "Verify" +:+ dq +:+ ")";
    "button[type=" +:+ dq +:+ "submit" +:+ dq +:+ "]:has-text(" +:+ dq +:+ "Continuer" +:+ dq +:+ ")";
    "button:has-text(" +:+ dq +:+ "Verify" +:+ dq +:+ ")";
    "button:has-text(" +:+ dq +:+ "Continuer" +:+ dq +:+ ")";
    "button:has-text(" +:+ dq +:+ "Submit" +:+ dq +:+ ")";
    "button[type=" +:+ dq +:+ "submit" +:+ dq +:+ "]:has-text(" +:+ dq +:+ "Next" +:+ dq +:+ ")";
    "button:has-text(" +:+ dq +:+ "Next" +:+ dq +:+ ")";
    "button[data-testid=" +:+ dq +:+ "primaryButton" +:+ dq +:+ "]:has-text(" +:+ dq +:+ "Next" +:+ dq +:+ ")" ].

(** the manual-entry field, [input[name="otc"]] *)
Definition otcInput : string := "input[name=" +:+ dq +:+ "otc" +:+ dq +:+ "]".

(** the two errors the handler raises *)
Definition errStillPresent : string :=
  "TOTP challenge still present after multiple attempts; verify authenticator secret or approvals.".
Definition errManualTimeout : string := "2FA code input timeout after 120s".

Definition throttleMs : Z := 5000.
Definition manualDeadlineMs : Z := 120000.

Inductive Level : Type := LvLog | LvWarn | LvError.

(** What the handler does to the outside: driver calls, console calls, log lines. *)
Inductive Op : Type :=
| OpDismissAllMessages                 (* bot.browser.utils.tryDismissAllMessages(page) *)
| OpWait (ms : Z)                      (* bot.utils.wait(ms) *)
| OpClick (sel : string)               (* locator.click() *)
| OpTypeTotp (sel code : string)       (* HumanTyping.typeTotp(locator, code) *)
| OpPressEnter                         (* page.keyboard.press('Enter') *)
| OpLog (lvl : Level) (msg : string)   (* bot.log(..., msg, lvl) *)
| OpCreateInterface                    (* readline.createInterface(...) *)
| OpQuestion                           (* rl.question('Enter 2FA code:\n', cb) *)
| OpSetTimeout (ms : Z)                (* setTimeout(cb, ms) *)
| OpClearTimeout                       (* clearTimeout(timeoutHandle) *)
| OpTimerFired                         (* the timer callback runs *)
| OpRlClose                            (* rl.close() *)
| OpAwaitRace                          (* await Promise.race([...]) *)
| OpIdle.                              (* the caller's own work between two calls *)

(** the negative signals survive the lowering of the attribute *)
Lemma toLowerCase_excluded_type (v : string) :
  v = "password" \/ v = "email" ->
  ((toLowerCase v =? "email") || (toLowerCase v =? "password"))%string = true.
Proof. intros [-> | ->]; reflexivity. Qed.

Lemma excluded_name_lowered (v : string) :
  includes v "loginfmt" = true \/ includes v "passwd" = true \/
  includes v "email" = true \/ includes v "login" = true ->
  includes (toLowerCase v) "loginfmt" || includes (toLowerCase v) "passwd"
  || includes (toLowerCase v) "email" || includes (toLowerCase v) "login" = true.
Proof.
  intros H.
  repeat rewrite orb_true_iff.
  destruct H as [H | [H | [H | H]]];
    apply includes_toLowerCase in H; try reflexivity; tauto.
Qed.

Section Driver.

(** The world outside the handler: the page, the clock, the operator. *)
Variable W : Type.
(** [Date.now()] *)
Variable dateNow : W -> Z.
(** the effect of an operation on the world, elapsed time included *)
Variable step : Op -> W -> W.
(** [page.locator(sel).first().isVisible().catch(() => false)] *)
Variable visible : W -> string -> bool.
(** [locator.getAttribute(name)]: a string, [null], or a thrown error *)
Variable getAttribute : W -> string -> string -> Res (option string).
(** the [locator.evaluate(...)] of [isLikelyTotpInput] with its [.catch(() => '')] *)
Variable labelText : W -> string -> string.
(** [textContent().catch(() => null)] of each heading the page has, in order *)
Variable headingTexts : W -> list (option string).
(** [Number(s)] of the JS runtime; [None] is NaN *)
Variable jsNumber : string -> option Q.
(** [generateTOTP(secret)] of util/security/Totp *)
Variable generateTOTP : W -> string -> Res string.
(** whether [page.keyboard.press('Enter')] rejects, and with what message *)
Variable pressEnterError : W -> option string.
(** the operator at the console: after how many ms a line arrives, and the line *)
Variable operator : W -> option (Z * string).

(** *** Handler state and the monad of its methods *)

Record St : Type := mkSt {
  world : W;
  lastTotpSubmit : Z;
  totpAttempts : Z;
  currentTotpSecret : option string;
  rlOpen : bool;          (* a readline interface is open *)
  timerPending : bool;    (* the 120 s timer is armed and has not fired *)
  trace : list (Z * Op)   (* operations so far, newest first, each with its [Date.now()] *)
}.

Definition M (A : Type) : Type := St -> Res A * St.

#[local] Instance Res_ret : MRet Res := fun A a => Ok a.
#[local] Instance Res_bind : MBind Res := fun A B f r =>
  match r with
  | Ok a => f a
  | Throw e => Throw e
  end.
#[local] Instance M_ret : MRet M := fun A a s => (Ok a, s).
#[local] Instance M_bind : MBind M := fun A B f m s =>
  match m s with
  | (Ok a, s') => f a s'
  | (Throw e, s') => (Throw e, s')
  end.

Definition getSt : M St := fun s => (Ok s, s).
Definition throw {A : Type} (e : string) : M A := fun s => (Throw e, s).
Definition liftRes {A : Type} (r : W -> Res A) : M A := fun s => (r (world s), s).

(** [try { m } catch (e) { h e }] *)
Definition tryCatch {A : Type} (m : M A) (h : string -> M A) : M A := fun s =>
  match m s with
  | (Throw e, s') => h e s'
  | r => r
  end.

(** [try { m } finally { f }] *)
Definition tryFinally {A : Type} (m : M A) (f : M unit) : M A := fun s =>
  let (r, s') := m s in
  match f s' with
  | (Ok _, s'') => (r, s'')
  | (Throw e, s'') => (Throw e, s'')
  end.

Definition withWorld (w : W) (s : St) : St :=
  mkSt w (lastTotpSubmit s) (totpAttempts s) (currentTotpSecret s)
       (rlOpen s) (timerPending s) (trace s).
Definition withTrace (t : list (Z * Op)) (s : St) : St :=
  mkSt (world s) (lastTotpSubmit s) (totpAttempts s) (currentTotpSecret s)
       (rlOpen s) (timerPending s) t.
Definition withLast (t : Z) (s : St) : St :=
  mkSt (world s) t (totpAttempts s) (currentTotpSecret s)
       (rlOpen s) (timerPending s) (trace s).
Definition withAttempts (n : Z) (s : St) : St :=
  mkSt (world s) (lastTotpSubmit s) n (currentTotpSecret s)
       (rlOpen s) (timerPending s) (trace s).
Definition withRl (b : bool) (s : St) : St :=
  mkSt (world s) (lastTotpSubmit s) (totpAttempts s) (currentTotpSecret s)
       b (timerPending s) (trace s).
Definition withTimer (b : bool) (s : St) : St :=
  mkSt (world s) (lastTotpSubmit s) (totpAttempts s) (currentTotpSecret s)
       (rlOpen s) b (trace s).

(** perform one operation: record it with the current time, let the world move *)
Definition op (o : Op) : M unit := fun s =>
  (Ok tt, withWorld (step o (world s)) (withTrace ((dateNow (world s), o) :: trace s) s)).

(** an assignment to a field of [this], or to a console resource *)
Definition modify (f : St -> St) : M unit := fun s => (Ok tt, f s).

Definition log (lvl : Level) (msg : string) : M unit := op (OpLog lvl msg).
Definition wait (ms : Z) : M unit := op (OpWait ms).

(** [setTotpSecret(secret)] *)
Definition setTotpSecret (secret : option string) (s : St) : St :=
  mkSt (world s) 0 0
       (if truthy secret then orElse (option_map trim secret) None else None)
       (rlOpen s) (timerPending s) (trace s).

(** [reset()] *)
Definition reset (s : St) : St := withAttempts 0 (withLast 0 s).

(** a handler just constructed, in world [w] *)
Definition newHandler (w : W) : St := mkSt w 0 0 None false false [].

(** *** Queries on the page *)

(** [const attr = async (name) => (await locator.getAttribute(name) || '').toLowerCase()] *)
Definition attr (w : W) (loc name : string) : Res string :=
  v ← getAttribute w loc name; mret (toLowerCase (default "" v)).

(** the three heading tests of [detectTotpHeading], on the lowered text *)
Definition headingMatches (lowered : string) : bool :=
  (includes lowered "authenticator" && includes lowered "code")
  || testAny [ "code de vérification"; "code de verification";
               "code de sécurité"; "code de securité" ] lowered
  || testAny [ "enter your security code"; "enter your code" ] lowered.

Fixpoint detectIn (texts : list (option string)) : option string :=
  match texts with
  | [] => None
  | t :: rest =>
      match option_map trim t with
      | Some text =>
          if (text =? "")%string then detectIn rest
          else if headingMatches (toLowerCase text) then Some text
          else detectIn rest
      | None => detectIn rest
      end
  end.

(** [detectTotpHeading(page)]: the first of at most six headings that matches *)
Definition detectTotpHeading (w : W) : option string :=
  detectIn (firstn 6 (headingTexts w)).

(** [Number(maxLength) > 0 && Number(maxLength) <= 8] *)
Definition maxLengthInRange (v : string) : bool :=
  match jsNumber v with
  | Some q => negb (Qle_bool q 0) && Qle_bool q 8
  | None => false
  end.

(** [/code|otp|authenticator|sécurité|securité|security/i.test(labelText)] *)
Definition labelMatches (t : string) : bool :=
  testAny [ "code"; "otp"; "authenticator"; "security";
            "sécurité"; "sÉcurité"; "sécuritÉ"; "sÉcuritÉ"; "securité"; "securitÉ" ]
          (toLowerCase t).

(** the body of the [try] of [isLikelyTotpInput], after the visibility test *)
Definition likelyBody (w : W) (loc selector : string) (headingHint : option string)
  : Res bool :=
  type ← attr w loc "type";
  if (type =? "email")%string || (type =? "password")%string then mret false else
  nameAttr ← attr w loc "name";
  if includes nameAttr "loginfmt" || includes nameAttr "passwd"
     || includes nameAttr "email" || includes nameAttr "login" then mret false else
  if includes nameAttr "otc" || includes nameAttr "otp" || includes nameAttr "code"
  then mret true else
  autocomplete ← attr w loc "autocomplete";
  if includes autocomplete "one-time" then mret true else
  inputmode ← attr w loc "inputmode";
  if (inputmode =? "numeric")%string then mret true else
  pattern ← getAttribute w loc "pattern";
  if existsStr isDigit (default "" pattern) then mret true else
  aria ← attr w loc "aria-label";
  if includes aria "code" || includes aria "otp" || includes aria "authenticator"
  then mret true else
  placeholder ← attr w loc "placeholder";
  if includes placeholder "code" || includes placeholder "security"
     || includes placeholder "authenticator" then mret true else
  if testAny [ "otc"; "otp" ] selector then mret true else
  idAttr ← attr w loc "id";
  if startsWith idAttr "floatinglabelinput"
     && (truthy headingHint || truthy (detectTotpHeading w)) then mret true else
  if includes (toLowerCase selector) "floatinglabelinput"
     && (truthy headingHint || truthy (detectTotpHeading w)) then mret true else
  maxLength ← getAttribute w loc "maxlength";
  if truthy maxLength && maxLengthInRange (default "" maxLength) then mret true else
  dataTestId ← attr w loc "data-testid";
  if includes dataTestId "otc" || includes dataTestId "otp" then mret true else
  if labelMatches (labelText w loc) then mret true else
  match headingHint with
  | Some h =>
      if negb (h =? "")%string
         && testAny [ "code"; "otp"; "authenticator" ] (toLowerCase h)
      then mret true else mret false
  | None => mret false
  end.

(** [isLikelyTotpInput(page, locator, selector, headingHint)] *)
Definition isLikelyTotpInput (w : W) (loc selector : string) (headingHint : option string)
  : bool :=
  if negb (visible w loc) then false
  else match likelyBody w loc selector headingHint with
       | Ok b => b
       | Throw _ => false
       end.

Fixpoint findIn (w : W) (headingHint : option string) (sels : list string)
  : Res (option string) :=
  match sels with
  | [] => mret None
  | sel :: rest =>
      if visible w sel && isLikelyTotpInput w sel sel headingHint then
        if includes sel "floatingLabelInput" then
          idAttr ← getAttribute w sel "id";
          if truthy idAttr then mret (Some ("#" +:+ default "" idAttr))
          else mret (Some sel)
        else mret (Some sel)
      else findIn w headingHint rest
  end.

(** [findFirstTotpInput(page)] *)
Definition findFirstTotpInput (w : W) : Res (option string) :=
  findIn w (detectTotpHeading w) inputSelectors.

(** [findFirstVisibleLocator(page, selectors)] *)
Definition findFirstVisibleLocator (w : W) (sels : list string) : option string :=
  List.find (visible w) sels.

(** *** The methods *)

(** [clickFirstVisibleSelector(page, selectors)]; a failed click is only logged *)
Fixpoint clickFirstVisibleSelector (sels : list string) : M bool :=
  match sels with
  | [] => mret false
  | sel :: rest =>
      s ← getSt;
      if visible (world s) sel then op (OpClick sel);; mret true
      else clickFirstVisibleSelector rest
  end.

(** the [for] loop of [ensureTotpInput], with [n] iterations left *)
Fixpoint ensureLoop (n : nat) : M (option string) :=
  match n with
  | O => mret None
  | S n' =>
      (* Step 1: expose alternative verification options if hidden *)
      acted ← clickFirstVisibleSelector altOptions;
      (if acted : bool then wait 900 else mret tt);;
      (* Step 2: choose authenticator code option if available *)
      acted ← (if acted : bool then mret true
               else a ← clickFirstVisibleSelector challenge;
                    (if a : bool then wait 900 else mret tt);;
                    mret a);
      ready ← liftRes findFirstTotpInput;
      match ready with
      | Some sel => mret (Some sel)
      | None => if acted : bool then ensureLoop n' else mret None
      end
  end.

(** [ensureTotpInput(page)] *)
Definition ensureTotpInput : M (option string) :=
  selector ← liftRes findFirstTotpInput;
  match selector with
  | Some sel => mret (Some sel)
  | None => ensureLoop 4
  end.

(** [submitTotpCode(page, selector, secret)] *)
Definition submitTotpCode (selector secret : string) : M unit :=
  tryCatch
    (code ← liftRes (fun w => generateTOTP w (trim secret));
     s ← getSt;
     if negb (visible (world s) selector) then
       log LvWarn "TOTP input unexpectedly hidden"
     else
       op (OpTypeTotp selector code);;
       s ← getSt;
       match findFirstVisibleLocator (world s) submitSelectors with
       | Some submit => op (OpClick submit)
       | None => op OpPressEnter
       end;;
       log LvLog "Submitted TOTP automatically")
    (fun error => log LvWarn ("Failed to submit TOTP automatically: " +:+ error)).

(** [tryAutoTotp(page, context, currentTotpSecret)] *)
Definition tryAutoTotp (context : string) (currentTotpSecret' : option string) : M bool :=
  s ← getSt;
  match orElse currentTotpSecret' (currentTotpSecret s) with
  | None => mret false
  | Some secret =>
      if dateNow (world s) - lastTotpSubmit s <? throttleMs then mret false else
      selector ← ensureTotpInput;
      match selector with
      | None => mret false
      | Some sel =>
          s ← getSt;
          if totpAttempts s >=? 3 then
            log LvError errStillPresent;;
            throw errStillPresent
          else
            log LvLog ("Detected TOTP challenge during " +:+ context
                       +:+ "; submitting code automatically");;
            submitTotpCode sel secret;;
            modify (fun s => withAttempts (totpAttempts s + 1) s);;
            modify (fun s => withLast (dateNow (world s)) s);;
            wait 1200;;
            mret true
      end
  end.

(** the [Promise.race] of [handleSMSOrTotp]: the operator's line against the
    120 s timer.  The line wins when it arrives before the timer is due. *)
Definition promptCode : M string :=
  op OpQuestion;;
  op (OpSetTimeout manualDeadlineMs);;
  modify (withTimer true);;
  s ← getSt;
  op OpAwaitRace;;
  match operator (world s) with
  | Some (delay, ans) =>
      if delay <? manualDeadlineMs then
        (* the question callback *)
        op OpClearTimeout;; modify (withTimer false);;
        op OpRlClose;; modify (withRl false);;
        mret (trim ans)
      else
        op OpTimerFired;; modify (withTimer false);;
        op OpRlClose;; modify (withRl false);;
        throw errManualTimeout
  | None =>
      (* the timer callback *)
      op OpTimerFired;; modify (withTimer false);;
      op OpRlClose;; modify (withRl false);;
      throw errManualTimeout
  end.

(** [handleSMSOrTotp(page)] *)
Definition handleSMSOrTotp : M unit :=
  s ← getSt;
  usedTotp ← tryAutoTotp "manual 2FA entry" (currentTotpSecret s);
  if usedTotp : bool then mret tt else
  log LvLog "Waiting for user 2FA code (SMS / Email / App fallback)";;
  op OpCreateInterface;; modify (withRl true);;
  tryFinally
    (tryCatch
       (code ← promptCode;
        s ← getSt;
        if negb (visible (world s) otcInput) then
          log LvWarn "Page changed while waiting for code (user progressed manually)"
        else
          op (OpTypeTotp otcInput code);;
          s ← getSt;
          op OpPressEnter;;
          match pressEnterError (world s) with
          | Some e => throw e
          | None => log LvLog "2FA code submitted"
          end)
       (fun error =>
          if includes error "timeout" then
            log LvError "2FA code input timeout (120s) - user AFK";;
            throw error
          else log LvWarn ("2FA code entry error: " +:+ error)))
    (op OpRlClose;; modify (withRl false)).

(** *** Negative signals of [isLikelyTotpInput] *)

Lemma attr_some (w : W) (loc name v : string) :
  getAttribute w loc name = Ok (Some v) -> attr w loc name = Ok (toLowerCase v).
Proof. unfold attr. now intros ->. Qed.

(** C3.  A candidate whose [type] attribute is 'password' or 'email', or whose
    [name] attribute contains 'loginfmt', 'passwd', 'email' or 'login', is
    never classified as a TOTP input, whatever its other attributes, its
    label, the selector or the page heading say. *)
Theorem isLikelyTotpInput_negative_signals
  (w : W) (loc selector : string) (headingHint : option string) (v : string) :
  (getAttribute w loc "type" = Ok (Some v) /\ (v = "password" \/ v = "email")) \/
  (getAttribute w loc "name" = Ok (Some v) /\
   (includes v "loginfmt" = true \/ includes v "passwd" = true \/
    includes v "email" = true \/ includes v "login" = true)) ->
  isLikelyTotpInput w loc selector headingHint = false.
Proof.
  intros H. unfold isLikelyTotpInput.
  destruct (visible w loc); [cbn [negb] | reflexivity].
  unfold likelyBody.
  destruct H as [[Ht Hv] | [Hn Hv]].
  - rewrite (attr_some _ _ _ _ Ht). cbn [mbind Res_bind].
    now rewrite (toLowerCase_excluded_type v Hv).
  - destruct (attr w loc "type") as [ty | e]; [| reflexivity].
    cbn [mbind Res_bind].
    match goal with |- context [if ?c then _ else _] => destruct c end;
      [reflexivity |].
    rewrite (attr_some _ _ _ _ Hn). cbn [mbind Res_bind].
    now rewrite (excluded_name_lowered v Hv).
Qed.

(** so [findFirstTotpInput] never answers with a selector whose first visible
    element carries a negative signal *)
Lemma findIn_skips_excluded (w : W) (hint : option string) (sels : list string)
  (sel : string) :
  isLikelyTotpInput w sel sel hint = false ->
  findIn w hint (sel :: sels) = findIn w hint sels.
Proof.
  intros H. cbn [findIn]. rewrite H. now rewrite andb_false_r.
Qed.

(** *** Reveal attempts of [ensureTotpInput] *)

(** the state after operation [o] *)
Definition after (o : Op) (s : St) : St := snd (op o s).

(** the disclosure control one iteration clicks: the first visible
    'other options' control, otherwise the first visible 'use a code' control *)
Definition pickControl (w : W) : option string :=
  match List.find (visible w) altOptions with
  | Some c => Some c
  | None => List.find (visible w) challenge
  end.

(** [Reveal k s s']: from [s], [k] iterations each found no code input,
    clicked one disclosure control and waited 900 ms, ending in [s'] *)
Inductive Reveal : nat -> St -> St -> Prop :=
| Reveal_done (s : St) : Reveal 0 s s
| Reveal_click (k : nat) (s s' : St) (c : string) :
    findFirstTotpInput (world s) = Ok None ->
    pickControl (world s) = Some c ->
    Reveal k (after (OpWait 900) (after (OpClick c) s)) s' ->
    Reveal (S k) s s'.

Definition isClick (e : Z * Op) : bool :=
  match snd e with
  | OpClick _ => true
  | _ => false
  end.

Definition clicksOf (t : list (Z * Op)) : nat := List.length (List.filter isClick t).

Lemma clickFirstVisibleSelector_spec (sels : list string) (s : St) :
  clickFirstVisibleSelector sels s =
  match List.find (visible (world s)) sels with
  | Some sel => (Ok true, after (OpClick sel) s)
  | None => (Ok false, s)
  end.
Proof.
  induction sels as [|sel rest IH]; [reflexivity |].
  cbn [clickFirstVisibleSelector List.find].
  unfold mbind, M_bind, getSt.
  destruct (visible (world s) sel); [reflexivity | apply IH].
Qed.

Lemma ensureLoop_step (n : nat) (s : St) :
  ensureLoop (S n) s =
  match pickControl (world s) with
  | Some c =>
      let s1 := after (OpWait 900) (after (OpClick c) s) in
      match findFirstTotpInput (world s1) with
      | Ok (Some sel) => (Ok (Some sel), s1)
      | Ok None => ensureLoop n s1
      | Throw e => (Throw e, s1)
      end
  | None =>
      match findFirstTotpInput (world s) with
      | Ok (Some sel) => (Ok (Some sel), s)
      | Ok None => (Ok None, s)
      | Throw e => (Throw e, s)
      end
  end.
Proof.
  cbn [ensureLoop]. unfold mbind at 1, M_bind at 1.
  rewrite clickFirstVisibleSelector_spec. unfold pickControl.
  destruct (List.find (visible (world s)) altOptions) as [c|].
  - unfold mbind, M_bind, wait, liftRes, mret, M_ret, op, after.
    cbn [fst snd world withWorld withTrace].
    now destruct (findFirstTotpInput _) as [[sel|]|e].
  - unfold mbind at 1, M_bind at 1, mret at 1, M_ret at 1.
    unfold mbind at 1, M_bind at 1, mbind at 1, M_bind at 1.
    rewrite clickFirstVisibleSelector_spec.
    destruct (List.find (visible (world s)) challenge) as [c|].
    + unfold mbind, M_bind, wait, liftRes, mret, M_ret, op, after.
      cbn [fst snd world withWorld withTrace].
      now destruct (findFirstTotpInput _) as [[sel|]|e].
    + unfold mbind, M_bind, liftRes, mret, M_ret.
      now destruct (findFirstTotpInput _) as [[sel|]|e].
Qed.

Lemma ensureLoop_spec (n : nat) (s : St) :
  findFirstTotpInput (world s) = Ok None ->
  exists k : nat,
    (k <= n)%nat /\
    Reveal k s (snd (ensureLoop n s)) /\
    fst (ensureLoop n s) = findFirstTotpInput (world (snd (ensureLoop n s))) /\
    (fst (ensureLoop n s) = Ok None ->
     k = n \/ pickControl (world (snd (ensureLoop n s))) = None).
Proof.
  revert s; induction n as [|n IH]; intros s Hs.
  - exists 0%nat. cbn [ensureLoop mret M_ret fst snd].
    repeat split; auto using Reveal_done.
  - rewrite ensureLoop_step.
    destruct (pickControl (world s)) as [c|] eqn:Hpick.
    + cbv zeta.
      set (s1 := after (OpWait 900) (after (OpClick c) s)).
      assert (Hone : forall r, r = findFirstTotpInput (world s1) ->
                r <> Ok None ->
                exists k : nat, (k <= S n)%nat /\ Reveal k s (snd (r, s1)) /\
                  fst (r, s1) = findFirstTotpInput (world (snd (r, s1))) /\
                  (fst (r, s1) = Ok None ->
                   k = S n \/ pickControl (world (snd (r, s1))) = None)).
      { intros r Hr Hne. exists 1%nat. cbn [fst snd].
        repeat split; try lia; try easy.
        eapply Reveal_click; eauto using Reveal_done. }
      destruct (findFirstTotpInput (world s1)) as [[sel|]|e] eqn:Ef.
      * apply Hone; easy.
      * destruct (IH s1 Ef) as (k & Hk & HR & Hres & Hnone).
        exists (S k). repeat split; try lia; auto.
        -- eapply Reveal_click; eauto.
        -- intros H. destruct (Hnone H); [left; lia | now right].
      * apply Hone; easy.
    + rewrite Hs. exists 0%nat. cbn [fst snd].
      repeat split; try lia; auto using Reveal_done.
Qed.

Lemma Reveal_clicks (k : nat) (s s' : St) :
  Reveal k s s' ->
  clicksOf (trace s') = (clicksOf (trace s) + k)%nat /\
  List.length (trace s') = (List.length (trace s) + 2 * k)%nat.
Proof.
  induction 1 as [s | k s s' c Hf Hp HR [IH1 IH2]]; [split; lia |].
  rewrite IH1, IH2. unfold clicksOf. cbn. split; lia.
Qed.

(** C8.  [ensureTotpInput] always returns, after [k <= 4] reveal iterations.
    Each iteration ran because no code input was resolvable, clicked exactly
    one disclosure control (the first visible 'other options' control,
    otherwise the first visible 'use a code' control) and waited; so [k]
    clicks were made in all.  The result is the resolution of the code input
    on the page as the last iteration left it: the selector as soon as one
    resolves, and null only when the four attempts are used up or the last
    iteration found no control to click (the early exit). *)
Theorem ensureTotpInput_bounded_reveal (s : St) :
  exists k : nat,
    (k <= 4)%nat /\
    Reveal k s (snd (ensureTotpInput s)) /\
    clicksOf (trace (snd (ensureTotpInput s))) = (clicksOf (trace s) + k)%nat /\
    fst (ensureTotpInput s) = findFirstTotpInput (world (snd (ensureTotpInput s))) /\
    (fst (ensureTotpInput s) = Ok None ->
     k = 4%nat \/ pickControl (world (snd (ensureTotpInput s))) = None).
Proof.
  unfold ensureTotpInput, mbind, M_bind, liftRes.
  destruct (findFirstTotpInput (world s)) as [[sel|]|e] eqn:Ef.
  - exists 0%nat. cbn [mret M_ret fst snd]. rewrite Ef.
    repeat split; try lia; try easy; auto using Reveal_done.
  - destruct (ensureLoop_spec 4 s Ef) as (k & Hk & HR & Hres & Hnone).
    exists k. repeat split; auto.
    apply (Reveal_clicks _ _ _ HR).
  - exists 0%nat. cbn [fst snd]. rewrite Ef.
    repeat split; try lia; try easy; auto using Reveal_done.
Qed.

(** *** Submissions over time *)

(** a code submission: the generated code is typed into the input *)
Definition isSubmission (e : Z * Op) : bool :=
  match snd e with
  | OpTypeTotp _ _ => true
  | _ => false
  end.

(** the times of the submissions of a trace, newest first *)
Definition submissions (t : list (Z * Op)) : list Z :=
  List.map fst (List.filter isSubmission t).

(** every submission is at least [throttleMs] after all earlier ones *)
Definition spaced (ts : list Z) : Prop :=
  StronglySorted (fun newer older => older + throttleMs <= newer) ts.

(** time does not run backwards while the driver works *)
Definition stepMonotone : Prop := forall (o : Op) (w : W), dateNow w <= dateNow (step o w).

(** a sequence of calls [tryAutoTotp(page, context, secret)] by one caller,
    which does work of its own before each call *)
Fixpoint runCalls (calls : list (string * option string)) (s : St)
  : list (Res bool) * St :=
  match calls with
  | [] => ([], s)
  | (context, secret) :: rest =>
      let (r, s1) := tryAutoTotp context secret (after OpIdle s) in
      let (rs, s2) := runCalls rest s1 in
      (r :: rs, s2)
  end.

(** how many calls of a sequence returned [true], that is, submitted a code *)
Definition submittedCalls (rs : list (Res bool)) : nat :=
  List.length (List.filter (fun r => match r with Ok true => true | _ => false end) rs).

Definition sameHandler (s s' : St) : Prop :=
  lastTotpSubmit s' = lastTotpSubmit s /\
  totpAttempts s' = totpAttempts s /\
  currentTotpSecret s' = currentTotpSecret s.

(** a computation that submits nothing and leaves the handler's fields alone *)
Definition Quiet {A : Type} (m : M A) : Prop :=
  forall s : St,
    sameHandler s (snd (m s)) /\
    (stepMonotone -> dateNow (world s) <= dateNow (world (snd (m s)))) /\
    exists new, trace (snd (m s)) = new ++ trace s /\ submissions new = [].

Lemma bind_run {A B : Type} (m : M A) (f : A -> M B) (s : St) :
  (m ≫= f) s =
  match m s with
  | (Ok a, s') => f a s'
  | (Throw e, s') => (Throw e, s')
  end.
Proof. reflexivity. Qed.

Lemma submissions_app (a b : list (Z * Op)) :
  submissions (a ++ b) = submissions a ++ submissions b.
Proof. unfold submissions. now rewrite List.filter_app, List.map_app. Qed.

Lemma Quiet_ret {A : Type} (a : A) : Quiet (mret a).
Proof.
  intros s. cbn. repeat split; try lia. now exists [].
Qed.

Lemma Quiet_getSt : Quiet getSt.
Proof.
  intros s. cbn. repeat split; try lia. now exists [].
Qed.

Lemma Quiet_throw {A : Type} (e : string) : Quiet (@throw A e).
Proof.
  intros s. cbn. repeat split; try lia. now exists [].
Qed.

Lemma Quiet_liftRes {A : Type} (r : W -> Res A) : Quiet (liftRes r).
Proof.
  intros s. cbn. repeat split; try lia. now exists [].
Qed.

Lemma Quiet_op (o : Op) : isSubmission (0, o) = false -> Quiet (op o).
Proof.
  intros Ho s. cbn. repeat split.
  - intros Hm. apply Hm.
  - exists [(dateNow (world s), o)]. split; [reflexivity |].
    unfold submissions. cbn. unfold isSubmission in *. cbn in *. now rewrite Ho.
Qed.

Lemma Quiet_bind {A B : Type} (m : M A) (f : A -> M B) :
  Quiet m -> (forall a, Quiet (f a)) -> Quiet (m ≫= f).
Proof.
  intros Hm Hf s. rewrite bind_run.
  destruct (Hm s) as ((H1 & H2 & H3) & Ht & new & Hn & Hs).
  destruct (m s) as [[a|e] s1]; cbn [snd] in *.
  - destruct (Hf a s1) as ((G1 & G2 & G3) & Gt & new' & Gn & Gs).
    repeat split; try congruence.
    + intros Hmono. specialize (Ht Hmono). specialize (Gt Hmono). lia.
    + exists (new' ++ new). rewrite Gn, Hn, List.app_assoc. split; [reflexivity |].
      now rewrite submissions_app, Gs, Hs.
  - repeat split; auto. now exists new.
Qed.

Lemma Quiet_if {A : Type} (b : bool) (m1 m2 : M A) :
  Quiet m1 -> Quiet m2 -> Quiet (if b then m1 else m2).
Proof. now destruct b. Qed.

Lemma Quiet_clickFirstVisibleSelector (sels : list string) :
  Quiet (clickFirstVisibleSelector sels).
Proof.
  induction sels as [|sel rest IH]; [apply Quiet_ret |].
  cbn [clickFirstVisibleSelector].
  apply Quiet_bind; [apply Quiet_getSt |]. intros s.
  apply Quiet_if; [| exact IH].
  apply Quiet_bind; [now apply Quiet_op | intros; apply Quiet_ret].
Qed.

Lemma Quiet_wait (ms : Z) : Quiet (wait ms).
Proof. now apply Quiet_op. Qed.

Lemma Quiet_log (lvl : Level) (msg : string) : Quiet (log lvl msg).
Proof. now apply Quiet_op. Qed.

Lemma Quiet_ensureLoop (n : nat) : Quiet (ensureLoop n).
Proof.
  induction n as [|n IH]; [apply Quiet_ret |].
  cbn [ensureLoop].
  apply Quiet_bind; [apply Quiet_clickFirstVisibleSelector |]. intros acted.
  apply Quiet_bind;
    [apply Quiet_if; [apply Quiet_wait | apply Quiet_ret] |]. intros _.
  apply Quiet_bind.
  { apply Quiet_if; [apply Quiet_ret |].
    apply Quiet_bind; [apply Quiet_clickFirstVisibleSelector |]. intros a.
    apply Quiet_bind;
      [apply Quiet_if; [apply Quiet_wait | apply Quiet_ret] |].
    intros _. apply Quiet_ret. }
  intros acted'.
  apply Quiet_bind; [apply Quiet_liftRes |]. intros [sel|].
  - apply Quiet_ret.
  - apply Quiet_if; [exact IH | apply Quiet_ret].
Qed.

Lemma Quiet_ensureTotpInput : Quiet ensureTotpInput.
Proof.
  unfold ensureTotpInput.
  apply Quiet_bind; [apply Quiet_liftRes |]. intros [sel|].
  - apply Quiet_ret.
  - apply Quiet_ensureLoop.
Qed.

(** run the monad's plumbing, leaving the driver's oracles folded *)
Ltac mrun :=
  unfold mbind, M_bind, mret, M_ret, log, wait, op, getSt, liftRes, modify, throw,
    tryCatch, tryFinally, after;
  cbn [fst snd world trace lastTotpSubmit totpAttempts currentTotpSecret rlOpen
       timerPending withWorld withTrace withLast withAttempts withRl withTimer negb].

Ltac mrun_in H :=
  unfold mbind, M_bind, mret, M_ret, log, wait, op, getSt, liftRes, modify, throw,
    tryCatch, tryFinally, after in H;
  cbn [fst snd world trace lastTotpSubmit totpAttempts currentTotpSecret rlOpen
       timerPending withWorld withTrace withLast withAttempts withRl withTimer negb] in H.

Lemma submitTotpCode_effect (sel secret : string) (s : St) :
  fst (submitTotpCode sel secret s) = Ok tt /\
  sameHandler s (snd (submitTotpCode sel secret s)) /\
  (stepMonotone ->
   dateNow (world s) <= dateNow (world (snd (submitTotpCode sel secret s)))) /\
  exists new,
    trace (snd (submitTotpCode sel secret s)) = new ++ trace s /\
    (List.length (submissions new) <= 1)%nat /\
    (stepMonotone ->
     Forall (fun t => dateNow (world s) <= t
                      <= dateNow (world (snd (submitTotpCode sel secret s))))
            (submissions new)).
Proof.
  unfold submitTotpCode, sameHandler. mrun.
  destruct (generateTOTP (world s) (trim secret)) as [code|e]; mrun.
  - destruct (visible (world s) sel); mrun.
    + destruct (findFirstVisibleLocator _ submitSelectors) as [submit|]; mrun;
        (repeat split;
         [ intros Hm;
           match goal with |- _ <= dateNow (step ?a (step ?o (step ?t ?w))) =>
             pose proof (Hm t w); pose proof (Hm o (step t w));
             pose proof (Hm a (step o (step t w))) end; lia
         | eexists [_; _; _]; split; [reflexivity |];
           split; [cbn; lia |]; intros Hm; cbn; constructor; [| constructor];
           match goal with |- _ <= _ <= dateNow (step ?a (step ?o (step ?t ?w))) =>
             pose proof (Hm t w); pose proof (Hm o (step t w));
             pose proof (Hm a (step o (step t w))) end; lia ]).
    + repeat split; auto.
      eexists [_]. split; [reflexivity |]. cbn. split; [lia | constructor].
  - repeat split; auto.
    eexists [_]. split; [reflexivity |]. cbn. split; [lia | constructor].
Qed.

(** what one call of [tryAutoTotp] can do to the handler and the trace *)
Lemma tryAutoTotp_cases (context : string) (sec : option string) (s : St)
  (r : Res bool) (s' : St) :
  tryAutoTotp context sec s = (r, s') ->
  exists new,
    trace s' = new ++ trace s /\
    ((r <> Ok true /\ submissions new = [] /\
      lastTotpSubmit s' = lastTotpSubmit s /\ totpAttempts s' = totpAttempts s) \/
     (r = Ok true /\ totpAttempts s < 3 /\ totpAttempts s' = totpAttempts s + 1 /\
      (List.length (submissions new) <= 1)%nat /\
      (stepMonotone ->
       lastTotpSubmit s + throttleMs <= lastTotpSubmit s' /\
       Forall (fun t => lastTotpSubmit s + throttleMs <= t <= lastTotpSubmit s')
              (submissions new)))).
Proof.
  unfold tryAutoTotp. rewrite bind_run. unfold getSt at 1. cbv beta iota.
  destruct (orElse sec (currentTotpSecret s)) as [secret|];
    [| intros [= <- <-]; exists []; split; [reflexivity |]; left;
       repeat split; try discriminate; auto].
  destruct (Z.ltb_spec (dateNow (world s) - lastTotpSubmit s) throttleMs) as [Hlt|Hge];
    [intros [= <- <-]; exists []; split; [reflexivity |]; left;
     repeat split; try discriminate; auto |].
  rewrite bind_run.
  destruct (Quiet_ensureTotpInput s) as ((E1 & E2 & E3) & Et & new1 & En & Es).
  destruct (ensureTotpInput s) as [[[sel|]|e] s1]; cbn [snd] in *;
    [| intros [= <- <-]; exists new1; split; [exact En |]; left;
       repeat split; try discriminate; auto
     | intros [= <- <-]; exists new1; split; [exact En |]; left;
       repeat split; try discriminate; auto].
  rewrite bind_run. unfold getSt at 1. cbv beta iota.
  destruct (Z.geb_spec (totpAttempts s1) 3) as [Hthree|Hfew].
  - mrun. intros [= <- <-]. cbn [trace lastTotpSubmit totpAttempts].
    eexists (_ :: new1). rewrite En. split; [reflexivity |].
    left. repeat split; auto; try discriminate.
  - rewrite bind_run. unfold log at 1, op at 1.
    set (s2 := withWorld _ _).
    rewrite bind_run.
    destruct (submitTotpCode_effect sel secret s2)
      as (S1 & (S2 & S3 & S4) & St & new3 & Sn & Sl & Sf).
    destruct (submitTotpCode sel secret s2) as [r3 s3]; cbn [fst snd] in *.
    subst r3. mrun. intros [= <- <-].
    cbn [trace lastTotpSubmit totpAttempts world].
    eexists (_ :: new3 ++ [_] ++ new1). split.
    { rewrite Sn. subst s2. cbn [trace withWorld withTrace]. rewrite En.
      cbn [List.app]. rewrite <- !List.app_assoc. reflexivity. }
    right. subst s2. cbn [lastTotpSubmit totpAttempts withWorld withTrace world] in *.
    match goal with |- context [submissions (?x :: new3 ++ ?y ++ new1)] =>
      assert (Hsub : submissions (x :: new3 ++ y ++ new1) = submissions new3)
        by (change (x :: new3 ++ y ++ new1) with ([x] ++ new3 ++ y ++ new1);
            rewrite !submissions_app, Es; cbn; now rewrite List.app_nil_r);
      rewrite Hsub
    end.
    cbn [lastTotpSubmit totpAttempts withLast withAttempts].
    split; [reflexivity |]. split; [lia |]. split; [lia |]. split; [exact Sl |].
    intros Hm. specialize (Et Hm). specialize (St Hm). specialize (Sf Hm).
    match type of St with context [step ?o (world s1)] =>
      pose proof (Hm o (world s1)) end.
    unfold throttleMs in *. split; [lia |].
    eapply List.Forall_impl; [| exact Sf]. cbn beta. intros t Ht. lia.
Qed.

Lemma tryAutoTotp_throttled (context : string) (sec : option string) (s : St) :
  dateNow (world s) - lastTotpSubmit s < throttleMs ->
  tryAutoTotp context sec s = (Ok false, s).
Proof.
  intros H. unfold tryAutoTotp. rewrite bind_run. unfold getSt at 1.
  destruct (orElse sec (currentTotpSecret s)); [| reflexivity].
  destruct (Z.ltb_spec (dateNow (world s) - lastTotpSubmit s) throttleMs);
    [reflexivity | lia].
Qed.

(** what holds of the trace after any sequence of calls *)
Definition spacedUpTo (s : St) : Prop :=
  spaced (submissions (trace s)) /\
  Forall (fun t => t <= lastTotpSubmit s) (submissions (trace s)).

Lemma runCalls_spaced (calls : list (string * option string)) (s : St) :
  stepMonotone -> spacedUpTo s -> spacedUpTo (snd (runCalls calls s)).
Proof.
  intros Hm. revert s. induction calls as [|[context sec] rest IH]; intros s Hs;
    [exact Hs |].
  cbn [runCalls].
  destruct (tryAutoTotp context sec (after OpIdle s)) as [r s1] eqn:Ecall.
  destruct (tryAutoTotp_cases _ _ _ _ _ Ecall) as (new & Hn & Hc).
  specialize (IH s1). destruct (runCalls rest s1) as [rs s2]; cbn [snd] in *.
  apply IH. clear IH. destruct Hs as [Hsp Hle].
  unfold spacedUpTo. rewrite Hn. unfold after, op at 1 2. cbn [snd trace withWorld withTrace].
  change ((dateNow (world s), OpIdle) :: trace s)
    with ([(dateNow (world s), OpIdle)] ++ trace s).
  rewrite !submissions_app. change (submissions [(dateNow (world s), OpIdle)]) with (@nil Z).
  cbn [List.app].
  unfold after, op in Hc; cbn [snd lastTotpSubmit totpAttempts withWorld withTrace] in Hc.
  destruct Hc as [(_ & Hnil & Hlast & _) | (_ & _ & _ & Hlen & Hf)].
  - rewrite Hnil, Hlast. now split.
  - specialize (Hf Hm).
    destruct (submissions new) as [|t [|t' more]]; [destruct Hf as [Hl Hf] | | cbn in Hlen; lia].
    + split; [exact Hsp |]. cbn [List.app].
      eapply List.Forall_impl; [| exact Hle]. cbn beta. intros x Hx.
      unfold throttleMs in *. lia.
    + destruct Hf as [Hl Hf]. apply Forall_inv in Hf. cbn [List.app]. split.
      * constructor; [exact Hsp |].
        eapply List.Forall_impl; [| exact Hle]. cbn beta. intros x Hx.
        unfold throttleMs in *. lia.
      * constructor; [lia |].
        eapply List.Forall_impl; [| exact Hle]. cbn beta. intros x Hx.
        unfold throttleMs in *. lia.
Qed.

(** C1.  While time does not run backwards: a call made less than 5000 ms
    after [lastTotpSubmit] returns false and changes nothing (no click, no
    typing, no field of the handler); and over every sequence of calls on a
    fresh handler, each code submission comes at least 5000 ms after every
    earlier one, so no 5-second window holds two. *)
Theorem tryAutoTotp_throttle :
  stepMonotone ->
  (forall (s : St) (context : string) (sec : option string),
     dateNow (world s) - lastTotpSubmit s < throttleMs ->
     tryAutoTotp context sec s = (Ok false, s)) /\
  (forall (calls : list (string * option string)) (w : W) (secret : option string),
     spaced (submissions
               (trace (snd (runCalls calls (setTotpSecret secret (newHandler w))))))).
Proof.
  intros Hm. split.
  - intros s context sec H. now apply tryAutoTotp_throttled.
  - intros calls w secret.
    apply (runCalls_spaced calls _ Hm).
    split; cbn; constructor.
Qed.

(** *** The attempt counter *)

Lemma runCalls_attempts (calls : list (string * option string)) (s : St) :
  totpAttempts (snd (runCalls calls s)) =
  totpAttempts s + Z.of_nat (submittedCalls (fst (runCalls calls s))).
Proof.
  revert s. induction calls as [|[context sec] rest IH]; intros s;
    [cbn; lia |].
  cbn [runCalls].
  destruct (tryAutoTotp context sec (after OpIdle s)) as [r s1] eqn:Ecall.
  destruct (tryAutoTotp_cases _ _ _ _ _ Ecall) as (new & Hn & Hc).
  specialize (IH s1). destruct (runCalls rest s1) as [rs s2]; cbn [fst snd] in *.
  rewrite IH. unfold submittedCalls. cbn [List.filter].
  unfold after, op in Hc; cbn [snd totpAttempts withWorld withTrace] in Hc.
  destruct Hc as [(Hr & _ & _ & Ha) | (Hr & _ & Ha & _)].
  - rewrite Ha. destruct r as [[|]|e]; try reflexivity. now destruct Hr.
  - rewrite Ha, Hr. cbn [List.length]. lia.
Qed.

Lemma tryAutoTotp_exhausted (context : string) (sec : option string) (s s1 : St)
  (secret sel : string) :
  orElse sec (currentTotpSecret s) = Some secret ->
  throttleMs <= dateNow (world s) - lastTotpSubmit s ->
  ensureTotpInput s = (Ok (Some sel), s1) ->
  3 <= totpAttempts s ->
  tryAutoTotp context sec s
  = (Throw errStillPresent, after (OpLog LvError errStillPresent) s1).
Proof.
  intros Hsec Hthr Hens Hatt.
  unfold tryAutoTotp. rewrite bind_run. unfold getSt at 1. cbv beta iota.
  rewrite Hsec.
  destruct (Z.ltb_spec (dateNow (world s) - lastTotpSubmit s) throttleMs); [lia |].
  rewrite bind_run.
  destruct (Quiet_ensureTotpInput s) as ((_ & E2 & _) & _).
  rewrite Hens in *. cbn [snd] in E2.
  rewrite bind_run. unfold getSt at 1. cbv beta iota.
  destruct (Z.geb_spec (totpAttempts s1) 3); [reflexivity | lia].
Qed.


(** *** Manual entry *)

Definition waitingMsg : string := "Waiting for user 2FA code (SMS / Email / App fallback)".
Definition afkMsg : string := "2FA code input timeout (120s) - user AFK".
Definition pageChangedMsg : string :=
  "Page changed while waiting for code (user progressed manually)".

(** the world in which the race between the operator and the timer starts *)
Definition raceWorld (s : St) : W :=
  step (OpSetTimeout manualDeadlineMs)
    (step OpQuestion (step OpCreateInterface (step (OpLog LvLog waitingMsg) (world s)))).

(** the world in which the answer callback has run *)
Definition answeredWorld (s : St) : W :=
  step OpRlClose (step OpClearTimeout (step OpAwaitRace (raceWorld s))).

(** the operations of a trace, newest first *)
Definition opsOf (t : list (Z * Op)) : list Op := List.map snd t.

(** what the prompt does before the race settles, newest first *)
Definition promptOps : list Op :=
  [OpAwaitRace; OpSetTimeout manualDeadlineMs; OpQuestion; OpCreateInterface;
   OpLog LvLog waitingMsg].

(** the operator's line, when it arrives before the timer is due *)
Definition answerInTime (s : St) : option string :=
  match operator (raceWorld s) with
  | Some (delay, ans) => if delay <? manualDeadlineMs then Some ans else None
  | None => None
  end.

Lemma tryAutoTotp_no_secret (context : string) (s : St) :
  truthy (currentTotpSecret s) = false ->
  tryAutoTotp context (currentTotpSecret s) s = (Ok false, s).
Proof.
  intros H. unfold tryAutoTotp. rewrite bind_run. unfold getSt at 1. cbv beta iota.
  unfold orElse. now rewrite H.
Qed.

(** C4, as the code has it.  With no secret, [handleSMSOrTotp] opens a
    readline prompt and arms a 120000 ms timer.  Whatever happens next, the
    readline interface is closed and the timer is no longer pending when the
    call ends.  If no line arrives before the timer is due, the call logs the
    'user AFK' error and throws '2FA code input timeout after 120s', having
    typed nothing.  If a line arrives in time and the field input[name="otc"]
    is still visible, the trimmed line is typed with [HumanTyping.typeTotp]
    and Enter is pressed; if the field is no longer visible the call returns
    without typing or pressing anything. *)
Theorem handleSMSOrTotp_manual_entry (s : St) :
  truthy (currentTotpSecret s) = false ->
  let r := fst (handleSMSOrTotp s) in
  let s' := snd (handleSMSOrTotp s) in
  rlOpen s' = false /\ timerPending s' = false /\
  exists new : list (Z * Op),
    trace s' = new ++ trace s /\
    match answerInTime s with
    | None =>
        r = Throw errManualTimeout /\
        opsOf new = [OpRlClose; OpLog LvError afkMsg; OpRlClose; OpTimerFired] ++ promptOps
    | Some ans =>
        if visible (answeredWorld s) otcInput then
          exists rest : list Op,
            opsOf new = rest ++ [OpPressEnter; OpTypeTotp otcInput (trim ans);
                                 OpRlClose; OpClearTimeout] ++ promptOps
        else
          r = Ok tt /\
          opsOf new = [OpRlClose; OpLog LvWarn pageChangedMsg;
                       OpRlClose; OpClearTimeout] ++ promptOps
    end.
Proof.
  intros Hsec. cbv zeta.
  destruct (handleSMSOrTotp s) as [r s'] eqn:E. cbn [fst snd].
  unfold answerInTime, answeredWorld, raceWorld.
  unfold handleSMSOrTotp in E.
  rewrite bind_run in E. unfold getSt at 1 in E. cbv beta iota in E.
  rewrite bind_run, (tryAutoTotp_no_secret _ s Hsec) in E. cbv beta iota in E.
  unfold promptCode in E. mrun_in E.
  destruct (operator _) as [[delay ans]|]; mrun_in E.
  - destruct (delay <? manualDeadlineMs); mrun_in E.
    + destruct (visible _ otcInput); mrun_in E.
      * destruct (pressEnterError _) as [e|]; mrun_in E.
        -- destruct (includes e "timeout"); mrun_in E; injection E as <- <-; mrun;
             (split; [reflexivity |]; split; [reflexivity |];
              eexists [_; _; _; _; _; _; _; _; _; _; _];
              split; [reflexivity |]; eexists [_; _]; reflexivity).
        -- injection E as <- <-. mrun. split; [reflexivity |]. split; [reflexivity |].
           eexists [_; _; _; _; _; _; _; _; _; _; _].
           split; [reflexivity |]. eexists [_; _]. reflexivity.
      * injection E as <- <-. mrun. split; [reflexivity |]. split; [reflexivity |].
        eexists [_; _; _; _; _; _; _; _; _].
        split; [reflexivity |]. split; reflexivity.
    + injection E as <- <-. mrun. split; [reflexivity |]. split; [reflexivity |].
      eexists [_; _; _; _; _; _; _; _; _].
      split; [reflexivity |]. split; reflexivity.
  - injection E as <- <-. mrun. split; [reflexivity |]. split; [reflexivity |].
    eexists [_; _; _; _; _; _; _; _; _].
    split; [reflexivity |]. split; reflexivity.
Qed.

(** *** The caller *)

(** The push-approval path of [handle2FA] ([fetchAuthenticatorNumber],
    [approveAuthenticator]) is a parameter here: nothing below depends on it. *)
Variable fetchAuthenticatorNumber : M (option string).
Variable approveAuthenticator : string -> M unit.

(** [handle2FA(page)] *)
Definition handle2FA : M unit :=
  tryCatch
    (op OpDismissAllMessages;;
     wait 500;;
     s ← getSt;
     usedTotp ← tryAutoTotp "2FA initial step" (currentTotpSecret s);
     if usedTotp : bool then mret tt else
     number ← fetchAuthenticatorNumber;
     if truthy number then approveAuthenticator (default "" number)
     else handleSMSOrTotp)
    (fun e => log LvWarn ("2FA error: " +:+ e)).

(** the caller [handle2FA] catches whatever [tryAutoTotp] throws and logs it *)
Lemma handle2FA_catches (s : St) : fst (handle2FA s) = Ok tt.
Proof.
  unfold handle2FA, tryCatch.
  match goal with |- context [match ?m s with _ => _ end] => destruct (m s) as [[[]|e] s1] end;
    reflexivity.
Qed.


(** *** The secret, the counters and [reset] *)

(** X1.  [setTotpSecret] stores the secret trimmed and clears both
    counters; a missing, empty or blank secret is stored as none, and then
    [tryAutoTotp] called without a secret of its own returns false and does
    nothing. *)
Theorem setTotpSecret_trims (secret : option string) (s : St) (context : string) :
  lastTotpSubmit (setTotpSecret secret s) = 0
  /\ totpAttempts (setTotpSecret secret s) = 0
  /\ (forall x, secret = Some x -> trim x <> "" ->
      currentTotpSecret (setTotpSecret secret s) = Some (trim x))
  /\ (secret = None \/ (exists x, secret = Some x /\ trim x = "") ->
      currentTotpSecret (setTotpSecret secret s) = None
      /\ tryAutoTotp context None (setTotpSecret secret s)
         = (Ok false, setTotpSecret secret s)).
Proof.
  split; [reflexivity |]. split; [reflexivity |]. split.
  - intros x -> Hx. unfold setTotpSecret. cbn [currentTotpSecret option_map].
    assert (Hne : (x =? "")%string = false).
    { apply String.eqb_neq. intros ->. now apply Hx. }
    unfold truthy at 1. rewrite Hne. cbn [negb]. unfold orElse, truthy.
    apply String.eqb_neq in Hx. now rewrite Hx.
  - intros Hblank.
    assert (Hnone : currentTotpSecret (setTotpSecret secret s) = None).
    { unfold setTotpSecret. cbn [currentTotpSecret].
      destruct Hblank as [-> | (x & -> & Hx)]; [reflexivity |].
      cbn [option_map]. rewrite Hx. now destruct (truthy (Some x)). }
    split; [exact Hnone |].
    unfold tryAutoTotp. rewrite bind_run. unfold getSt at 1. cbv beta iota.
    now rewrite Hnone.
Qed.

(** X2.  [reset] clears the throttle and the attempt counter and keeps
    the secret: however many codes were submitted before, the next call that
    resolves the code input, 5000 ms or more into the clock, submits again
    and counts as the first attempt. *)
Theorem reset_rearms (context : string) (sec : option string) (s s1 : St)
  (secret sel : string) :
  orElse sec (currentTotpSecret s) = Some secret ->
  throttleMs <= dateNow (world s) ->
  ensureTotpInput (reset s) = (Ok (Some sel), s1) ->
  fst (tryAutoTotp context sec (reset s)) = Ok true
  /\ totpAttempts (snd (tryAutoTotp context sec (reset s))) = 1.
Proof.
  intros Hsec Hthr Hens.
  destruct (tryAutoTotp context sec (reset s)) as [r s'] eqn:E. cbn [fst snd].
  unfold tryAutoTotp in E. rewrite bind_run in E. unfold getSt at 1 in E.
  cbv beta iota in E.
  change (currentTotpSecret (reset s)) with (currentTotpSecret s) in E.
  rewrite Hsec in E.
  change (world (reset s)) with (world s) in E.
  change (lastTotpSubmit (reset s)) with 0 in E.
  destruct (Z.ltb_spec (dateNow (world s) - 0) throttleMs); [lia |].
  rewrite bind_run in E.
  destruct (Quiet_ensureTotpInput (reset s)) as ((_ & E2 & _) & _).
  rewrite Hens in *. cbn [snd] in E2. change (totpAttempts (reset s)) with 0 in E2.
  rewrite bind_run in E. unfold getSt at 1 in E. cbv beta iota in E. rewrite E2 in E.
  change (0 >=? 3) with false in E. cbv iota in E.
  rewrite bind_run in E. unfold log at 1, op at 1 in E.
  set (s2 := withWorld _ _) in E.
  rewrite bind_run in E.
  destruct (submitTotpCode_effect sel secret s2) as (S1 & (_ & S3 & _) & _).
  destruct (submitTotpCode sel secret s2) as [r3 s3]; cbn [fst snd] in *.
  subst r3. mrun_in E. injection E as <- <-. split; [reflexivity |].
  cbn [totpAttempts]. rewrite S3. subst s2. cbn [totpAttempts withWorld withTrace].
  rewrite E2. reflexivity.
Qed.

(** X3.  When the code cannot be generated from the secret,
    [tryAutoTotp] types nothing and logs a warning, and yet returns true and
    counts an attempt, as if a code had been submitted. *)
Theorem tryAutoTotp_counts_failed_generation (context : string) (sec : option string)
  (s s1 : St) (secret sel e : string) :
  (forall w, generateTOTP w (trim secret) = Throw e) ->
  orElse sec (currentTotpSecret s) = Some secret ->
  throttleMs <= dateNow (world s) - lastTotpSubmit s ->
  ensureTotpInput s = (Ok (Some sel), s1) ->
  totpAttempts s < 3 ->
  fst (tryAutoTotp context sec s) = Ok true
  /\ totpAttempts (snd (tryAutoTotp context sec s)) = totpAttempts s + 1
  /\ submissions (trace (snd (tryAutoTotp context sec s))) = submissions (trace s)
  /\ exists warning,
       List.hd_error (opsOf (List.tl (trace (snd (tryAutoTotp context sec s)))))
       = Some (OpLog LvWarn warning).
Proof.
  intros Hgen Hsec Hthr Hens Hatt.
  destruct (tryAutoTotp context sec s) as [r s'] eqn:E. cbn [fst snd].
  unfold tryAutoTotp in E. rewrite bind_run in E. unfold getSt at 1 in E.
  cbv beta iota in E. rewrite Hsec in E.
  destruct (Z.ltb_spec (dateNow (world s) - lastTotpSubmit s) throttleMs); [lia |].
  rewrite bind_run in E.
  destruct (Quiet_ensureTotpInput s) as ((_ & E2 & _) & _ & new1 & En & Es).
  rewrite Hens in *. cbn [snd] in E2, En.
  rewrite bind_run in E. unfold getSt at 1 in E. cbv beta iota in E.
  destruct (Z.geb_spec (totpAttempts s1) 3); [lia |].
  unfold submitTotpCode in E. mrun_in E. rewrite Hgen in E. mrun_in E.
  injection E as <- <-. mrun. rewrite En.
  split; [reflexivity |]. split; [now rewrite E2 |]. split; [| eexists; reflexivity].
  match goal with
  | |- submissions (?a :: ?b :: ?c :: new1 ++ trace s) = _ =>
      change (a :: b :: c :: new1 ++ trace s) with ([a; b; c] ++ new1 ++ trace s)
  end.
  rewrite !submissions_app, Es. reflexivity.
Qed.

(** *** The manual prompt, when pressing Enter fails *)

(** X4.  Any error of the manual entry whose message contains 'timeout'
    is taken for the prompt's own: when the operator's code arrived in time
    and was typed, and pressing Enter then fails with such a message, the
    call logs '2FA code input timeout (120s) - user AFK' and rethrows the
    error. *)
Theorem handleSMSOrTotp_press_timeout_is_afk (s : St) (ans e : string) :
  truthy (currentTotpSecret s) = false ->
  answerInTime s = Some ans ->
  visible (answeredWorld s) otcInput = true ->
  pressEnterError (step (OpTypeTotp otcInput (trim ans)) (answeredWorld s)) = Some e ->
  includes e "timeout" = true ->
  fst (handleSMSOrTotp s) = Throw e
  /\ opsOf (trace (snd (handleSMSOrTotp s)))
     = [OpRlClose; OpLog LvError afkMsg; OpPressEnter; OpTypeTotp otcInput (trim ans);
        OpRlClose; OpClearTimeout] ++ promptOps ++ opsOf (trace s).
Proof.
  intros Hsec Hans Hvis Hpress Htimeout.
  destruct (handleSMSOrTotp s) as [r s'] eqn:E. cbn [fst snd].
  unfold answerInTime, answeredWorld, raceWorld, waitingMsg in *.
  unfold handleSMSOrTotp in E.
  rewrite bind_run in E. unfold getSt at 1 in E. cbv beta iota in E.
  rewrite bind_run, (tryAutoTotp_no_secret _ s Hsec) in E. cbv beta iota in E.
  unfold promptCode in E. mrun_in E.
  destruct (operator _) as [[delay ans']|]; [| discriminate].
  destruct (delay <? manualDeadlineMs); [| discriminate].
  injection Hans as ->. mrun_in E.
  rewrite Hvis in E. mrun_in E. rewrite Hpress in E. mrun_in E.
  rewrite Htimeout in E. mrun_in E.
  injection E as <- <-. mrun. split; reflexivity.
Qed.

(** *** Which input [findFirstTotpInput] returns *)

Lemma findIn_sound (w : W) (hint : option string) (sels : list string) :
  match findIn w hint sels with
  | Ok (Some sel) =>
      exists before cand rest,
        sels = before ++ cand :: rest
        /\ (forall c, In c before -> visible w c && isLikelyTotpInput w c c hint = false)
        /\ visible w cand = true /\ isLikelyTotpInput w cand cand hint = true
        /\ (sel = cand
            \/ (includes cand "floatingLabelInput" = true
                /\ exists id, getAttribute w cand "id" = Ok (Some id)
                              /\ id <> "" /\ sel = "#" +:+ id))
  | Ok None =>
      forall c, In c sels -> visible w c && isLikelyTotpInput w c c hint = false
  | Throw _ =>
      exists cand, In cand sels /\ includes cand "floatingLabelInput" = true
                   /\ exists e, getAttribute w cand "id" = Throw e
  end.
Proof.
  induction sels as [|sel rest IH]; cbn [findIn].
  - intros c [].
  - destruct (visible w sel && isLikelyTotpInput w sel sel hint) eqn:Hsel.
    + apply andb_true_iff in Hsel as [Hv Hl].
      destruct (includes sel "floatingLabelInput") eqn:Hf.
      * unfold mbind, Res_bind.
        destruct (getAttribute w sel "id") as [[id|]|e] eqn:Hid; cbn.
        -- destruct (id =? "")%string eqn:Hempty; cbn.
           ++ exists [], sel, rest. repeat split; auto. intros c [].
           ++ exists [], sel, rest. split; [reflexivity |]. split; [intros c [] |].
              split; [exact Hv |]. split; [exact Hl |]. right. split; [exact Hf |].
              exists id. apply String.eqb_neq in Hempty. now repeat split.
        -- exists [], sel, rest. repeat split; auto. intros c [].
        -- exists sel. split; [now left |]. split; [exact Hf |]. now exists e.
      * exists [], sel, rest. repeat split; auto. intros c [].
    + destruct (findIn w hint rest) as [[found|]|e].
      * destruct IH as (before & cand & after' & -> & Hb & Hv & Hl & Hs).
        exists (sel :: before), cand, after'. split; [reflexivity |].
        split; [| now repeat split].
        intros c [<- | Hc]; [exact Hsel | now apply Hb].
      * intros c [<- | Hc]; [exact Hsel | now apply IH].
      * destruct IH as (cand & Hin & Hf & He). exists cand. split; [now right | now split].
Qed.

(** X5.  The selector [findFirstTotpInput] returns stands for the first
    candidate of [TOTP_SELECTORS.input], in order, that is visible and judged
    a TOTP input; for the floating-label candidate it is the [#id] of the
    element when that has an id.  It returns null only when no candidate is
    both, and throws only when the id of the floating-label candidate
    cannot be read. *)
Theorem findFirstTotpInput_sound (w : W) :
  match findFirstTotpInput w with
  | Ok (Some sel) =>
      exists before cand rest,
        inputSelectors = before ++ cand :: rest
        /\ (forall c, In c before ->
            visible w c && isLikelyTotpInput w c c (detectTotpHeading w) = false)
        /\ visible w cand = true
        /\ isLikelyTotpInput w cand cand (detectTotpHeading w) = true
        /\ (sel = cand
            \/ (includes cand "floatingLabelInput" = true
                /\ exists id, getAttribute w cand "id" = Ok (Some id)
                              /\ id <> "" /\ sel = "#" +:+ id))
  | Ok None =>
      forall c, In c inputSelectors ->
        visible w c && isLikelyTotpInput w c c (detectTotpHeading w) = false
  | Throw _ =>
      exists cand, In cand inputSelectors /\ includes cand "floatingLabelInput" = true
                   /\ exists e, getAttribute w cand "id" = Throw e
  end.
Proof. apply findIn_sound. Qed.

(** X6.  For a selector that mentions 'otc' or 'otp', a visible element
    whose attributes can be read is judged a TOTP input unless one of the two
    exclusions (type, name) rejects it: nothing else can turn it down. *)
Theorem isLikelyTotpInput_otc_selector (w : W) (loc selector : string)
  (headingHint : option string) :
  visible w loc = true ->
  testAny ["otc"; "otp"] selector = true ->
  (forall name, exists v, getAttribute w loc name = Ok v) ->
  (forall t, attr w loc "type" = Ok t -> t <> "email" /\ t <> "password") ->
  (forall n, attr w loc "name" = Ok n ->
     includes n "loginfmt" = false /\ includes n "passwd" = false
     /\ includes n "email" = false /\ includes n "login" = false) ->
  isLikelyTotpInput w loc selector headingHint = true.
Proof.
  intros Hvis Hsel Hread Htype Hname.
  unfold isLikelyTotpInput. rewrite Hvis. cbn [negb].
  unfold likelyBody.
  destruct (attr w loc "type") as [t|e] eqn:Et.
  2:{ unfold attr in Et. destruct (Hread "type") as [v Hv]. now rewrite Hv in Et. }
  destruct (Htype t eq_refl) as [Ht1 Ht2]. apply String.eqb_neq in Ht1, Ht2.
  unfold mbind at 1, Res_bind at 1. rewrite Ht1, Ht2. cbn [orb].
  destruct (attr w loc "name") as [n|e] eqn:En.
  2:{ unfold attr in En. destruct (Hread "name") as [v Hv]. now rewrite Hv in En. }
  destruct (Hname n eq_refl) as (Hn1 & Hn2 & Hn3 & Hn4).
  unfold mbind at 1, Res_bind at 1. rewrite Hn1, Hn2, Hn3, Hn4. cbn [orb].
  unfold attr.
  repeat match goal with
         | |- context [getAttribute w loc ?name] =>
             let v := fresh "v" in
             let Hv := fresh "Hv" in
             destruct (Hread name) as [v Hv]; rewrite Hv; clear Hv
         end.
  unfold mbind, Res_bind, mret, Res_ret.
  rewrite Hsel.
  repeat first [ reflexivity
               | match goal with
                 | |- context [if ?c then Ok true else _] => destruct c
                 end ].
Qed.

(** *** The caller swallows the give-up error *)

(** X7.  The error [tryAutoTotp] throws when it gives up does not
    leave [handle2FA]: it is logged as a warning and [handle2FA] returns
    normally, with no push approval and no manual prompt tried. *)
Theorem handle2FA_swallows_give_up (s s1 : St) (secret sel : string) :
  let s0 := after (OpWait 500) (after OpDismissAllMessages s) in
  orElse (currentTotpSecret s) (currentTotpSecret s) = Some secret ->
  throttleMs <= dateNow (world s0) - lastTotpSubmit s ->
  ensureTotpInput s0 = (Ok (Some sel), s1) ->
  3 <= totpAttempts s ->
  exists warning,
    handle2FA s
    = (Ok tt, after (OpLog LvWarn warning) (after (OpLog LvError errStillPresent) s1)).
Proof.
  intros s0 Hsec Hthr Hens Hatt. exists ("2FA error: " +:+ errStillPresent).
  pose proof (tryAutoTotp_exhausted "2FA initial step" (currentTotpSecret s0) s0 s1
                secret sel Hsec Hthr Hens Hatt) as Hgive.
  unfold handle2FA, tryCatch.
  rewrite bind_run. unfold op at 1. cbv beta iota.
  rewrite bind_run. unfold wait at 1, op at 1. cbv beta iota.
  rewrite bind_run. unfold getSt at 1. cbv beta iota.
  rewrite bind_run.
  change (withWorld _ (withTrace _ (withWorld _ (withTrace _ s)))) with s0.
  rewrite Hgive. reflexivity.
Qed.

End Driver.

Arguments world {W} s.
Arguments trace {W} s.
Arguments lastTotpSubmit {W} s.
Arguments totpAttempts {W} s.
Arguments currentTotpSecret {W} s.
Arguments rlOpen {W} s.
Arguments timerPending {W} s.

(** *** A concrete world

    A page that shows one field under every selector; a clock that every
    operation advances; an operator who may type a line. *)
Record DemoWorld : Type := mkDemo {
  clock : Z;
  fieldVisible : bool;               (* whether the field is on the page *)
  fieldType : string;                (* its [type] attribute *)
  line : option (Z * string)         (* the operator's line and when it comes *)
}.

Definition demoCost (o : Op) : Z :=
  match o with
  | OpWait ms => Z.max 0 ms
  | OpIdle => 6000
  | _ => 10
  end.

Definition demoNow (w : DemoWorld) : Z := clock w.
Definition demoStep (o : Op) (w : DemoWorld) : DemoWorld :=
  mkDemo (clock w + demoCost o) (fieldVisible w) (fieldType w) (line w).
Definition demoVisible (w : DemoWorld) (sel : string) : bool := fieldVisible w.
Definition demoAttribute (w : DemoWorld) (loc name : string) : Res (option string) :=
  if (name =? "type")%string then Ok (Some (fieldType w)) else Ok (Some "otc").
Definition demoLabel (w : DemoWorld) (loc : string) : string := "Enter code".
Definition demoHeadings (w : DemoWorld) : list (option string) :=
  [Some "Enter your security code"].
Definition demoNumber (v : string) : option Q := None.
Definition demoTotp (w : DemoWorld) (secret : string) : Res string := Ok "123456".
Definition demoEnterError (w : DemoWorld) : option string := None.
Definition demoOperator (w : DemoWorld) : option (Z * string) := line w.

Abbreviation demoTryAutoTotp :=
  (tryAutoTotp DemoWorld demoNow demoStep demoVisible demoAttribute demoLabel
     demoHeadings demoNumber demoTotp).
Abbreviation demoRunCalls :=
  (runCalls DemoWorld demoNow demoStep demoVisible demoAttribute demoLabel
     demoHeadings demoNumber demoTotp).
Abbreviation demoHandleSMSOrTotp :=
  (handleSMSOrTotp DemoWorld demoNow demoStep demoVisible demoAttribute demoLabel
     demoHeadings demoNumber demoTotp demoEnterError demoOperator).

Lemma demoStep_monotone : stepMonotone DemoWorld demoNow demoStep.
Proof.
  intros o w. unfold demoNow, demoStep, demoCost. cbn [clock].
  destruct o; lia.
Qed.

(** a text field on the page, a secret configured *)
Definition demoStart : St DemoWorld :=
  setTotpSecret DemoWorld (Some "JBSWY3DPEHPK3PXP")
    (newHandler DemoWorld (mkDemo 0 true "text" None)).

(** C1 at the concrete world: four calls in a row, 6 s apart. *)
Lemma tryAutoTotp_throttle_witness :
  stepMonotone DemoWorld demoNow demoStep /\
  spaced (submissions
            (trace (snd (demoRunCalls [("a", None); ("b", None); ("c", None); ("d", None)]
                           demoStart)))).
Proof.
  split; [exact demoStep_monotone |].
  exact (proj2 (tryAutoTotp_throttle DemoWorld demoNow demoStep demoVisible
                  demoAttribute demoLabel demoHeadings demoNumber demoTotp
                  demoStep_monotone)
               [("a", None); ("b", None); ("c", None); ("d", None)]
               (mkDemo 0 true "text" None) (Some "JBSWY3DPEHPK3PXP")).
Defined.

(** the run of the witness does submit: three codes, 7240 ms apart *)
Example demo_submissions :
  submissions
    (trace (snd (demoRunCalls [("a", None); ("b", None); ("c", None); ("d", None)]
                   demoStart)))
  = [20490; 13250; 6010].
Proof. vm_compute. reflexivity. Qed.

(** the three submitting calls of the concrete run *)
Definition demoThree : list (Res bool) * St DemoWorld :=
  demoRunCalls [("a", None); ("b", None); ("c", None)] demoStart.


(** C3 at the concrete world: a password field named 'otc', labelled
    'Enter code', under a heading that asks for a security code. *)
Lemma isLikelyTotpInput_negative_signals_witness :
  isLikelyTotpInput DemoWorld demoVisible demoAttribute demoLabel demoHeadings
    demoNumber (mkDemo 0 true "password" None) otcInput otcInput
    (Some "Enter your security code")
  = false.
Proof.
  apply (isLikelyTotpInput_negative_signals DemoWorld demoVisible demoAttribute
           demoLabel demoHeadings demoNumber _ _ _ _ "password").
  left. split; [reflexivity | left; reflexivity].
Defined.

(** the same field with [type="text"] is taken for a code input *)
Example demo_text_field_is_likely :
  isLikelyTotpInput DemoWorld demoVisible demoAttribute demoLabel demoHeadings
    demoNumber (mkDemo 0 true "text" None) otcInput otcInput
    (Some "Enter your security code")
  = true.
Proof. vm_compute. reflexivity. Qed.

(** no secret; the operator answers after 1 s; the code field is gone *)
Definition demoPageChanged : St DemoWorld :=
  newHandler DemoWorld (mkDemo 0 false "text" (Some (1000, "123456"))).

(** no secret; the operator answers after 1 s; the code field is there *)
Definition demoAnswered : St DemoWorld :=
  newHandler DemoWorld (mkDemo 0 true "text" (Some (1000, " 123456 "))).

(** C4 as stated fails: the operator's code arrives within the deadline, and
    yet nothing is typed and nothing is submitted, because the page no longer
    shows the code field. *)
Lemma handleSMSOrTotp_answer_not_typed :
  answerInTime DemoWorld demoStep demoOperator demoPageChanged = Some "123456" /\
  fst (demoHandleSMSOrTotp demoPageChanged) = Ok tt /\
  List.existsb (fun o => match o with
                         | OpTypeTotp _ _ | OpPressEnter => true
                         | _ => false
                         end)
               (opsOf (trace (snd (demoHandleSMSOrTotp demoPageChanged))))
  = false.
Proof. vm_compute. repeat split. Qed.

(** C4 at the concrete world: the answer is trimmed, typed, and Enter pressed;
    the prompt and the timer are released. *)
Lemma handleSMSOrTotp_manual_entry_witness :
  rlOpen (snd (demoHandleSMSOrTotp demoAnswered)) = false /\
  timerPending (snd (demoHandleSMSOrTotp demoAnswered)) = false /\
  exists rest : list Op,
    opsOf (trace (snd (demoHandleSMSOrTotp demoAnswered)))
    = rest ++ [OpPressEnter; OpTypeTotp otcInput "123456"; OpRlClose; OpClearTimeout]
           ++ promptOps.
Proof.
  pose proof (handleSMSOrTotp_manual_entry DemoWorld demoNow demoStep demoVisible
                demoAttribute demoLabel demoHeadings demoNumber demoTotp
                demoEnterError demoOperator demoAnswered eq_refl) as H.
  cbv zeta in H. destruct H as (Hrl & Htimer & _).
  split; [exact Hrl |]. split; [exact Htimer |].
  exists [OpRlClose; OpLog LvLog "2FA code submitted"].
  vm_compute. reflexivity.
Defined.


(** *** The further properties, at the concrete world *)

Lemma setTotpSecret_trims_witness :
  currentTotpSecret (setTotpSecret DemoWorld (Some "   ") demoStart) = None
  /\ demoTryAutoTotp "2FA initial step" None (setTotpSecret DemoWorld (Some "   ") demoStart)
     = (Ok false, setTotpSecret DemoWorld (Some "   ") demoStart).
Proof.
  apply (setTotpSecret_trims DemoWorld demoNow demoStep demoVisible demoAttribute
           demoLabel demoHeadings demoNumber demoTotp (Some "   ") demoStart
           "2FA initial step").
  right. exists "   ". split; reflexivity.
Defined.

(** three codes submitted, then the caller's own work, then [reset] *)
Definition demoIdle : St DemoWorld :=
  after DemoWorld demoNow demoStep OpIdle (snd demoThree).

Lemma reset_rearms_witness :
  fst (demoTryAutoTotp "retry" None (reset DemoWorld demoIdle)) = Ok true
  /\ totpAttempts (snd (demoTryAutoTotp "retry" None (reset DemoWorld demoIdle))) = 1.
Proof.
  apply (reset_rearms DemoWorld demoNow demoStep demoVisible demoAttribute demoLabel
           demoHeadings demoNumber demoTotp "retry" None demoIdle
           (reset DemoWorld demoIdle) "JBSWY3DPEHPK3PXP" otcInput);
    vm_compute; solve [reflexivity | discriminate].
Defined.

(** a secret no code can be generated from *)
Definition demoBadTotp (w : DemoWorld) (secret : string) : Res string :=
  Throw "Invalid base32 character".

Definition demoBlind : Res bool * St DemoWorld :=
  tryAutoTotp DemoWorld demoNow demoStep demoVisible demoAttribute demoLabel
    demoHeadings demoNumber demoBadTotp "2FA initial step" None
    (after DemoWorld demoNow demoStep OpIdle demoStart).

Lemma tryAutoTotp_counts_failed_generation_witness :
  fst demoBlind = Ok true
  /\ totpAttempts (snd demoBlind) = 0 + 1
  /\ submissions (trace (snd demoBlind)) = []
  /\ exists warning,
       List.hd_error (opsOf (List.tl (trace (snd demoBlind)))) = Some (OpLog LvWarn warning).
Proof.
  apply (tryAutoTotp_counts_failed_generation DemoWorld demoNow demoStep demoVisible
           demoAttribute demoLabel demoHeadings demoNumber demoBadTotp
           "2FA initial step" None (after DemoWorld demoNow demoStep OpIdle demoStart)
           (after DemoWorld demoNow demoStep OpIdle demoStart)
           "JBSWY3DPEHPK3PXP" otcInput "Invalid base32 character");
    try (intros w); vm_compute; solve [reflexivity | discriminate].
Defined.

(** pressing Enter fails with a driver timeout *)
Definition demoEnterTimeout (w : DemoWorld) : option string :=
  Some "keyboard.press: timeout 30000ms exceeded".

Definition demoPressFails : Res unit * St DemoWorld :=
  handleSMSOrTotp DemoWorld demoNow demoStep demoVisible demoAttribute demoLabel
    demoHeadings demoNumber demoTotp demoEnterTimeout demoOperator demoAnswered.

Lemma handleSMSOrTotp_press_timeout_is_afk_witness :
  fst demoPressFails = Throw "keyboard.press: timeout 30000ms exceeded"
  /\ opsOf (trace (snd demoPressFails))
     = [OpRlClose; OpLog LvError afkMsg; OpPressEnter; OpTypeTotp otcInput (trim " 123456 ");
        OpRlClose; OpClearTimeout] ++ promptOps ++ opsOf (trace demoAnswered).
Proof.
  apply (handleSMSOrTotp_press_timeout_is_afk DemoWorld demoNow demoStep demoVisible
           demoAttribute demoLabel demoHeadings demoNumber demoTotp demoEnterTimeout
           demoOperator demoAnswered " 123456 "
           "keyboard.press: timeout 30000ms exceeded");
    vm_compute; reflexivity.
Defined.

Lemma isLikelyTotpInput_otc_selector_witness :
  isLikelyTotpInput DemoWorld demoVisible demoAttribute demoLabel demoHeadings
    demoNumber (mkDemo 0 true "text" None) otcInput otcInput None
  = true.
Proof.
  apply isLikelyTotpInput_otc_selector.
  - reflexivity.
  - reflexivity.
  - intros name. unfold demoAttribute. destruct (name =? "type")%string; now eexists.
  - intros t [= <-]. split; discriminate.
  - intros n [= <-]. repeat split; reflexivity.
Defined.

(** no push approval is pending *)
Definition demoFetch : M DemoWorld (option string) := fun s => (Ok None, s).
Definition demoApprove (number : string) : M DemoWorld unit := fun s => (Ok tt, s).

Definition demoHandle2FA : Res unit * St DemoWorld :=
  handle2FA DemoWorld demoNow demoStep demoVisible demoAttribute demoLabel
    demoHeadings demoNumber demoTotp demoEnterError demoOperator demoFetch demoApprove
    demoIdle.

Definition demoWaited : St DemoWorld :=
  after DemoWorld demoNow demoStep (OpWait 500)
    (after DemoWorld demoNow demoStep OpDismissAllMessages demoIdle).

Lemma handle2FA_swallows_give_up_witness :
  exists warning,
    demoHandle2FA
    = (Ok tt,
       after DemoWorld demoNow demoStep (OpLog LvWarn warning)
         (after DemoWorld demoNow demoStep (OpLog LvError errStillPresent) demoWaited)).
Proof.
  apply (handle2FA_swallows_give_up DemoWorld demoNow demoStep demoVisible demoAttribute
           demoLabel demoHeadings demoNumber demoTotp demoEnterError demoOperator
           demoFetch demoApprove demoIdle demoWaited "JBSWY3DPEHPK3PXP" otcInput);
    vm_compute; solve [reflexivity | discriminate].
Defined.

End TotpHandler.

(* ================================================================== *)
(** ** util/browser/HumanTyping.ts *)
(* ================================================================== *)
Module HumanTyping.
Import Js.

(** where a key press is issued: the main loop of [type], the burst inside
    it, or the '@' of [typeEmail] *)
Inductive Site : Type := Main | Burst | EmailAt.

(** what [HumanTyping] asks of the locator, and its own pauses *)
Inductive Op : Type :=
| OpWaitForVisible                               (* locator.waitFor({state:'visible'}) *)
| OpFocus                                        (* locator.focus() *)
| OpClear                                        (* locator.clear() *)
| OpPress (key : string)                         (* locator.press(key) *)
| OpKey (site : Site) (c : ascii) (delay : Q)    (* locator.pressSequentially(c, {delay}) *)
| OpDelay (ms : Z).                              (* this.delay(min, max), once drawn *)

(** [/[^a-zA-Z0-9@.]/.test(char)] *)
Definition isSpecialChar (c : ascii) : bool :=
  negb (isLower c || isUpper c || isDigit c
        || Ascii.eqb c "@"%char || Ascii.eqb c "."%char).

(** the claim's class of characters: letters and digits *)
Definition isAlphanumeric (c : ascii) : bool := isLower c || isUpper c || isDigit c.

(** [40 + Math.random() * 40], for the draw [r] *)
Definition baseDelay (r : Q) : Q := (40 + r * 40)%Q.

(** [Math.floor(baseDelay / speed)] *)
Definition charDelay (r speed : Q) : Z := Qfloor (baseDelay r / speed)%Q.

(** [isSpecialChar ? charDelay * 1.5 : charDelay] *)
Definition finalDelay (r speed : Q) (c : ascii) : Q :=
  if isSpecialChar c then (inject_Z (charDelay r speed) * (3 # 2))%Q
  else inject_Z (charDelay r speed).

(** [Math.floor(Math.random() * (maxMs - minMs) + minMs)], for the draw [r] *)
Definition delayMs (r : Q) (minMs maxMs : Z) : Z :=
  Qfloor (r * inject_Z (maxMs - minMs) + inject_Z minMs)%Q.

Section Typing.

(** the successive values of [Math.random()] *)
Variable rnd : nat -> Q.
(** whether [locator.clear()] rejects *)
Variable clearFails : bool.

(** a computation draws from [rnd] at index [k] on, and reports the next index *)
Definition delay (minMs maxMs : Z) (k : nat) : list Op * nat :=
  ([OpDelay (delayMs (rnd k) minMs maxMs)], S k).

(** the inner [for] of the burst: at most [n] more characters, from index [i] *)
Fixpoint burst (text : list ascii) (n i : nat) : list Op * nat :=
  match n with
  | O => ([], i)
  | S n' =>
      if (i + 1 <? List.length text)%nat then
        let (ops, i') := burst text n' (i + 1) in
        (OpKey Burst (List.nth (i + 1) text "000"%char) 10 :: ops, i')
      else ([], i)
  end.

(** the main [for] of [type], at index [i], drawing from index [k] on *)
Fixpoint typeLoop (fuel : nat) (text : list ascii) (speed : Q) (i k : nat)
  : list Op * nat :=
  match fuel with
  | O => ([], k)
  | S fuel' =>
      if (i <? List.length text)%nat then
        let char := List.nth i text "000"%char in
        let key := OpKey Main char (finalDelay (rnd k) speed char) in
        (* occasional micro-pause *)
        let '(pause, k1) :=
          if Qlt_le_dec (rnd (k + 1)) (1 # 10) then
            if (0 <? i)%nat then delay 100 300 (k + 2) else ([], (k + 2)%nat)
          else ([], (k + 2)%nat) in
        (* burst of the next 2-3 characters *)
        let '(burstOps, i1, k2) :=
          if Qlt_le_dec (rnd k1) (3 # 10) then
            if (i + 2 <? List.length text)%nat then
              let burstLength := Z.to_nat (Qfloor (rnd (k1 + 1) * 2)%Q + 2) in
              let (ops, i') := burst text burstLength i in
              (ops, i', (k1 + 2)%nat)
            else ([], i, (k1 + 1)%nat)
          else ([], i, (k1 + 1)%nat) in
        let (rest, k3) := typeLoop fuel' text speed (i1 + 1) k2 in
        (key :: pause ++ burstOps ++ rest, k3)
      else ([], k)
  end.

(** [HumanTyping.type(locator, text, speed)] *)
Definition type (text : string) (speed : Q) (k : nat) : list Op * nat :=
  let chars := list_ascii_of_string text in
  let prelude :=
    [OpWaitForVisible; OpFocus; OpClear]
    ++ (if clearFails then [OpPress "Control+a"; OpPress "Backspace"] else []) in
  let (d1, k1) := delay 50 150 k in
  let (keys, k2) := typeLoop (List.length chars) chars speed 0 k1 in
  let (d2, k3) := delay 100 300 k2 in
  (prelude ++ d1 ++ keys ++ d2, k3).

(** [HumanTyping.typePassword(locator, password)] *)
Definition typePassword (password : string) (k : nat) : list Op * nat :=
  type password 2 k.

(** [HumanTyping.typeTotp(locator, code)] *)
Definition typeTotp (code : string) (k : nat) : list Op * nat :=
  type code 3 k.

(** [HumanTyping.typeEmail(locator, email)] *)
Definition typeEmail (email : string) (k : nat) : list Op * nat :=
  let localPart := beforeChar "@" email in
  match afterChar "@" email with
  | Some domain =>
      if (localPart =? "")%string || (domain =? "")%string then type email (12 # 10) k
      else
        let (a, k1) := type localPart (13 # 10) k in
        let (b, k2) := delay 50 200 k1 in
        let (c, k3) := delay 50 150 k2 in
        let (d, k4) := type domain (14 # 10) k3 in
        (a ++ b ++ [OpKey EmailAt "@" 100] ++ c ++ d, k4)
  | None => type email (12 # 10) k
  end.

End Typing.

(** what the claim can be held to for one key press issued by the main loop:
    it is the delay the code computes from some draw [r] in [0, 1), whose
    quotient by the speed lies in [40/speed, 80/speed) *)
Definition mainKeyOk (speed : Q) (o : Op) : Prop :=
  match o with
  | OpKey Main c d =>
      exists r : Q,
        (0 <= r)%Q /\ (r < 1)%Q /\
        d = finalDelay r speed c /\
        (40 / speed <= baseDelay r / speed)%Q /\
        (baseDelay r / speed < 80 / speed)%Q /\
        (baseDelay r / speed - 1 < inject_Z (charDelay r speed))%Q /\
        (inject_Z (charDelay r speed) <= baseDelay r / speed)%Q
  | OpKey Burst c d => d = 10%Q
  | _ => True
  end.


(** the quotient [baseDelay / speed] and its floor *)
Lemma charDelay_range (r speed : Q) :
  (0 < speed)%Q -> (0 <= r)%Q -> (r < 1)%Q ->
  (40 / speed <= baseDelay r / speed)%Q /\
  (baseDelay r / speed < 80 / speed)%Q /\
  (baseDelay r / speed - 1 < inject_Z (charDelay r speed))%Q /\
  (inject_Z (charDelay r speed) <= baseDelay r / speed)%Q.
Proof.
  intros Hs H0 H1.
  assert (Hinv : (0 < / speed)%Q) by now apply Qinv_lt_0_compat.
  unfold charDelay, baseDelay, Qdiv.
  repeat split.
  - apply Qmult_le_r; [exact Hinv | lra].
  - apply Qmult_lt_r; [exact Hinv | lra].
  - pose proof (Qlt_floor ((40 + r * 40) * / speed)) as H.
    rewrite inject_Z_plus in H. change (inject_Z 1) with 1%Q in H. lra.
  - apply Qfloor_le.
Qed.

Lemma Forall_burst (speed : Q) (text : list ascii) (n i : nat) :
  List.Forall (mainKeyOk speed) (fst (burst text n i)).
Proof.
  revert i. induction n as [|n IH]; intros i; cbn [burst].
  - constructor.
  - destruct (i + 1 <? List.length text)%nat; [| constructor].
    specialize (IH (i + 1)%nat). destruct (burst text n (i + 1)) as [ops i'].
    cbn [fst] in *. constructor; [reflexivity | exact IH].
Qed.

Lemma Forall_typeLoop (rnd : nat -> Q) (speed : Q) (text : list ascii) :
  (0 < speed)%Q -> (forall j, (0 <= rnd j)%Q /\ (rnd j < 1)%Q) ->
  forall fuel i k, List.Forall (mainKeyOk speed) (fst (typeLoop rnd fuel text speed i k)).
Proof.
  intros Hs Hr. induction fuel as [|fuel IH]; intros i k; cbn [typeLoop].
  - constructor.
  - destruct (i <? List.length text)%nat; [| constructor].
    set (pause := if Qlt_le_dec (rnd (k + 1)%nat) (1 # 10) then _ else _).
    assert (Hp : List.Forall (mainKeyOk speed) (fst pause)).
    { subst pause. destruct (Qlt_le_dec _ _); [| constructor].
      destruct (0 <? i)%nat; repeat constructor. }
    destruct pause as [pauseOps k1]. cbn [fst] in Hp.
    set (b := if Qlt_le_dec (rnd k1) (3 # 10) then _ else _).
    assert (Hb : List.Forall (mainKeyOk speed) (fst (fst b))).
    { subst b. destruct (Qlt_le_dec _ _); [| constructor].
      destruct (i + 2 <? List.length text)%nat; [| constructor].
      match goal with |- context [burst text ?n i] =>
        pose proof (Forall_burst speed text n i) as H;
        destruct (burst text n i) as [ops i'] end.
      exact H. }
    destruct b as [[burstOps i1] k2]. cbn [fst] in Hb.
    specialize (IH (i1 + 1)%nat k2).
    destruct (typeLoop rnd fuel text speed (i1 + 1) k2) as [rest k3].
    cbn [fst] in *. constructor.
    + exists (rnd k). destruct (Hr k) as [H0 H1].
      split; [exact H0 |]. split; [exact H1 |]. split; [reflexivity |].
      now apply charDelay_range.
    + apply List.Forall_app. split; [exact Hp |].
      apply List.Forall_app. split; assumption.
Qed.


(** the loop never runs out of fuel: with the text's length as fuel it ends
    because the index has passed the end *)
Lemma burst_index (text : list ascii) (n i : nat) :
  (i <= snd (burst text n i))%nat.
Proof.
  revert i. induction n as [|n IH]; intros i; cbn [burst]; [cbn; lia |].
  destruct (i + 1 <? List.length text)%nat; [| cbn; lia].
  specialize (IH (i + 1)%nat). destruct (burst text n (i + 1)) as [ops i'].
  cbn [snd] in *. lia.
Qed.

Lemma typeLoop_fuel (rnd : nat -> Q) (speed : Q) (text : list ascii)
  (fuel fuel' i k : nat) :
  (List.length text - i <= fuel)%nat -> (List.length text - i <= fuel')%nat ->
  typeLoop rnd fuel text speed i k = typeLoop rnd fuel' text speed i k.
Proof.
  revert fuel' i k. induction fuel as [|fuel IH]; intros fuel' i k H H'.
  - destruct fuel' as [|fuel']; [reflexivity |]. cbn [typeLoop].
    destruct (Nat.ltb_spec i (List.length text)); [lia | reflexivity].
  - destruct fuel' as [|fuel'].
    + cbn [typeLoop]. destruct (Nat.ltb_spec i (List.length text)); [lia | reflexivity].
    + cbn [typeLoop]. destruct (Nat.ltb_spec i (List.length text)); [| reflexivity].
      destruct (if Qlt_le_dec (rnd (k + 1)%nat) (1 # 10) then _ else _) as [pauseOps k1].
      assert (Hi : forall b : list Op * nat * nat,
                 b = (if Qlt_le_dec (rnd k1) (3 # 10)
                      then if (i + 2 <? List.length text)%nat
                           then let burstLength :=
                                  Z.to_nat (Qfloor (rnd (k1 + 1)%nat * 2)%Q + 2) in
                                let (ops, i') := burst text burstLength i in
                                (ops, i', (k1 + 2)%nat)
                           else ([], i, (k1 + 1)%nat)
                      else ([], i, (k1 + 1)%nat)) ->
                 (i <= snd (fst b))%nat).
      { intros b ->. destruct (Qlt_le_dec _ _); [| cbn; lia].
        destruct (i + 2 <? List.length text)%nat; [| cbn; lia]. cbv zeta.
        match goal with |- context [burst text ?n i] =>
          pose proof (burst_index text n i);
          destruct (burst text n i) as [ops i'] end.
        cbn [fst snd] in *. lia. }
      specialize (Hi _ eq_refl).
      destruct (if Qlt_le_dec (rnd k1) (3 # 10) then _ else _) as [[burstOps i1] k2].
      cbn [fst snd] in Hi.
      rewrite (IH fuel' (i1 + 1)%nat k2); [reflexivity | lia | lia].
Qed.




(** *** What is typed *)

(** the characters of the key presses, in order *)
Fixpoint typed (ops : list Op) : list ascii :=
  match ops with
  | [] => []
  | OpKey _ c _ :: rest => c :: typed rest
  | _ :: rest => typed rest
  end.

(** the characters of the key presses since the field was last cleared *)
Fixpoint typedSinceClear (ops : list Op) (field : list ascii) : list ascii :=
  match ops with
  | [] => field
  | OpClear :: rest => typedSinceClear rest []
  | OpKey _ c _ :: rest => typedSinceClear rest (field ++ [c])
  | _ :: rest => typedSinceClear rest field
  end.

Lemma typed_app (a b : list Op) : typed (a ++ b) = typed a ++ typed b.
Proof.
  induction a as [|o a IH]; [reflexivity |].
  destruct o; cbn [List.app typed]; now rewrite ?IH.
Qed.

Lemma typedSinceClear_app (a b : list Op) (field : list ascii) :
  typedSinceClear (a ++ b) field = typedSinceClear b (typedSinceClear a field).
Proof.
  revert field. induction a as [|o a IH]; intros field; [reflexivity |].
  destruct o; cbn [List.app typedSinceClear]; apply IH.
Qed.

Lemma typedSinceClear_no_clear (ops : list Op) (field : list ascii) :
  Forall (fun o => o <> OpClear) ops ->
  typedSinceClear ops field = field ++ typed ops.
Proof.
  intros H. revert field. induction H as [|o ops Ho _ IH]; intros field.
  - cbn. now rewrite List.app_nil_r.
  - destruct o; cbn [typedSinceClear typed]; rewrite ?IH, <- ?List.app_assoc;
      try reflexivity. contradiction.
Qed.

Lemma skipn_cons_nth (d : ascii) (l : list ascii) (i : nat) :
  (i < List.length l)%nat -> List.skipn i l = List.nth i l d :: List.skipn (i + 1) l.
Proof.
  revert i. induction l as [|c l IH]; intros i Hi; [cbn in Hi; lia |].
  destruct i as [|i]; [reflexivity |]. cbn [List.skipn List.nth Nat.add].
  apply IH. cbn in Hi. lia.
Qed.

(** the burst types the characters after index [i], up to where it stops *)
Lemma burst_typed (text : list ascii) (n i : nat) :
  (i < List.length text)%nat ->
  let (ops, i') := burst text n i in
  (i <= i')%nat /\ (i' < List.length text)%nat
  /\ typed ops ++ List.skipn (i' + 1) text = List.skipn (i + 1) text
  /\ Forall (fun o => o <> OpClear) ops.
Proof.
  revert i. induction n as [|n IH]; intros i Hi; cbn [burst].
  - repeat split; [lia | exact Hi | constructor].
  - destruct (Nat.ltb_spec (i + 1) (List.length text)) as [Hlt | Hge].
    + specialize (IH (i + 1)%nat Hlt). destruct (burst text n (i + 1)) as [ops i'].
      destruct IH as (H1 & H2 & H3 & H4). repeat split; [lia | exact H2 | |].
      * cbn [typed List.app]. rewrite H3.
        symmetry. now apply skipn_cons_nth.
      * constructor; [discriminate | exact H4].
    + repeat split; [lia | exact Hi | constructor].
Qed.

(** the main loop, with fuel to spare, types the text from index [i] on *)
Lemma typeLoop_typed (rnd : nat -> Q) (speed : Q) (text : list ascii) :
  forall fuel i k,
    (List.length text - i <= fuel)%nat ->
    typed (fst (typeLoop rnd fuel text speed i k)) = List.skipn i text
    /\ Forall (fun o => o <> OpClear) (fst (typeLoop rnd fuel text speed i k)).
Proof.
  induction fuel as [|fuel IH]; intros i k Hfuel; cbn [typeLoop].
  - split; [| constructor]. cbn. symmetry. apply List.skipn_all2. lia.
  - destruct (Nat.ltb_spec i (List.length text)) as [Hi | Hi].
    2:{ split; [| constructor]. cbn. symmetry. now apply List.skipn_all2. }
    set (pause := if Qlt_le_dec (rnd (k + 1)%nat) (1 # 10) then _ else _).
    assert (Hp : typed (fst pause) = [] /\ Forall (fun o => o <> OpClear) (fst pause)).
    { subst pause. destruct (Qlt_le_dec _ _); [| split; [reflexivity | constructor]].
      destruct (0 <? i)%nat; split; try reflexivity; repeat constructor; discriminate. }
    destruct pause as [pauseOps k1]. cbn [fst] in Hp. destruct Hp as [Hp1 Hp2].
    set (b := if Qlt_le_dec (rnd k1) (3 # 10) then _ else _).
    assert (Hb : (i <= snd (fst b))%nat /\ (snd (fst b) < List.length text)%nat
                 /\ typed (fst (fst b)) ++ List.skipn (snd (fst b) + 1) text
                    = List.skipn (i + 1) text
                 /\ Forall (fun o => o <> OpClear) (fst (fst b))).
    { subst b. destruct (Qlt_le_dec _ _).
      2:{ cbn [fst snd typed List.app]. repeat split; [lia | exact Hi | constructor]. }
      destruct (i + 2 <? List.length text)%nat.
      2:{ cbn [fst snd typed List.app]. repeat split; [lia | exact Hi | constructor]. }
      cbv zeta.
      match goal with |- context [burst text ?n i] =>
        pose proof (burst_typed text n i Hi) as H;
        destruct (burst text n i) as [ops i'] end.
      exact H. }
    destruct b as [[burstOps i1] k2]. cbn [fst snd] in Hb.
    destruct Hb as (Hb1 & Hb2 & Hb3 & Hb4).
    destruct (IH (i1 + 1)%nat k2 ltac:(lia)) as [IH1 IH2].
    destruct (typeLoop rnd fuel text speed (i1 + 1) k2) as [rest k3].
    cbn [fst] in *. split.
    + cbn [typed]. rewrite !typed_app, Hp1, IH1. cbn [List.app]. rewrite Hb3.
      symmetry. now apply skipn_cons_nth.
    + constructor; [discriminate |].
      apply List.Forall_app. split; [exact Hp2 |].
      apply List.Forall_app. now split.
Qed.

(** X8.  [type] clears the field and then presses one key for each
    character of the text, in order, each exactly once, whatever the draws
    make of pauses and bursts: whatever was in the field, the keys pressed
    since the field was cleared spell the text. *)
Theorem type_types_text (rnd : nat -> Q) (clearFails : bool) (text : string)
  (speed : Q) (k : nat) (field : list ascii) :
  typed (fst (type rnd clearFails text speed k)) = list_ascii_of_string text
  /\ typedSinceClear (fst (type rnd clearFails text speed k)) field
     = list_ascii_of_string text.
Proof.
  unfold type, delay.
  destruct (typeLoop_typed rnd speed (list_ascii_of_string text)
              (List.length (list_ascii_of_string text)) 0%nat (S k) ltac:(lia))
    as [Ht Hc].
  destruct (typeLoop _ _ _ _ _ _) as [keys k2]. cbn [fst] in *.
  cbn [List.skipn] in Ht. split.
  - rewrite !typed_app, Ht. destruct clearFails; cbn; now rewrite List.app_nil_r.
  - rewrite !typedSinceClear_app.
    destruct clearFails; cbn [typedSinceClear];
      now rewrite (typedSinceClear_no_clear keys [] Hc), Ht.
Qed.

(** X9.  For an address with a non-empty local part and a non-empty
    domain, [typeEmail] presses the keys of the local part, '@' and the
    domain (the text between the first and the second '@', so what follows a
    second '@' is never typed).  The second call of [type] clears the field
    again before it types the domain: the keys pressed since the field was
    last cleared spell the domain alone. *)
Theorem typeEmail_clears_local_part (rnd : nat -> Q) (clearFails : bool)
  (email domain : string) (k : nat) (field : list ascii) :
  afterChar "@" email = Some domain ->
  beforeChar "@" email <> "" -> domain <> "" ->
  typed (fst (typeEmail rnd clearFails email k))
  = list_ascii_of_string (beforeChar "@" email) ++ "@"%char :: list_ascii_of_string domain
  /\ typedSinceClear (fst (typeEmail rnd clearFails email k)) field
     = list_ascii_of_string domain.
Proof.
  intros Hafter Hlocal Hdomain. unfold typeEmail. rewrite Hafter.
  apply String.eqb_neq in Hlocal, Hdomain. rewrite Hlocal, Hdomain. cbn [orb].
  pose proof (type_types_text rnd clearFails (beforeChar "@" email) (13 # 10) k) as Ha.
  destruct (type rnd clearFails (beforeChar "@" email) (13 # 10) k) as [a k1].
  unfold delay.
  pose proof (fun f => type_types_text rnd clearFails domain (14 # 10) (S (S k1)) f) as Hd.
  destruct (type rnd clearFails domain (14 # 10) (S (S k1))) as [d k4].
  cbn [fst] in *. split.
  - rewrite !typed_app. destruct (Ha []) as [-> _]. destruct (Hd []) as [-> _].
    reflexivity.
  - rewrite !typedSinceClear_app. now destruct (Hd (typedSinceClear [OpDelay (delayMs (rnd (S k1)) 50 150)]
        (typedSinceClear [OpKey EmailAt "@" 100]
           (typedSinceClear [OpDelay (delayMs (rnd k1) 50 200)]
              (typedSinceClear a field))))) as [_ ->].
Qed.

Lemma typeEmail_clears_local_part_witness :
  typed (fst (typeEmail (fun _ => (1 # 2)%Q) false "joe@outlook.com@x" 0))
  = list_ascii_of_string "joe@outlook.com"
  /\ typedSinceClear (fst (typeEmail (fun _ => (1 # 2)%Q) false "joe@outlook.com@x" 0)) []
     = list_ascii_of_string "outlook.com".
Proof.
  apply (typeEmail_clears_local_part (fun _ => (1 # 2)%Q) false "joe@outlook.com@x"
           "outlook.com" 0 []).
  - reflexivity.
  - discriminate.
  - discriminate.
Defined.



End HumanTyping.

(* ================================================================== *)
(** ** account-creation/AccountCreator.ts *)
(* ================================================================== *)
Module AccountCreator.
Import Js.

(** *** [retryOperation] *)

(** what [retryOperation] does, in order *)
Inductive RetryOp : Type :=
| OpInvoke (attempt : Z)                       (* await operation() *)
| OpLogRetry (attempt maxRetries ms : Z)       (* log(`Retry a/max after ms`) *)
| OpWaitForTimeout (ms : Z)                    (* page.waitForTimeout(ms) *)
| OpMicroGestures (attempt : Z).               (* human.microGestures(...) *)

Section Retry.

Variable T : Type.
(** the outcome of the [attempt]-th invocation of [operation] *)
Variable operation : Z -> Res T.
(** the three draws of [Math.random()] made after the [attempt]-th failure *)
Variable rndBase rndVariance rndGesture : Z -> Q.

Variable maxRetries : Z.
Variable initialDelayMs : Q.
Variable enableMicroGestures : bool.

(** [baseDelay + (attempt * 800) + variance] *)
Definition humanDelay (attempt : Z) : Q :=
  let baseDelay := (initialDelayMs + rndBase attempt * 500)%Q in
  let variance := (rndVariance attempt * 1000 - 500)%Q in
  (baseDelay + inject_Z (attempt * 800) + variance)%Q.

(** the argument of [waitForTimeout]: [Math.floor(humanDelay)] *)
Definition sleepMs (attempt : Z) : Z := Qfloor (humanDelay attempt).

(** the [for] loop from [attempt] on, with [fuel] iterations left before
    [attempt <= maxRetries] fails *)
Fixpoint retryLoop (fuel : nat) (attempt : Z) : list RetryOp * option T :=
  match fuel with
  | O => ([], None)
  | S fuel' =>
      match operation attempt with
      | Ok result => ([OpInvoke attempt], Some result)
      | Throw _ =>
          if attempt <? maxRetries then
            let gesture :=
              if enableMicroGestures then
                if Qlt_le_dec (rndGesture attempt) (4 # 10)
                then [OpMicroGestures attempt] else []
              else [] in
            let (ops, r) := retryLoop fuel' (attempt + 1) in
            ([OpInvoke attempt; OpLogRetry attempt maxRetries (sleepMs attempt);
              OpWaitForTimeout (sleepMs attempt)] ++ gesture ++ ops, r)
          else ([OpInvoke attempt], None)
      end
  end.

(** [retryOperation(operation, context, maxRetries, initialDelayMs, enableMicroGestures)] *)
Definition retryOperation : list RetryOp * option T :=
  retryLoop (Z.to_nat maxRetries) 1.

(** the attempts made, in order *)
Definition invocations (ops : list RetryOp) : list Z :=
  List.flat_map (fun o => match o with OpInvoke a => [a] | _ => [] end) ops.

(** the sleeps made, in order *)
Definition sleeps (ops : list RetryOp) : list Z :=
  List.flat_map (fun o => match o with OpWaitForTimeout ms => [ms] | _ => [] end) ops.

Definition throws (r : Res T) : Prop :=
  match r with
  | Throw _ => True
  | Ok _ => False
  end.

(** the attempts [a, a+1, ..., a+n-1] *)
Fixpoint attemptsFrom (a : Z) (n : nat) : list Z :=
  match n with
  | O => []
  | S n' => a :: attemptsFrom (a + 1) n'
  end.

Lemma invocations_app (a b : list RetryOp) :
  invocations (a ++ b) = invocations a ++ invocations b.
Proof. apply List.flat_map_app. Qed.

Lemma sleeps_app (a b : list RetryOp) : sleeps (a ++ b) = sleeps a ++ sleeps b.
Proof. apply List.flat_map_app. Qed.

Lemma retryLoop_spec (fuel : nat) (a : Z) :
  fuel = Z.to_nat (maxRetries - a + 1) ->
  exists m : nat,
    (m <= fuel)%nat /\ (0 < fuel -> 0 < m)%nat /\
    invocations (fst (retryLoop fuel a)) = attemptsFrom a m /\
    sleeps (fst (retryLoop fuel a)) = List.map sleepMs (attemptsFrom a (m - 1)) /\
    (forall j, In j (attemptsFrom a (m - 1)) -> throws (operation j)) /\
    match snd (retryLoop fuel a) with
    | Some v => (1 <= m)%nat /\ operation (a + Z.of_nat m - 1) = Ok v
    | None => m = fuel /\ forall j, In j (attemptsFrom a m) -> throws (operation j)
    end.
Proof.
  revert a. induction fuel as [|fuel IH]; intros a Hfuel.
  - exists 0%nat. cbn. repeat split; try lia; try easy.
  - cbn [retryLoop]. destruct (operation a) as [v|e] eqn:Eop.
    + exists 1%nat. cbn. repeat split; try lia; try easy.
      rewrite <- Eop. f_equal. lia.
    + destruct (Z.ltb_spec a maxRetries) as [Hlt|Hge].
      * destruct (IH (a + 1)) as (m & Hm & Hpos & Hinv & Hsl & Hthr & Hres); [lia |].
        destruct (retryLoop fuel (a + 1)) as [ops r]. cbn [fst snd] in *.
        assert (0 < m)%nat by (apply Hpos; lia).
        exists (S m). split; [lia |]. split; [lia |]. split; [| split; [| split]].
        -- cbn [List.app invocations List.flat_map attemptsFrom].
           fold (invocations ((if enableMicroGestures
                               then if Qlt_le_dec (rndGesture a) (4 # 10)
                                    then [OpMicroGestures a] else []
                               else []) ++ ops)).
           rewrite invocations_app, Hinv.
           destruct enableMicroGestures; [destruct (Qlt_le_dec _ _) |]; reflexivity.
        -- cbn [List.app sleeps List.flat_map].
           fold (sleeps ((if enableMicroGestures
                          then if Qlt_le_dec (rndGesture a) (4 # 10)
                               then [OpMicroGestures a] else []
                          else []) ++ ops)).
           rewrite sleeps_app, Hsl.
           replace (S m - 1)%nat with (S (m - 1)) by lia.
           cbn [attemptsFrom List.map].
           destruct enableMicroGestures; [destruct (Qlt_le_dec _ _) |]; reflexivity.
        -- replace (S m - 1)%nat with (S (m - 1)) by lia. cbn [attemptsFrom].
           intros j [<- | Hj]; [now rewrite Eop | now apply Hthr].
        -- destruct r as [v|].
           ++ destruct Hres as [_ Hv]. split; [lia |]. rewrite <- Hv. f_equal. lia.
           ++ destruct Hres as [-> Hall]. split; [reflexivity |].
              cbn [attemptsFrom]. intros j [<- | Hj]; [now rewrite Eop | now apply Hall].
      * exists 1%nat. cbn. assert (fuel = 0%nat) by lia. subst fuel.
        split; [lia |]. split; [lia |]. split; [reflexivity |].
        split; [reflexivity |]. split; [intros j [] |]. split; [reflexivity |].
        intros j [<- | []]. now rewrite Eop.
Qed.

Lemma In_attemptsFrom (a j : Z) (n : nat) :
  In j (attemptsFrom a n) <-> a <= j < a + Z.of_nat n.
Proof.
  revert a. induction n as [|n IH]; intros a; cbn [attemptsFrom In].
  - lia.
  - rewrite IH. lia.
Qed.

(** the sleep grows by 800 ms per attempt, give or take the jitter *)
Lemma sleepMs_bounds (a : Z) :
  (0 <= rndBase a)%Q /\ (rndBase a < 1)%Q ->
  (0 <= rndVariance a)%Q /\ (rndVariance a < 1)%Q ->
  (initialDelayMs + inject_Z (a * 800) - 501 < inject_Z (sleepMs a))%Q /\
  (inject_Z (sleepMs a) < initialDelayMs + inject_Z (a * 800) + 1000)%Q.
Proof.
  intros [B0 B1] [V0 V1]. unfold sleepMs.
  pose proof (Qfloor_le (humanDelay a)) as Hle.
  pose proof (Qlt_floor (humanDelay a)) as Hlt.
  rewrite inject_Z_plus in Hlt. change (inject_Z 1) with 1%Q in Hlt.
  unfold humanDelay in *. cbv zeta in *. split; lra.
Qed.

(** C5, as the code has it.  [retryOperation] makes the attempts 1, 2, ..., m
    in order, with [m <= maxRetries].  After each of the attempts
    1, ..., m-1, which all threw, it sleeps
    [floor(initialDelayMs + 500 r1 + attempt * 800 + (1000 r2 - 500))] ms,
    for the draws [r1], [r2] of that attempt: a schedule linear in the attempt.
    It returns the result of attempt [m] when that succeeded, and then makes
    no further attempt; it returns null when all [maxRetries] attempts threw. *)
Theorem retryOperation_schedule :
  exists m : nat,
    (m <= Z.to_nat maxRetries)%nat /\
    invocations (fst retryOperation) = attemptsFrom 1 m /\
    sleeps (fst retryOperation) = List.map sleepMs (attemptsFrom 1 (m - 1)) /\
    (forall a, 1 <= a < Z.of_nat m -> throws (operation a)) /\
    match snd retryOperation with
    | Some v => (1 <= m)%nat /\ operation (Z.of_nat m) = Ok v
    | None => m = Z.to_nat maxRetries /\
              forall a, 1 <= a <= maxRetries -> throws (operation a)
    end /\
    ((forall a, 1 <= a <= maxRetries -> throws (operation a)) ->
     snd retryOperation = None).
Proof.
  unfold retryOperation.
  destruct (retryLoop_spec (Z.to_nat maxRetries) 1) as (m & Hm & _ & Hinv & Hsl & Hthr & Hres);
    [f_equal; lia |].
  exists m. split; [exact Hm |]. split; [exact Hinv |]. split; [exact Hsl |].
  split; [| split].
  - intros a Ha. apply Hthr. apply In_attemptsFrom. lia.
  - destruct (snd (retryLoop (Z.to_nat maxRetries) 1)) as [v|].
    + destruct Hres as [H1 Hv]. split; [exact H1 |]. rewrite <- Hv. f_equal. lia.
    + destruct Hres as [-> Hall]. split; [reflexivity |].
      intros a Ha. apply Hall. apply In_attemptsFrom. lia.
  - intros Hall. destruct (snd (retryLoop (Z.to_nat maxRetries) 1)) as [v|];
      [| reflexivity].
    destruct Hres as [H1 Hv]. specialize (Hall (1 + Z.of_nat m - 1)).
    rewrite Hv in Hall. exfalso. apply Hall. lia.
Qed.


(** the micro-gestures made *)
Definition gestures (ops : list RetryOp) : list Z :=
  List.flat_map (fun o => match o with OpMicroGestures a => [a] | _ => [] end) ops.

(** the attempt threw, and its draw allows a gesture *)
Definition gestureDue (a : Z) : bool :=
  match operation a with
  | Throw _ => if Qlt_le_dec (rndGesture a) (4 # 10) then true else false
  | Ok _ => false
  end.

Lemma retryLoop_gestures (fuel : nat) (a : Z) :
  (enableMicroGestures = false -> gestures (fst (retryLoop fuel a)) = [])
  /\ incl (gestures (fst (retryLoop fuel a)))
          (List.filter gestureDue (invocations (fst (retryLoop fuel a))))
  /\ (List.length (gestures (fst (retryLoop fuel a)))
      <= List.length (sleeps (fst (retryLoop fuel a))))%nat.
Proof.
  revert a. induction fuel as [|fuel IH]; intros a; cbn [retryLoop].
  - cbn. repeat split; [intros x [] | lia].
  - destruct (operation a) as [v|e] eqn:Eop; [cbn; repeat split; [intros x [] | lia] |].
    destruct (a <? maxRetries); [| cbn; repeat split; [intros x [] | lia]].
    destruct (IH (a + 1)) as (IH1 & IH2 & IH3).
    destruct (retryLoop fuel (a + 1)) as [ops r]. cbn [fst] in *.
    unfold gestures, sleeps, invocations in *.
    cbn [List.app List.flat_map]. rewrite !List.flat_map_app. cbn [List.app].
    assert (Hdue : gestureDue a = if Qlt_le_dec (rndGesture a) (4 # 10) then true else false)
      by (unfold gestureDue; now rewrite Eop).
    cbn [List.filter]. rewrite Hdue.
    destruct enableMicroGestures.
    + split; [discriminate |].
      destruct (Qlt_le_dec (rndGesture a) (4 # 10)); cbn [List.flat_map List.app List.length].
      * split; [| lia]. intros x [<- | Hx]; [now left | right; now apply IH2].
      * split; [exact IH2 | lia].
    + cbn [List.flat_map List.app List.length]. split; [exact IH1 |]. split; [| lia].
      destruct (Qlt_le_dec (rndGesture a) (4 # 10));
        [intros x Hx; right; now apply IH2 | exact IH2].
Qed.

(** X11.  [retryOperation] makes a micro-gesture only after an attempt
    that threw and whose draw is below 0.4, at most one per sleep, and none
    at all when micro-gestures are disabled. *)
Theorem retryOperation_gestures :
  (enableMicroGestures = false -> gestures (fst retryOperation) = [])
  /\ (forall a, In a (gestures (fst retryOperation)) ->
      In a (invocations (fst retryOperation)) /\ throws (operation a)
      /\ (rndGesture a < 4 # 10)%Q)
  /\ (List.length (gestures (fst retryOperation))
      <= List.length (sleeps (fst retryOperation)))%nat.
Proof.
  unfold retryOperation.
  destruct (retryLoop_gestures (Z.to_nat maxRetries) 1) as (H1 & H2 & H3).
  split; [exact H1 |]. split; [| exact H3].
  intros a Ha. apply H2 in Ha. apply List.filter_In in Ha as [Hin Hdue].
  split; [exact Hin |]. unfold gestureDue in Hdue. unfold throws.
  destruct (operation a); [discriminate |].
  destruct (Qlt_le_dec (rndGesture a) (4 # 10)) as [Hlt|]; [| discriminate].
  split; [exact I | exact Hlt].
Qed.

Lemma length_attemptsFrom (a : Z) (n : nat) : List.length (attemptsFrom a n) = n.
Proof. revert a. induction n as [|n IH]; intros a; cbn; [| rewrite IH]; reflexivity. Qed.


End Retry.

Arguments throws {T} r.

(** C5 as stated fails: the sleep is the floor of the stated sum.  Two
    attempts, base delay 1000 ms, draws 0.001 and 0.5: the sum is 1800.5 ms
    and the sleep 1800 ms. *)
Lemma retryOperation_sleep_is_floored :
  sleeps (fst (retryOperation unit (fun _ => Throw "not verified")
                 (fun _ => (1 # 1000)%Q) (fun _ => (1 # 2)%Q) (fun _ => (1 # 2)%Q)
                 2 1000 true))
  = [1800] /\
  (humanDelay (fun _ => (1 # 1000)%Q) (fun _ => (1 # 2)%Q) 1000 1 == 3601 # 2)%Q /\
  (inject_Z 1800 < humanDelay (fun _ => (1 # 1000)%Q) (fun _ => (1 # 2)%Q) 1000 1)%Q.
Proof. repeat split. Qed.

(** a run of the model: the third attempt succeeds *)
Example retryOperation_third_attempt :
  retryOperation bool (fun a => if a =? 3 then Ok true else Throw "not verified")
    (fun _ => 0%Q) (fun _ => (1 # 2)%Q) (fun _ => (1 # 2)%Q) 3 1000 false
  = ([OpInvoke 1; OpLogRetry 1 3 1800; OpWaitForTimeout 1800;
      OpInvoke 2; OpLogRetry 2 3 2600; OpWaitForTimeout 2600;
      OpInvoke 3], Some true).
Proof. reflexivity. Qed.

(** *** The email step: [handleEmailErrors], [handleReservedDomain], [handleEmailTaken] *)

Inductive Level : Type := LvLog | LvWarn | LvError.

(** what the step asks of the page and the console *)
Inductive Op : Type :=
| OpHumanDelay (minMs maxMs : Z)              (* this.humanDelay(min, max) *)
| OpLog (lvl : Level) (msg : string)          (* log(false, 'CREATOR', msg, lvl) *)
| OpFillEmail (email context : string)        (* retryOperation(humanType + verify, context, 3, 1000) *)
| OpFluentUIClick (context : string)          (* this.fluentUIClick(locator, context) *)
| OpClickNext                                 (* nextBtn.click() *)
| OpWaitForPageStable (context : string) (ms : Z).

(** how a call ends: with a result, or at [await new Promise(() => { })],
    which never settles (the browser is left open).  [OutOfFuel] is the
    model's own: the recursion ran longer than the fuel allows. *)
Inductive Outcome : Type :=
| Returned (success : bool) (email : option string)
| HeldOpen
| OutOfFuel.

Definition MAX_EMAIL_RETRIES : Z := 5.

(** decimal digits of a small number, for the template literals *)
Definition showZ (n : Z) : string :=
  DecimalString.NilZero.string_of_int (Z.to_int n).

(** [errorText.toLowerCase().includes(w)] for a word with accents: the
    lowering of the model leaves accented capitals alone, so they are listed *)
Definition mentionsReserved (errorText : string) : bool :=
  testAny ["reserved"; "réservé"; "rÉservé"; "réservÉ"; "rÉservÉ"] (toLowerCase errorText).
Definition mentionsTaken (errorText : string) : bool :=
  testAny ["taken"; "pris"; "already"; "déjà"; "dÉjà"; "déjÀ"; "dÉjÀ"]
          (toLowerCase errorText).
Definition isPasswordInfo (errorText : string) : bool :=
  includes (toLowerCase errorText) "password"
  && includes (toLowerCase errorText) "characters".

Section EmailStep.

(** the signup page and the data generator *)
Variable W : Type.
Variable step : Op -> W -> W.
(** [page.locator('div[id*="Error"], div[role="alert"]').first().isVisible().catch(() => false)] *)
Variable errorVisible : W -> bool.
(** [await errorLocator.textContent().catch(() => '') || ''] *)
Variable errorText : W -> string.
(** whether the [retryOperation] that types and verifies [email] returns true *)
Variable fillVerified : W -> string -> bool.
(** whether one of the suggestion containers is visible *)
Variable suggestionsVisible : W -> bool.
(** the [textContent] of the suggestion buttons ('' when it cannot be read) *)
Variable suggestionButtons : W -> list string.
(** [emailInput.inputValue().catch(() => '')] *)
Variable emailInputValue : W -> string.
(** [nextBtn.isEnabled().catch(() => false)] *)
Variable nextEnabled : W -> bool.
(** [this.dataGenerator.generateEmail()] *)
Variable generateEmail : W -> string.

Record St : Type := mkSt { world : W; trace : list Op }.

Definition M : Type := St -> Outcome * St.

(** perform one operation and go on with [k] *)
Definition op (o : Op) (k : M) : M := fun s =>
  k (mkSt (step o (world s)) (o :: trace s)).

Definition log (lvl : Level) (msg : string) (k : M) : M := op (OpLog lvl msg) k.

Definition ret (success : bool) (email : option string) : M := fun s =>
  (Returned success email, s).

(** [await new Promise(() => { })] *)
Definition holdOpen : M := fun s => (HeldOpen, s).

Definition browserLeftOpen : string := "⚠️  Browser left open. Press Ctrl+C to exit.".

(** [handleReservedDomain(originalEmail, retryCount)], with the recursive
    call to [handleEmailErrors] as [again] *)
Definition handleReservedDomain (again : string -> Z -> M)
  (originalEmail : string) (retryCount : Z) : M :=
  log LvWarn ("Domain blocked: " +:+ default "undefined" (afterChar "@" originalEmail)) (
  let username := beforeChar "@" originalEmail in
  let newEmail := username +:+ "@outlook.com" in
  log LvLog ("Retrying with: " +:+ newEmail) (fun s =>
  let retryFillSuccess := fillVerified (world s) newEmail in
  op (OpFillEmail newEmail "EMAIL_RETRY_FILL") (
    if negb retryFillSuccess then
      log LvError "Failed to fill retry email" (ret false None)
    else
      op (OpFluentUIClick "RETRY_EMAIL_NEXT") (
      op (OpHumanDelay 2000 3000) (
      op (OpWaitForPageStable "RETRY_EMAIL" 15000) (
      again newEmail (retryCount + 1))))) s)).

(** [handleEmailTaken(retryCount)] *)
Definition handleEmailTaken (again : string -> Z -> M) (retryCount : Z) : M :=
  log LvLog "Email taken, looking for Microsoft suggestions..." (
  op (OpHumanDelay 1000 1500) (
  op (OpWaitForPageStable "EMAIL_SUGGESTIONS" 5000) (fun s =>
  if negb (suggestionsVisible (world s)) then
    (log LvWarn "No suggestions found from Microsoft" (
     log LvLog "🔄 Generating a new email automatically..." (fun s =>
     let newEmail := generateEmail (world s) in
     log LvLog ("Generated new email: " +:+ newEmail) (fun s =>
     let retryFillSuccess := fillVerified (world s) newEmail in
     op (OpFillEmail newEmail "EMAIL_AUTO_RETRY_FILL") (
       if negb retryFillSuccess then
         log LvError "Failed to fill new email after retries" (ret false None)
       else
         op OpClickNext (
         op (OpHumanDelay 2000 3000) (
         op (OpWaitForPageStable "AUTO_RETRY_EMAIL" 15000) (
         again newEmail (retryCount + 1))))) s) s))) s
  else
    let buttons := suggestionButtons (world s) in
    log LvLog ("Found " +:+ showZ (Z.of_nat (List.length buttons)) +:+ " suggestion buttons") (
    match buttons with
    | [] =>
        log LvError "Suggestions container found but no buttons inside" (
        log LvWarn browserLeftOpen holdOpen)
    | suggestedEmail :: _ =>
        let trimmed := trim suggestedEmail in
        let needsDomain := negb (trimmed =? "")%string && negb (includes trimmed "@") in
        let cleanEmail := if needsDomain then trimmed +:+ "@outlook.com" else trimmed in
        (if needsDomain
         then log LvLog ("Suggestion is username only, adding domain: " +:+ cleanEmail)
         else fun k => k) (
        if (cleanEmail =? "")%string then
          log LvError "Could not extract email from suggestion button" (
          log LvWarn browserLeftOpen holdOpen)
        else
          log LvLog ("Selecting suggestion: " +:+ cleanEmail) (
          op (OpFluentUIClick "EMAIL_SUGGESTION") (
          op (OpHumanDelay 500 1000) (fun s =>
          let inputValue := emailInputValue (world s) in
          (if negb (inputValue =? "")%string
           then log LvLog ("✅ Suggestion applied: " +:+ inputValue)
           else fun k => k) (fun s =>
          let done := log LvLog ("✅ Using suggested email: " +:+ cleanEmail)
                          (ret true (Some cleanEmail)) in
          if errorVisible (world s) then
            log LvWarn "Error still visible after clicking suggestion" (fun s =>
            if nextEnabled (world s) then
              log LvLog "Clicking Next to submit suggestion" (
              op OpClickNext (
              op (OpHumanDelay 2000 3000) (fun s =>
              if errorVisible (world s) then
                log LvError "Failed to resolve error" (
                log LvWarn browserLeftOpen holdOpen) s
              else done s))) s
            else done s) s
          else
            log LvLog "Suggestion accepted, clicking Next" (
            op OpClickNext (
            op (OpHumanDelay 2000 3000) done)) s) s))))
    end) s))).

(** [handleEmailErrors(originalEmail, retryCount)]; [fuel] bounds the depth
    of the recursion through the two handlers *)
Fixpoint handleEmailErrors (fuel : nat) (originalEmail : string) (retryCount : Z) : M :=
  match fuel with
  | O => fun s => (OutOfFuel, s)
  | S fuel' =>
      op (OpHumanDelay 1000 1500) (
      if retryCount >=? MAX_EMAIL_RETRIES then
        log LvError ("❌ Max email retries (" +:+ showZ MAX_EMAIL_RETRIES
                     +:+ ") reached - giving up") (
        log LvWarn browserLeftOpen holdOpen)
      else fun s =>
        if negb (errorVisible (world s)) then
          log LvLog ("✅ Email accepted: " +:+ originalEmail)
              (ret true (Some originalEmail)) s
        else
          let text := errorText (world s) in
          if isPasswordInfo text then ret true (Some originalEmail) s
          else
            log LvWarn ("Email error: " +:+ text +:+ " (attempt "
                        +:+ showZ (retryCount + 1) +:+ "/"
                        +:+ showZ MAX_EMAIL_RETRIES +:+ ")") (
            if mentionsReserved text then
              handleReservedDomain (handleEmailErrors fuel') originalEmail retryCount
            else if mentionsTaken text then
              handleEmailTaken (handleEmailErrors fuel') retryCount
            else
              log LvError "Unknown error type, pausing for inspection" (
              log LvWarn browserLeftOpen holdOpen)) s)
  end.

(** the tail of [generateAndFillEmail]: what the step hands to its caller *)
Definition emailStepResult (o : Outcome) : option (option string) :=
  match o with
  | Returned true email => Some email      (* return result.email *)
  | Returned false _ => Some None          (* return null *)
  | HeldOpen | OutOfFuel => None           (* the call never returns *)
  end.

(** the re-submissions of an address made so far *)
Definition fills (t : list Op) : nat :=
  List.length (List.filter (fun o => match o with OpFillEmail _ _ => true | _ => false end) t).

(** the state after one operation, and after several in order *)
Definition after (o : Op) (s : St) : St := mkSt (step o (world s)) (o :: trace s).
Definition afterAll (ops : list Op) (s : St) : St := List.fold_left (fun s o => after o s) ops s.

(** what [handleEmailErrors] logs on a reserved-domain error before it
    types the new address *)
Definition reservedPrelude (originalEmail text : string) (retryCount : Z) : list Op :=
  [ OpHumanDelay 1000 1500;
    OpLog LvWarn ("Email error: " +:+ text +:+ " (attempt " +:+ showZ (retryCount + 1)
                  +:+ "/" +:+ showZ MAX_EMAIL_RETRIES +:+ ")");
    OpLog LvWarn ("Domain blocked: " +:+ default "undefined" (afterChar "@" originalEmail));
    OpLog LvLog ("Retrying with: " +:+ beforeChar "@" originalEmail +:+ "@outlook.com") ].

(** and what it does to submit it *)
Definition reservedSubmit (originalEmail : string) : list Op :=
  [ OpFillEmail (beforeChar "@" originalEmail +:+ "@outlook.com") "EMAIL_RETRY_FILL";
    OpFluentUIClick "RETRY_EMAIL_NEXT";
    OpHumanDelay 2000 3000;
    OpWaitForPageStable "RETRY_EMAIL" 15000 ].

(** the last words of a run that gave up at the round limit *)
Definition gaveUp : list Op :=
  [ OpHumanDelay 1000 1500;
    OpLog LvError ("❌ Max email retries (" +:+ showZ MAX_EMAIL_RETRIES
                   +:+ ") reached - giving up");
    OpLog LvWarn browserLeftOpen ].

(** a computation that ends within its fuel after at most [n] re-submissions *)
Definition Within (n : nat) (m : M) : Prop :=
  forall s : St,
    fst (m s) <> OutOfFuel /\ (fills (trace (snd (m s))) <= fills (trace s) + n)%nat.

Lemma Within_ret (n : nat) (b : bool) (e : option string) : Within n (ret b e).
Proof. intros s. cbn. split; [discriminate | lia]. Qed.

Lemma Within_holdOpen (n : nat) : Within n holdOpen.
Proof. intros s. cbn. split; [discriminate | lia]. Qed.

Lemma Within_op (n : nat) (o : Op) (k : M) :
  match o with OpFillEmail _ _ => False | _ => True end ->
  Within n k -> Within n (op o k).
Proof.
  intros Ho Hk s. unfold op. destruct (Hk (mkSt (step o (world s)) (o :: trace s))) as [H1 H2].
  split; [exact H1 |]. cbn [trace] in H2. unfold fills in *.
  destruct o; cbn [List.filter] in H2; try exact H2. destruct Ho.
Qed.

Lemma Within_log (n : nat) (lvl : Level) (msg : string) (k : M) :
  Within n k -> Within n (log lvl msg k).
Proof. now apply Within_op. Qed.

Lemma Within_fill (n : nat) (email context : string) (k : M) :
  Within n k -> Within (S n) (op (OpFillEmail email context) k).
Proof.
  intros Hk s. unfold op.
  destruct (Hk (mkSt (step (OpFillEmail email context) (world s))
                     (OpFillEmail email context :: trace s))) as [H1 H2].
  split; [exact H1 |]. cbn [trace] in H2. unfold fills in *.
  cbn [List.filter List.length] in H2. lia.
Qed.

(** back from a goal about [m s] to [Within n m] *)
Ltac within :=
  cbv beta iota zeta;
  lazymatch goal with
  | |- (fst (?m ?s) <> OutOfFuel) /\ (_ <= _ + ?n)%nat =>
      refine ((_ : Within n m) s)
  end.

Lemma Within_handleReservedDomain (n : nat) (again : string -> Z -> M)
  (originalEmail : string) (retryCount : Z) :
  (forall e, Within n (again e (retryCount + 1))) ->
  Within (S n) (handleReservedDomain again originalEmail retryCount).
Proof.
  intros Hagain. unfold handleReservedDomain.
  apply Within_log. cbv zeta. apply Within_log. intros s. within.
  apply Within_fill. destruct (fillVerified (world s) _); cbn [negb].
  - repeat (apply Within_op; [exact I |]). apply Hagain.
  - apply Within_log, Within_ret.
Qed.

Lemma Within_handleEmailTaken (n : nat) (again : string -> Z -> M) (retryCount : Z) :
  (forall e, Within n (again e (retryCount + 1))) ->
  Within (S n) (handleEmailTaken again retryCount).
Proof.
  intros Hagain. unfold handleEmailTaken.
  assert (Hdone : forall msg e, Within (S n) (log LvLog msg (ret true e)))
    by (intros; apply Within_log, Within_ret).
  assert (Hheld : forall msg, Within (S n) (log LvError msg (log LvWarn browserLeftOpen holdOpen)))
    by (intros; apply Within_log, Within_log, Within_holdOpen).
  apply Within_log. do 2 (apply Within_op; [exact I |]). intros s.
  destruct (suggestionsVisible (world s)); cbn [negb]; within.
  - apply Within_log.
    destruct (suggestionButtons _) as [|suggestedEmail rest]; [apply Hheld |].
    match goal with |- Within _ ((if ?c then _ else _) ?k) =>
      assert (Hk : Within (S n) k); [| destruct c; [apply Within_log |]; exact Hk]
    end.
    destruct (_ =? "")%string; [apply Hheld |].
    apply Within_log. do 2 (apply Within_op; [exact I |]). intros s1. within.
    match goal with |- Within _ ((if ?c then _ else _) ?k) =>
      assert (Hk : Within (S n) k); [| destruct c; [apply Within_log |]; exact Hk]
    end.
    intros s2. destruct (errorVisible (world s2)); within.
    + apply Within_log. intros s3.
      destruct (nextEnabled (world s3)); within; [| apply Hdone].
      apply Within_log. do 2 (apply Within_op; [exact I |]).
      intros s4. destruct (errorVisible (world s4)); within; [apply Hheld | apply Hdone].
    + apply Within_log. do 2 (apply Within_op; [exact I |]). apply Hdone.
  - apply Within_log, Within_log. intros s1. within.
    apply Within_log. intros s2. within. apply Within_fill.
    destruct (fillVerified (world s2) _); cbn [negb].
    + repeat (apply Within_op; [exact I |]). apply Hagain.
    + apply Within_log, Within_ret.
Qed.

Lemma Within_handleEmailErrors (fuel : nat) (originalEmail : string) (retryCount : Z) :
  (Z.to_nat (MAX_EMAIL_RETRIES - retryCount) < fuel)%nat ->
  Within (Z.to_nat (MAX_EMAIL_RETRIES - retryCount))
         (handleEmailErrors fuel originalEmail retryCount).
Proof.
  revert originalEmail retryCount.
  induction fuel as [|fuel IH]; intros originalEmail retryCount Hfuel; [lia |].
  cbn [handleEmailErrors]. apply Within_op; [exact I |].
  unfold MAX_EMAIL_RETRIES in *.
  destruct (Z.geb_spec retryCount 5) as [Hmax|Hless].
  - apply Within_log, Within_log, Within_holdOpen.
  - intros s. destruct (errorVisible (world s)); cbn [negb]; cbv zeta;
      [| within; apply Within_log, Within_ret].
    destruct (isPasswordInfo _); within; [apply Within_ret |].
    apply Within_log.
    assert (Hagain : forall e, Within (Z.to_nat (5 - (retryCount + 1)))
                                 (handleEmailErrors fuel e (retryCount + 1)))
      by (intros e; apply IH; lia).
    replace (Z.to_nat (5 - retryCount)) with (S (Z.to_nat (5 - (retryCount + 1)))) by lia.
    destruct (mentionsReserved _); [now apply Within_handleReservedDomain |].
    destruct (mentionsTaken _); [now apply Within_handleEmailTaken |].
    apply Within_log, Within_log, Within_holdOpen.
Qed.



(** *** What the step can return *)

(** a result is a success with an address, or a failure with none, and a
    failure comes right after the log line of a fill that was not verified *)
Definition resultOk (o : Outcome) (t : list Op) : Prop :=
  match o with
  | Returned true email => email <> None
  | Returned false email =>
      email = None
      /\ (List.hd_error t = Some (OpLog LvError "Failed to fill retry email")
          \/ List.hd_error t = Some (OpLog LvError "Failed to fill new email after retries"))
  | HeldOpen | OutOfFuel => True
  end.

Definition Ends (m : M) : Prop :=
  forall s : St, resultOk (fst (m s)) (trace (snd (m s))).

Lemma Ends_op (o : Op) (k : M) : Ends k -> Ends (op o k).
Proof. intros Hk s. unfold op. apply Hk. Qed.

Lemma Ends_log (lvl : Level) (msg : string) (k : M) : Ends k -> Ends (log lvl msg k).
Proof. apply Ends_op. Qed.

Lemma Ends_holdOpen : Ends holdOpen.
Proof. intros s. exact I. Qed.

Lemma Ends_success (email : string) : Ends (ret true (Some email)).
Proof. intros s. cbn. discriminate. Qed.

Lemma Ends_fill_failed (msg : string) :
  msg = "Failed to fill retry email" \/ msg = "Failed to fill new email after retries" ->
  Ends (log LvError msg (ret false None)).
Proof.
  intros Hmsg s. unfold log, op, ret. cbn [fst snd trace List.hd_error].
  split; [reflexivity |]. destruct Hmsg as [-> | ->]; [now left | now right].
Qed.

(** back from a goal about [m s] to [Ends m] *)
Ltac ends :=
  cbv beta iota zeta;
  lazymatch goal with
  | |- resultOk (fst (?m ?s)) _ => refine ((_ : Ends m) s)
  end.

Lemma Ends_handleReservedDomain (again : string -> Z -> M)
  (originalEmail : string) (retryCount : Z) :
  (forall e n, Ends (again e n)) ->
  Ends (handleReservedDomain again originalEmail retryCount).
Proof.
  intros Hagain. unfold handleReservedDomain.
  apply Ends_log. cbv zeta. apply Ends_log. intros s. ends.
  apply Ends_op. destruct (fillVerified (world s) _); cbn [negb].
  - repeat apply Ends_op. apply Hagain.
  - apply Ends_fill_failed. now left.
Qed.

Lemma Ends_handleEmailTaken (again : string -> Z -> M) (retryCount : Z) :
  (forall e n, Ends (again e n)) ->
  Ends (handleEmailTaken again retryCount).
Proof.
  intros Hagain. unfold handleEmailTaken.
  assert (Hdone : forall msg e, Ends (log LvLog msg (ret true (Some e))))
    by (intros; apply Ends_log, Ends_success).
  assert (Hheld : forall msg, Ends (log LvError msg (log LvWarn browserLeftOpen holdOpen)))
    by (intros; apply Ends_log, Ends_log, Ends_holdOpen).
  apply Ends_log. do 2 apply Ends_op. intros s.
  destruct (suggestionsVisible (world s)); cbn [negb]; ends.
  - apply Ends_log.
    destruct (suggestionButtons _) as [|suggestedEmail rest]; [apply Hheld |].
    match goal with |- Ends ((if ?c then _ else _) ?k) =>
      assert (Hk : Ends k); [| destruct c; [apply Ends_log |]; exact Hk]
    end.
    destruct (_ =? "")%string; [apply Hheld |].
    apply Ends_log. do 2 apply Ends_op. intros s1. ends.
    match goal with |- Ends ((if ?c then _ else _) ?k) =>
      assert (Hk : Ends k); [| destruct c; [apply Ends_log |]; exact Hk]
    end.
    intros s2. destruct (errorVisible (world s2)); ends.
    + apply Ends_log. intros s3.
      destruct (nextEnabled (world s3)); ends; [| apply Hdone].
      apply Ends_log. do 2 apply Ends_op.
      intros s4. destruct (errorVisible (world s4)); ends; [apply Hheld | apply Hdone].
    + apply Ends_log. do 2 apply Ends_op. apply Hdone.
  - apply Ends_log, Ends_log. intros s1. ends.
    apply Ends_log. intros s2. ends. apply Ends_op.
    destruct (fillVerified (world s2) _); cbn [negb].
    + repeat apply Ends_op. apply Hagain.
    + apply Ends_fill_failed. now right.
Qed.

(** X13.  Whatever the page shows, a success of [handleEmailErrors]
    carries an address, and the only failure it ever returns is that of a
    fill that could not be verified, right after the error is logged: at the
    round limit, on an unknown error or on unusable suggestions it returns
    nothing at all. *)
Theorem handleEmailErrors_results (fuel : nat) (originalEmail : string)
  (retryCount : Z) (s : St) :
  resultOk (fst (handleEmailErrors fuel originalEmail retryCount s))
           (trace (snd (handleEmailErrors fuel originalEmail retryCount s))).
Proof.
  revert originalEmail retryCount s.
  induction fuel as [|fuel IH]; intros originalEmail retryCount; [intros s; exact I |].
  change (Ends (handleEmailErrors (S fuel) originalEmail retryCount)).
  cbn [handleEmailErrors]. apply Ends_op.
  destruct (retryCount >=? MAX_EMAIL_RETRIES);
    [apply Ends_log, Ends_log, Ends_holdOpen |].
  intros s. destruct (errorVisible (world s)); cbn [negb]; cbv zeta;
    [| ends; apply Ends_log, Ends_success].
  destruct (isPasswordInfo _); ends; [apply Ends_success |].
  apply Ends_log.
  assert (Hagain : forall e n, Ends (handleEmailErrors fuel e n))
    by (intros e n s'; apply IH).
  destruct (mentionsReserved _); [now apply Ends_handleReservedDomain |].
  destruct (mentionsTaken _); [now apply Ends_handleEmailTaken |].
  apply Ends_log, Ends_log, Ends_holdOpen.
Qed.

(** X14.  On an error the step does not recognise (not the password
    hint, not a reserved domain, not a taken address) it logs 'Unknown error
    type, pausing for inspection', submits nothing, and never returns. *)
Theorem handleEmailErrors_unknown_error (fuel : nat) (originalEmail : string)
  (retryCount : Z) (s : St) :
  let s1 := after (OpHumanDelay 1000 1500) s in
  let text := errorText (world s1) in
  retryCount < MAX_EMAIL_RETRIES ->
  errorVisible (world s1) = true ->
  isPasswordInfo text = false ->
  mentionsReserved text = false ->
  mentionsTaken text = false ->
  fst (handleEmailErrors (S fuel) originalEmail retryCount s) = HeldOpen
  /\ fills (trace (snd (handleEmailErrors (S fuel) originalEmail retryCount s)))
     = fills (trace s)
  /\ List.firstn 2 (trace (snd (handleEmailErrors (S fuel) originalEmail retryCount s)))
     = [OpLog LvWarn browserLeftOpen;
        OpLog LvError "Unknown error type, pausing for inspection"].
Proof.
  intros s1 text Hless Hvis Hpw Hres Htaken.
  destruct (handleEmailErrors (S fuel) originalEmail retryCount s) as [o s'] eqn:E.
  cbn [fst snd]. cbn [handleEmailErrors] in E. unfold op at 1 in E.
  destruct (Z.geb_spec retryCount MAX_EMAIL_RETRIES); [lia |].
  fold (after (OpHumanDelay 1000 1500) s) in E. fold s1 in E.
  rewrite Hvis in E. cbn [negb] in E. cbv zeta in E. fold text in E. rewrite Hpw in E.
  unfold log at 1, op at 1 in E. rewrite Hres, Htaken in E.
  unfold log, op, holdOpen in E. cbn [world trace] in E.
  injection E as <- <-. cbn [trace]. repeat split.
Qed.

End EmailStep.

Arguments world {W} s.
Arguments trace {W} s.

(** *** Two signup pages

    The world is the number of addresses submitted so far.  The first page
    refuses every address as reserved; the second refuses only the first. *)
Definition demoStep (o : Op) (w : nat) : nat :=
  match o with
  | OpFillEmail _ _ => S w
  | _ => w
  end.

Definition demoErrorText (w : nat) : string := "This email domain is reserved.".

Abbreviation demoAlwaysReserved :=
  (handleEmailErrors nat demoStep (fun _ => true) demoErrorText (fun _ _ => true)
     (fun _ => false) (fun _ => []) (fun _ => "") (fun _ => false) (fun _ => "")).

Abbreviation demoReservedOnce :=
  (handleEmailErrors nat demoStep (fun w => (w =? 0)%nat) demoErrorText (fun _ _ => true)
     (fun _ => false) (fun _ => []) (fun _ => "") (fun _ => false) (fun _ => "")).




(** *** The further properties, at concrete runs *)

Lemma retryOperation_gestures_witness :
  gestures (fst (retryOperation unit (fun _ => Throw "not verified")
                   (fun _ => 0%Q) (fun _ => (1 # 2)%Q) (fun _ => (1 # 10)%Q)
                   3 1000 false))
  = [].
Proof.
  apply (retryOperation_gestures unit (fun _ => Throw "not verified")
           (fun _ => 0%Q) (fun _ => (1 # 2)%Q) (fun _ => (1 # 10)%Q) 3 1000 false).
  reflexivity.
Defined.

(** a page that shows an error the step does not know *)
Abbreviation demoUnknownError :=
  (handleEmailErrors nat demoStep (fun _ => true) (fun _ => "Something went wrong.")
     (fun _ _ => true) (fun _ => false) (fun _ => []) (fun _ => EmptyString)
     (fun _ => false) (fun _ => EmptyString)).

Lemma handleEmailErrors_unknown_error_witness :
  fst (demoUnknownError 6%nat "alice@example.com" 0 (mkSt nat 0%nat [])) = HeldOpen
  /\ fills (trace (snd (demoUnknownError 6%nat "alice@example.com" 0 (mkSt nat 0%nat []))))
     = fills (@nil Op)
  /\ List.firstn 2 (trace (snd (demoUnknownError 6%nat "alice@example.com" 0
                                   (mkSt nat 0%nat []))))
     = [OpLog LvWarn browserLeftOpen;
        OpLog LvError "Unknown error type, pausing for inspection"].
Proof.
  apply (handleEmailErrors_unknown_error nat demoStep (fun _ => true)
           (fun _ => "Something went wrong.") (fun _ _ => true) (fun _ => false)
           (fun _ => []) (fun _ => EmptyString) (fun _ => false) (fun _ => EmptyString)
           5%nat "alice@example.com" 0 (mkSt nat 0%nat []));
    reflexivity.
Defined.


End AccountCreator.

(* ================================================================== *)
(** ** util/state/Load.ts: the vacation block of [normalizeConfig] *)
(* ================================================================== *)
Module Load.

(** a JS number *)
Inductive JsNum : Type :=
| NaN
| PosInfinity
| NegInfinity
| Fin (q : Q).

(** the value of a field of the parsed config file, or its absence *)
Inductive Raw : Type :=
| RUndefined
| RNull
| RBool (b : bool)
| RNumber (n : JsNum)
| RString (s : string)
| RObject (primitive : string).   (* an object or array, with the string its ToPrimitive gives *)

Record RawVacation : Type := mkRawVacation {
  rawEnabled : Raw;
  rawMinDays : Raw;
  rawMaxDays : Raw
}.

(** the part of the raw config the block reads: [n.vacation], [None] when it
    is missing or null *)
Record RawConfig : Type := mkRawConfig {
  rawVacation : option RawVacation
}.

Record Vacation : Type := mkVacation {
  enabled : bool;
  minDays : Z;
  maxDays : Z
}.

Record Config : Type := mkConfig {
  vacation : Vacation
}.

Section Coercion.

(** [Number(s)] for a string, as the JS runtime parses it *)
Variable stringToNumber : string -> JsNum.

(** [Number(v)] *)
Definition Number (v : Raw) : JsNum :=
  match v with
  | RUndefined => NaN
  | RNull => Fin 0
  | RBool true => Fin 1
  | RBool false => Fin 0
  | RNumber n => n
  | RString s => stringToNumber s
  | RObject primitive => stringToNumber primitive
  end.

(** [isFinite(v) && v > 0 ? Math.floor(v) : fallback] *)
Definition positiveFloorOr (fallback : Z) (v : JsNum) : Z :=
  match v with
  | Fin q => if Qlt_le_dec 0 q then Qfloor q else fallback
  | _ => fallback
  end.

(** lines 166-174 of [normalizeConfig] *)
Definition normalizeVacation (raw : option RawVacation) : Vacation :=
  let v := default (mkRawVacation RUndefined RUndefined RUndefined) raw in
  let enabled := match rawEnabled v with RBool b => b | _ => false end in
  let vMin := Number (rawMinDays v) in
  let vMax := Number (rawMaxDays v) in
  let minDays := positiveFloorOr 3 vMin in
  let maxDays := positiveFloorOr 5 vMax in
  if maxDays <? minDays then mkVacation enabled maxDays minDays
  else mkVacation enabled minDays maxDays.

(** [normalizeConfig(raw)], its vacation field *)
Definition normalizeConfig (raw : RawConfig) : Config :=
  mkConfig (normalizeVacation (rawVacation raw)).

(** the half of the invariant the code keeps: the pair is ordered *)
Lemma normalizeConfig_ordered (raw : RawConfig) :
  minDays (vacation (normalizeConfig raw)) <= maxDays (vacation (normalizeConfig raw)).
Proof.
  unfold normalizeConfig, normalizeVacation. cbn [vacation]. cbv zeta.
  destruct (_ <? _) eqn:E; cbn [minDays maxDays].
  - apply Z.ltb_lt in E. lia.
  - apply Z.ltb_ge in E. exact E.
Qed.

(** a value of at least 1, or one that is replaced, gives a positive field *)
Lemma positiveFloorOr_positive (fallback : Z) (v : JsNum) :
  0 < fallback ->
  match v with Fin q => ~ (0 < q /\ q < 1)%Q | _ => True end ->
  0 < positiveFloorOr fallback v.
Proof.
  intros Hf Hv. destruct v as [| | |q]; cbn; try exact Hf.
  destruct (Qlt_le_dec 0 q) as [Hpos|]; [| exact Hf].
  assert (H1 : (1 <= q)%Q).
  { destruct (Qlt_le_dec q 1) as [Hlt|Hge]; [| exact Hge]. exfalso. now apply Hv. }
  apply (Qfloor_resp_le 1 q) in H1. change (Qfloor 1) with 1 in H1. lia.
Qed.

(** so the fields are positive unless a day count lies strictly between 0 and 1 *)
Lemma normalizeConfig_positive (raw : RawConfig) :
  let v := default (mkRawVacation RUndefined RUndefined RUndefined) (rawVacation raw) in
  match Number (rawMinDays v) with Fin q => ~ (0 < q /\ q < 1)%Q | _ => True end ->
  match Number (rawMaxDays v) with Fin q => ~ (0 < q /\ q < 1)%Q | _ => True end ->
  0 < minDays (vacation (normalizeConfig raw)) /\
  0 < maxDays (vacation (normalizeConfig raw)).
Proof.
  intros v Hmin Hmax.
  pose proof (positiveFloorOr_positive 3 _ eq_refl Hmin) as H3.
  pose proof (positiveFloorOr_positive 5 _ eq_refl Hmax) as H5.
  unfold normalizeConfig, normalizeVacation. cbn [vacation]. cbv zeta. fold v.
  destruct (_ <? _); cbn [minDays maxDays]; split; assumption.
Qed.

End Coercion.

(** C10: the invariant the claim states is broken by a fractional day count
    below 1.  [{ vacation: { minDays: 0.5, maxDays: 0.5 } }] passes the test
    [v > 0] and is floored to 0. *)
Theorem normalizeConfig_half_day (stringToNumber : string -> JsNum) :
  vacation (normalizeConfig stringToNumber
              (mkRawConfig (Some (mkRawVacation RUndefined
                                    (RNumber (Fin (1 # 2))) (RNumber (Fin (1 # 2)))))))
  = mkVacation false 0 0.
Proof. reflexivity. Qed.

(** the defaults, the floor and the swap on ordinary input *)
Example normalizeConfig_examples (stringToNumber : string -> JsNum) :
  vacation (normalizeConfig stringToNumber (mkRawConfig None)) = mkVacation false 3 5 /\
  vacation (normalizeConfig stringToNumber
              (mkRawConfig (Some (mkRawVacation (RBool true)
                                    (RNumber (Fin (15 # 2))) (RNumber (Fin (-2)))))))
  = mkVacation true 5 7 /\
  vacation (normalizeConfig stringToNumber
              (mkRawConfig (Some (mkRawVacation RNull (RNumber (Fin 9)) (RNumber (Fin 4))))))
  = mkVacation false 4 9.
Proof. repeat split. Qed.


(** *** [stripJsonComments] *)

(** where the scan is: in plain JSON, in a string opened by [stringChar], in
    a line comment, or in a block comment *)
Inductive Mode : Type :=
| Plain
| InString (stringChar : ascii)
| InLine
| InBlock.

Definition doubleQuote : ascii := ascii_of_nat 34.
Definition isQuote (c : ascii) : bool := Ascii.eqb c doubleQuote || Ascii.eqb c "'"%char.
Definition isNewline (c : ascii) : bool :=
  Ascii.eqb c (ascii_of_nat 10) || Ascii.eqb c (ascii_of_nat 13).

(** the [for] loop, from the index where [input] starts *)
Fixpoint stripFrom (mode : Mode) (input : list ascii) : list ascii :=
  match input with
  | [] => []
  | ch :: rest =>
      match mode with
      | InLine =>
          if isNewline ch then ch :: stripFrom Plain rest else stripFrom InLine rest
      | InBlock =>
          match rest with
          | next :: rest' =>
              if Ascii.eqb ch "*" && Ascii.eqb next "/" then stripFrom Plain rest'
              else stripFrom InBlock rest
          | [] => []
          end
      | InString stringChar =>
          if Ascii.eqb ch "\" then
            match rest with
            | escaped :: rest' => ch :: escaped :: stripFrom (InString stringChar) rest'
            | [] => [ch]
            end
          else if Ascii.eqb ch stringChar then ch :: stripFrom Plain rest
          else ch :: stripFrom (InString stringChar) rest
      | Plain =>
          if isQuote ch then ch :: stripFrom (InString ch) rest
          else
            match rest with
            | next :: rest' =>
                if Ascii.eqb ch "/" && Ascii.eqb next "/" then stripFrom InLine rest'
                else if Ascii.eqb ch "/" && Ascii.eqb next "*" then stripFrom InBlock rest'
                else ch :: stripFrom Plain rest
            | [] => [ch]
            end
      end
  end.

(** [stripJsonComments(input)] *)
Definition stripJsonComments (input : string) : string :=
  string_of_list_ascii (stripFrom Plain (list_ascii_of_string input)).

Definition quoted (s : string) : string :=
  String doubleQuote s +:+ String doubleQuote EmptyString.

Example stripJsonComments_example :
  stripJsonComments
    ("{ // head" +:+ String (ascii_of_nat 10)
       (" " +:+ quoted "url" +:+ ": " +:+ quoted "http://x/*y*/" +:+ ", /* off */ "
        +:+ quoted "n" +:+ ": 1 }"))
  = "{ " +:+ String (ascii_of_nat 10)
       (" " +:+ quoted "url" +:+ ": " +:+ quoted "http://x/*y*/" +:+ ",  "
        +:+ quoted "n" +:+ ": 1 }").
Proof. reflexivity. Qed.

(** X15.  The output is the input with characters left out: nothing is
    added, nothing is reordered; so it is never longer than the input. *)
Theorem stripJsonComments_sublist (input : list ascii) (mode : Mode) :
  sublist (stripFrom mode input) input
  /\ (List.length (stripFrom mode input) <= List.length input)%nat.
Proof.
  assert (H : forall n input, (List.length input <= n)%nat ->
                forall mode, sublist (stripFrom mode input) input).
  { clear. induction n as [|n IH]; intros input Hn mode.
    - destruct input; [constructor | cbn in Hn; lia].
    - destruct input as [|ch rest]; [constructor |]. cbn [List.length] in Hn.
      assert (Hrest : forall m, sublist (stripFrom m rest) rest)
        by (intros m; apply IH; lia).
      destruct mode as [|q| |]; cbn [stripFrom].
      + destruct (isQuote ch); [now constructor |].
        destruct rest as [|next rest']; [reflexivity |].
        assert (Hrest' : forall m, sublist (stripFrom m rest') rest')
          by (intros m; apply IH; cbn in Hn; lia).
        destruct (Ascii.eqb ch "/" && Ascii.eqb next "/");
          [do 2 apply sublist_cons; apply Hrest' |].
        destruct (Ascii.eqb ch "/" && Ascii.eqb next "*");
          [do 2 apply sublist_cons; apply Hrest' |].
        apply sublist_skip, Hrest.
      + destruct (Ascii.eqb ch "\").
        * destruct rest as [|escaped rest']; [reflexivity |].
          do 2 apply sublist_skip. apply IH. cbn in Hn. lia.
        * destruct (Ascii.eqb ch q); apply sublist_skip, Hrest.
      + destruct (isNewline ch); [apply sublist_skip | apply sublist_cons]; apply Hrest.
      + destruct rest as [|next rest']; [apply sublist_nil_l |].
        destruct (Ascii.eqb ch "*" && Ascii.eqb next "/").
        * do 2 apply sublist_cons. apply IH. cbn in Hn. lia.
        * apply sublist_cons, Hrest. }
  pose proof (H (List.length input) input (le_n _) mode) as Hs.
  split; [exact Hs | now apply sublist_length].
Qed.

(** X16.  Text with no slash in it is returned as it is. *)
Theorem stripJsonComments_no_slash (input : string) :
  Forall (fun c => c <> "/"%char) (list_ascii_of_string input) ->
  stripJsonComments input = input.
Proof.
  intros H. unfold stripJsonComments.
  rewrite <- (string_of_list_ascii_of_string input) at 2. f_equal.
  assert (G : forall n l, (List.length l <= n)%nat -> Forall (fun c => c <> "/"%char) l ->
                (stripFrom Plain l = l) /\ (forall q, stripFrom (InString q) l = l)).
  { clear. induction n as [|n IH]; intros l Hn Hl.
    - destruct l; [now split | cbn in Hn; lia].
    - destruct l as [|ch rest]; [now split |]. cbn [List.length] in Hn.
      apply List.Forall_cons_iff in Hl as [Hch Hrest].
      destruct (IH rest ltac:(lia) Hrest) as [IHp IHs].
      assert (Hne : Ascii.eqb ch "/" = false) by now apply Ascii.eqb_neq.
      split; [| intros q]; cbn [stripFrom].
      + destruct (isQuote ch); [now rewrite IHs |].
        destruct rest as [|next rest']; [reflexivity |].
        rewrite Hne. cbn [andb]. now rewrite IHp.
      + destruct (Ascii.eqb ch "\").
        * destruct rest as [|escaped rest']; [reflexivity |].
          apply List.Forall_cons_iff in Hrest as [_ Hrest'].
          destruct (IH rest' ltac:(cbn in Hn; lia) Hrest') as [_ IHs'].
          now rewrite IHs'.
        * destruct (Ascii.eqb ch q); [now rewrite IHp | now rewrite IHs]. }
  now apply (G (List.length (list_ascii_of_string input))).
Qed.

Lemma stripJsonComments_no_slash_witness :
  stripJsonComments "{ 'clusters': 1, 'it\'s': [2, 3] }" = "{ 'clusters': 1, 'it\'s': [2, 3] }".
Proof. apply stripJsonComments_no_slash. repeat constructor; discriminate. Defined.

(** the inside of a string literal opened by [q]: characters other than [q]
    and the backslash, and escapes (a backslash and the character after it) *)
Inductive literalBody (q : ascii) : list ascii -> Prop :=
| body_end : literalBody q []
| body_char (c : ascii) (b : list ascii) :
    c <> q -> c <> "\"%char -> literalBody q b -> literalBody q (c :: b)
| body_escape (e : ascii) (b : list ascii) :
    literalBody q b -> literalBody q ("\"%char :: e :: b).

(** X17.  A string literal, in double or single quotes and with its
    escapes, is copied as it is, comment markers inside it included; the
    scan goes on in plain JSON behind the closing quote. *)
Theorem stripJsonComments_keeps_literal (q : ascii) (body rest : list ascii) :
  isQuote q = true -> literalBody q body ->
  stripFrom Plain (q :: body ++ q :: rest) = q :: body ++ q :: stripFrom Plain rest.
Proof.
  intros Hq Hbody. cbn [stripFrom]. rewrite Hq. f_equal.
  induction Hbody as [|c b Hc Hb _ IH | e b _ IH]; cbn [List.app stripFrom].
  - assert (Hne : Ascii.eqb q "\" = false) by (apply Ascii.eqb_neq; intros ->; discriminate).
    now rewrite Hne, Ascii.eqb_refl.
  - apply Ascii.eqb_neq in Hc, Hb. now rewrite Hb, Hc, IH.
  - now rewrite IH.
Qed.

Lemma stripJsonComments_keeps_literal_witness :
  stripFrom Plain (list_ascii_of_string "'http://x/*y*/\'' // z")
  = list_ascii_of_string "'http://x/*y*/\'' ".
Proof.
  change (list_ascii_of_string "'http://x/*y*/\'' // z")
    with ("'"%char :: list_ascii_of_string "http://x/*y*/\'" ++ "'"%char
            :: list_ascii_of_string " // z").
  rewrite stripJsonComments_keeps_literal; [reflexivity | reflexivity |].
  repeat first [ apply body_end | apply body_escape
               | apply body_char; [discriminate | discriminate |] ].
Defined.

(** no [*/] in the text *)
Fixpoint noClose (s : list ascii) : bool :=
  match s with
  | [] => true
  | c :: t =>
      negb (Ascii.eqb c "*" && match t with n :: _ => Ascii.eqb n "/" | [] => false end)
      && noClose t
  end.

Lemma stripFrom_block (comment rest : list ascii) :
  noClose comment = true ->
  stripFrom InBlock (comment ++ "*"%char :: "/"%char :: rest) = stripFrom Plain rest.
Proof.
  induction comment as [|c t IH]; intros H; [reflexivity |].
  cbn [noClose] in H. apply andb_true_iff in H as [Hc Ht].
  cbn [List.app stripFrom]. destruct t as [|n t'].
  - cbn [List.app]. change (Ascii.eqb "*" "/") with false. rewrite andb_false_r.
    exact (IH Ht).
  - cbn [List.app] in *. apply negb_true_iff in Hc. rewrite Hc. exact (IH Ht).
Qed.

Lemma stripFrom_block_open (rest : list ascii) :
  noClose rest = true -> stripFrom InBlock rest = [].
Proof.
  induction rest as [|c t IH]; intros H; [reflexivity |].
  cbn [noClose] in H. apply andb_true_iff in H as [Hc Ht].
  cbn [stripFrom]. destruct t as [|n t']; [reflexivity |].
  apply negb_true_iff in Hc. rewrite Hc. exact (IH Ht).
Qed.

Lemma stripFrom_line (comment rest : list ascii) :
  Forall (fun c => isNewline c = false) comment ->
  stripFrom InLine (comment ++ rest) = stripFrom InLine rest.
Proof.
  induction 1 as [|c t Hc _ IH]; [reflexivity |].
  cbn [List.app stripFrom]. now rewrite Hc.
Qed.

(** X18.  In plain JSON, a line comment is dropped up to the end of
    its line and the line break is kept; a block comment is dropped up to its
    first [*/]; a block comment that is never closed swallows the rest of the
    text. *)
Theorem stripJsonComments_drops_comments (comment rest : list ascii) (nl : ascii) :
  (Forall (fun c => isNewline c = false) comment -> isNewline nl = true ->
   stripFrom Plain ("/"%char :: "/"%char :: comment ++ nl :: rest)
   = nl :: stripFrom Plain rest)
  /\ (Forall (fun c => isNewline c = false) comment ->
      stripFrom Plain ("/"%char :: "/"%char :: comment) = [])
  /\ (noClose comment = true ->
      stripFrom Plain ("/"%char :: "*"%char :: comment ++ "*"%char :: "/"%char :: rest)
      = stripFrom Plain rest)
  /\ (noClose comment = true ->
      stripFrom Plain ("/"%char :: "*"%char :: comment) = []).
Proof.
  repeat split.
  - intros Hc Hnl. cbn [stripFrom]. change (isQuote "/") with false.
    cbn [Ascii.eqb Bool.eqb andb]. rewrite (stripFrom_line comment (nl :: rest) Hc).
    cbn [stripFrom]. now rewrite Hnl.
  - intros Hc. cbn [stripFrom]. change (isQuote "/") with false.
    cbn [Ascii.eqb Bool.eqb andb].
    rewrite <- (List.app_nil_r comment). now rewrite (stripFrom_line comment [] Hc).
  - intros Hc. cbn [stripFrom]. change (isQuote "/") with false.
    cbn [Ascii.eqb Bool.eqb andb]. now apply stripFrom_block.
  - intros Hc. cbn [stripFrom]. change (isQuote "/") with false.
    cbn [Ascii.eqb Bool.eqb andb]. now apply stripFrom_block_open.
Qed.

Lemma stripJsonComments_drops_comments_witness :
  stripFrom Plain (list_ascii_of_string "// a /* b" ++ ascii_of_nat 10 :: list_ascii_of_string "1")
  = ascii_of_nat 10 :: list_ascii_of_string "1"
  /\ stripFrom Plain (list_ascii_of_string "/* a // b */1") = list_ascii_of_string "1"
  /\ stripFrom Plain (list_ascii_of_string "/* a * / 1") = [].
Proof.
  destruct (stripJsonComments_drops_comments
              (list_ascii_of_string " a /* b") (list_ascii_of_string "1") (ascii_of_nat 10))
    as (H1 & _ & _ & _).
  destruct (stripJsonComments_drops_comments
              (list_ascii_of_string " a // b ") (list_ascii_of_string "1") (ascii_of_nat 10))
    as (_ & _ & H3 & _).
  destruct (stripJsonComments_drops_comments
              (list_ascii_of_string " a * / 1") [] (ascii_of_nat 10))
    as (_ & _ & _ & H4).
  split; [| split].
  - apply H1; [repeat constructor | reflexivity].
  - apply H3. reflexivity.
  - apply H4. reflexivity.
Defined.

(** *** The vacation block on whole days *)


(** a string that is no number, and a negative count *)
Definition demoRawVacation : RawConfig :=
  mkRawConfig (Some (mkRawVacation (RBool true) (RString "a week") (RNumber (Fin (-2))))).


End Load.

(* ================================================================== *)
(** ** api/report-error.js (the revision that deduplicates reports) *)
(* ================================================================== *)
Module ReportError.
Import Js.

(** *** The regular expressions, and [String.prototype.replace] with /g

    The expressions of this file are built from character classes, sequence,
    alternation, an optional group, and [+] / [*] on a class.  They are
    matched greedily and without backtracking, which is what the JS engine
    does on them too: wherever a [+] or [*] is followed by something, that
    something starts with a character outside the repeated class, and an
    alternation is followed by nothing that can fail. *)
Inductive Re : Type :=
| Chr (p : ascii -> bool)
| Seq (a b : Re)
| Alt (a b : Re)
| Opt (a : Re)
| Plus (p : ascii -> bool)
| Star (p : ascii -> bool).

Fixpoint dropWhile (p : ascii -> bool) (s : list ascii) : list ascii :=
  match s with
  | c :: t => if p c then dropWhile p t else s
  | [] => []
  end.

(** match [r] at the head of [s]: what is left of [s] after the match *)
Fixpoint run (r : Re) (s : list ascii) : option (list ascii) :=
  match r with
  | Chr p =>
      match s with
      | c :: t => if p c then Some t else None
      | [] => None
      end
  | Seq a b =>
      match run a s with
      | Some t => run b t
      | None => None
      end
  | Alt a b =>
      match run a s with
      | Some t => Some t
      | None => run b s
      end
  | Opt a =>
      match run a s with
      | Some t => Some t
      | None => Some s
      end
  | Plus p =>
      match s with
      | c :: t => if p c then Some (dropWhile p t) else None
      | [] => None
      end
  | Star p => Some (dropWhile p s)
  end.

(** the length of the match at the head of [s] *)
Definition matchLen (r : Re) (s : list ascii) : option nat :=
  match run r s with
  | Some t => Some (List.length s - List.length t)%nat
  | None => None
  end.

(** [s.replace(/r/g, rep)], scanning from the left; [skip] characters of a
    match already replaced are still to be passed over.  [rep] receives the
    matched text. *)
Fixpoint scan (r : Re) (rep : list ascii -> list ascii) (skip : nat) (s : list ascii)
  : list ascii :=
  match s with
  | [] => []
  | c :: t =>
      match skip with
      | S k => scan r rep k t
      | O =>
          match matchLen r s with
          | Some (S n) => rep (List.firstn (S n) s) ++ scan r rep n t
          | _ => c :: scan r rep 0 t
          end
      end
  end.

Definition replaceAll (r : Re) (rep : list ascii -> list ascii) (s : list ascii)
  : list ascii := scan r rep 0 s.

Definition isChar (c : ascii) : ascii -> bool := Ascii.eqb c.
Definition isLetter (c : ascii) : bool := isLower c || isUpper c.
Definition isHexDigit (c : ascii) : bool :=
  isDigit c
  || (let n := nat_of_ascii c in
      ((97 <=? n)%nat && (n <=? 102)%nat) || ((65 <=? n)%nat && (n <=? 70)%nat)).
Definition notSpaceOrColon (c : ascii) : bool := negb (isSpace c) && negb (isChar ":" c).

(** a literal, and a literal matched without regard to case *)
Fixpoint lit (s : list ascii) : Re :=
  match s with
  | [] => Opt (Chr (fun _ => false))
  | [c] => Chr (isChar c)
  | c :: t => Seq (Chr (isChar c)) (lit t)
  end.
Fixpoint litCI (s : list ascii) : Re :=
  match s with
  | [] => Opt (Chr (fun _ => false))
  | [c] => Chr (fun x => isChar c (lowerChar x))
  | c :: t => Seq (Chr (fun x => isChar c (lowerChar x))) (litCI t)
  end.

Definition chars (s : string) : list ascii := list_ascii_of_string s.
Definition digits (n : nat) (k : Re) : Re :=
  Nat.iter n (fun r => Seq (Chr isDigit) r) k.

(** [/\d{4}-\d{2}-\d{2}T\d{2}:\d{2}:\d{2}\.\d+Z/] *)
Definition reTimestamp : Re :=
  digits 4 (Seq (Chr (isChar "-")) (digits 2 (Seq (Chr (isChar "-")) (digits 2 (Seq (Chr (isChar "T"))
    (digits 2 (Seq (Chr (isChar ":")) (digits 2 (Seq (Chr (isChar ":")) (digits 2
      (Seq (Chr (isChar ".")) (Seq (Plus isDigit) (Chr (isChar "Z")))))))))))))).

(** [/0x[0-9a-fA-F]+/] *)
Definition reHex : Re := Seq (Chr (isChar "0")) (Seq (Chr (isChar "x")) (Plus isHexDigit)).

(** the path expression: a drive prefix [[A-Za-z]:\] or a slash, then as
    many characters as follow that are neither white space nor a colon *)
Definition rePath : Re :=
  Seq (Alt (Seq (Chr isLetter) (Seq (Chr (isChar ":")) (Chr (isChar "\"))))
           (Chr (isChar "/")))
      (Star notSpaceOrColon).

(** [/:\d+(?::\d+)?/] *)
Definition reLineCol : Re :=
  Seq (Chr (isChar ":")) (Seq (Plus isDigit) (Opt (Seq (Chr (isChar ":")) (Plus isDigit)))).

(** [/\s+/] *)
Definition reSpaces : Re := Plus isSpace.

Definition drop (_ : list ascii) : list ascii := [].
Definition constant (s : string) (_ : list ascii) : list ascii := chars s.

(** the four removals of [normalizeForId], in the order of the source *)
Definition stripTimestamps : list ascii -> list ascii := replaceAll reTimestamp drop.
Definition stripHex : list ascii -> list ascii := replaceAll reHex drop.
Definition maskPaths : list ascii -> list ascii := replaceAll rePath (constant "[PATH]").
Definition stripLineCol : list ascii -> list ascii := replaceAll reLineCol drop.
Definition strip (t : list ascii) : list ascii :=
  stripLineCol (maskPaths (stripHex (stripTimestamps t))).

(** [t.replace(/\s+/g, ' ').trim()] *)
Definition squeeze (t : list ascii) : list ascii :=
  rev (dropSpaces (rev (dropSpaces (replaceAll reSpaces (constant " ") t)))).

(** [normalizeForId(text)] on the characters of [text] *)
Definition normalizeChars (t : list ascii) : list ascii := squeeze (strip t).

(** [normalizeForId(text)] *)
Definition normalizeForId (text : string) : string :=
  string_of_list_ascii (normalizeChars (chars text)).

(** [sanitizeDiscordText(text)] *)
Definition zeroWidthSpace : list ascii :=
  [ascii_of_nat 226; ascii_of_nat 128; ascii_of_nat 139].
Definition sanitizeDiscordText (text : string) : string :=
  let t := chars text in
  (* /@(everyone|here)/gi -> '@\u200b$1' *)
  let t := replaceAll (Seq (Chr (isChar "@")) (Alt (litCI (chars "everyone")) (litCI (chars "here"))))
                      (fun m => "@"%char :: zeroWidthSpace ++ List.tl m) t in
  (* /<@!?(\d+)>/g -> '@user' *)
  let t := replaceAll (Seq (Chr (isChar "<")) (Seq (Chr (isChar "@")) (Seq (Opt (Chr (isChar "!")))
                        (Seq (Plus isDigit) (Chr (isChar ">"))))))
                      (constant "@user") t in
  (* /<@&(\d+)>/g -> '@role' *)
  let t := replaceAll (Seq (Chr (isChar "<")) (Seq (Chr (isChar "@")) (Seq (Chr (isChar "&"))
                        (Seq (Plus isDigit) (Chr (isChar ">"))))))
                      (constant "@role") t in
  (* /<#(\d+)>/g -> '#channel' *)
  let t := replaceAll (Seq (Chr (isChar "<")) (Seq (Chr (isChar "#"))
                        (Seq (Plus isDigit) (Chr (isChar ">")))))
                      (constant "#channel") t in
  string_of_list_ascii (List.firstn 2000 t).

(** *** SHA-256, for [crypto.createHash('sha256').update(s).digest('hex')] *)

Definition mask32 : Z := 4294967295.
Definition add32 (a b : Z) : Z := Z.land (a + b) mask32.
Definition rotr (n x : Z) : Z :=
  Z.land (Z.lor (Z.shiftr x n) (Z.shiftl x (32 - n))) mask32.
Definition xor3 (a b c : Z) : Z := Z.lxor a (Z.lxor b c).
Definition choose (x y z : Z) : Z :=
  Z.lxor (Z.land x y) (Z.land (Z.lxor x mask32) z).
Definition majority (x y z : Z) : Z := xor3 (Z.land x y) (Z.land x z) (Z.land y z).
Definition bigSigma0 (x : Z) : Z := xor3 (rotr 2 x) (rotr 13 x) (rotr 22 x).
Definition bigSigma1 (x : Z) : Z := xor3 (rotr 6 x) (rotr 11 x) (rotr 25 x).
Definition smallSigma0 (x : Z) : Z := xor3 (rotr 7 x) (rotr 18 x) (Z.shiftr x 3).
Definition smallSigma1 (x : Z) : Z := xor3 (rotr 17 x) (rotr 19 x) (Z.shiftr x 10).

(** the primes below 312: there are 64 of them *)
Definition isPrime (n : Z) : bool :=
  (1 <? n) && List.forallb (fun d => negb (n mod Z.of_nat d =? 0))
                           (List.seq 2 (Z.to_nat n - 2)).
Definition primes64 : list Z :=
  List.filter isPrime (List.map Z.of_nat (List.seq 2 310)).

(** the integer cube root, bit by bit from bit 40 down *)
Definition cubeRoot (n : Z) : Z :=
  List.fold_left
    (fun r b => let r' := r + Z.shiftl 1 (Z.of_nat b) in
                if r' * r' * r' <=? n then r' else r)
    (List.rev (List.seq 0 41)) 0.

(** the round constants: the first 32 bits of the fractional parts of the
    cube roots of the primes; the initial hash: the same of the square roots
    of the first eight *)
Definition roundConstants : list Z :=
  List.map (fun p => Z.land (cubeRoot (p * 2 ^ 96)) mask32) primes64.
Definition initialHash : list Z :=
  List.map (fun p => Z.land (Z.sqrt (p * 2 ^ 64)) mask32) (List.firstn 8 primes64).

Definition bytesOf (s : string) : list Z :=
  List.map (fun c => Z.of_nat (nat_of_ascii c)) (list_ascii_of_string s).

(** big-endian bytes of [x], [n] of them *)
Fixpoint bigEndian (n : nat) (x : Z) : list Z :=
  match n with
  | O => []
  | S k => Z.land (Z.shiftr x (8 * Z.of_nat k)) 255 :: bigEndian k x
  end.

(** the padded message: a 1 bit, zeros up to 56 mod 64, the bit length *)
Definition pad (msg : list Z) : list Z :=
  let len := Z.of_nat (List.length msg) in
  let zeros := Z.to_nat ((55 - len) mod 64) in
  msg ++ [128] ++ List.repeat 0 zeros ++ bigEndian 8 (8 * len).

Fixpoint wordsOf (n : nat) (bytes : list Z) : list Z :=
  match n with
  | O => []
  | S k =>
      match bytes with
      | a :: b :: c :: d :: rest =>
          (Z.shiftl a 24 + Z.shiftl b 16 + Z.shiftl c 8 + d) :: wordsOf k rest
      | _ => []
      end
  end.

(** the message schedule, extended from 16 to 64 words *)
Fixpoint extend (n : nat) (w : list Z) : list Z :=
  match n with
  | O => w
  | S k =>
      let t := List.length w in
      let at_ i := List.nth (t - i) w 0 in
      extend k (w ++ [add32 (add32 (smallSigma1 (at_ 2%nat)) (at_ 7%nat))
                            (add32 (smallSigma0 (at_ 15%nat)) (at_ 16%nat))])
  end.

Definition round (st : list Z) (kw : Z * Z) : list Z :=
  match st with
  | [a; b; c; d; e; f; g; h] =>
      let t1 := add32 (add32 (add32 h (bigSigma1 e)) (choose e f g))
                      (add32 (fst kw) (snd kw)) in
      let t2 := add32 (bigSigma0 a) (majority a b c) in
      [add32 t1 t2; a; b; c; add32 d t1; e; f; g]
  | _ => st
  end.

Definition compress (h : list Z) (block : list Z) : list Z :=
  let w := extend 48 (wordsOf 16 block) in
  let out := List.fold_left round (List.combine roundConstants w) h in
  List.map (fun p => add32 (fst p) (snd p)) (List.combine h out).

Fixpoint blocks (n : nat) (bytes : list Z) : list (list Z) :=
  match n with
  | O => []
  | S k => List.firstn 64 bytes :: blocks k (List.skipn 64 bytes)
  end.

Definition sha256 (msg : list Z) : list Z :=
  let p := pad msg in
  List.fold_left compress (blocks (List.length p / 64) p) initialHash.

Definition hexDigit (d : Z) : ascii :=
  ascii_of_nat (Z.to_nat (if d <? 10 then 48 + d else 87 + d)).
Definition hexOfWord (x : Z) : list ascii :=
  List.map (fun k => hexDigit (Z.land (Z.shiftr x (4 * Z.of_nat k)) 15))
           (List.rev (List.seq 0 8)).

(** [crypto.createHash('sha256').update(s).digest('hex')] *)
Definition sha256Hex (s : string) : string :=
  string_of_list_ascii (List.flat_map hexOfWord (sha256 (bytesOf s))).

Example sha256_abc :
  sha256Hex "abc" = "ba7816bf8f01cfea414140de5dae2223b00361a396177a9cb410ff61f20015ad".
Proof. vm_compute. reflexivity. Qed.

Example sha256_empty :
  sha256Hex "" = "e3b0c44298fc1c149afbf4c8996fb92427ae41e4649b934ca495991b7852b855".
Proof. vm_compute. reflexivity. Qed.

Example sha256_two_blocks :
  sha256Hex "abcdbcdecdefdefgefghfghighijhijkijkljklmklmnlmnomnopnopq"
  = "248d6a61d20638b8e5c026930c3e6039a33ce45964ff2167f6ecedd419db06c1".
Proof. vm_compute. reflexivity. Qed.

(** *** [computeErrorId] *)

(** a JS object with string keys, in insertion order; the values are given
    as [String(v)] renders them *)
Definition Obj : Type := list (string * string).

Record Payload : Type := mkPayload {
  error : option string;
  stack : option string;
  context : option Obj;
  additionalContext : option Obj
}.

(** [obj[k]] *)
Fixpoint lookup (k : string) (obj : Obj) : option string :=
  match obj with
  | [] => None
  | (k', v) :: rest => if (k' =? k)%string then Some v else lookup k rest
  end.

(** [Array.prototype.sort()] on strings: ascending by code units *)
Fixpoint insertSorted (k : string) (l : list string) : list string :=
  match l with
  | [] => [k]
  | h :: t => if String.leb k h then k :: l else h :: insertSorted k t
  end.
Definition sortStrings (l : list string) : list string :=
  List.fold_right insertSorted [] l.

(** [`${k}=${String(obj[k])}`] for each key *)
Definition entries (obj : Obj) (keys : list string) : list string :=
  List.map (fun k => k +:+ "=" +:+ default "undefined" (lookup k obj)) keys.

(** the string that is hashed *)
Definition canonical (payload : Payload) : string :=
  let ctx := default [] (context payload) in
  let ctxKeys :=
    sortStrings (List.filter (fun k => negb (k =? "timestamp")%string) (List.map fst ctx)) in
  let add := default [] (additionalContext payload) in
  let addKeys := sortStrings (List.map fst add) in
  String.concat "|"
    ([normalizeForId (default "" (error payload))]
     ++ (if truthy (stack payload) then [normalizeForId (default "" (stack payload))] else [])
     ++ entries ctx ctxKeys
     ++ entries add addKeys).

(** [computeErrorId(payload)]: the first 12 hex digits of the SHA-256 *)
Definition computeErrorId (payload : Payload) : string :=
  String.substring 0 12 (sha256Hex (canonical payload)).

(** *** The handler and its two in-memory maps *)

Definition RATE_LIMIT_WINDOW_MS : Z := 60 * 1000.
Definition RATE_LIMIT_MAX_REQUESTS : Z := 10.
Definition ERROR_TTL_MS : Z := 60 * 60 * 1000.

Record RateRecord : Type := mkRate { count : Z; resetTime : Z }.
Record CacheRecord : Type := mkCache { expires : Z; hits : Z }.

Record Store : Type := mkStore {
  rateLimitMap : gmap string RateRecord;
  errorCache : gmap string CacheRecord
}.

Record Request : Type := mkRequest {
  method : string;
  forwardedFor : option string;     (* req.headers['x-forwarded-for'] *)
  body : option Payload             (* req.body *)
}.

(** what the process and the clock give one invocation *)
Record Env : Type := mkEnv {
  nowRate : Z;                      (* Date.now() in isRateLimited *)
  nowCache : Z;                     (* Date.now() in the handler *)
  webhookUrl : option string;       (* process.env.DISCORD_ERROR_WEBHOOK_URL *)
  postError : option string         (* the message axios.post rejects with, if it does *)
}.

(** the outbound webhook post: where to, and what the embed shows *)
Record Post : Type := mkPost {
  postUrl : string;
  description : string;
  stackTrace : option string;
  footerId : string
}.

Inductive Reply : Type :=
| Preflight                          (* 200, empty *)
| MethodNotAllowed                   (* 405 *)
| RateLimited                        (* 429 *)
| Unavailable                        (* 503 *)
| InvalidPayload                     (* 400 *)
| Duplicate (id : string)            (* { success: true, duplicate: true, id } *)
| Received (id : string)             (* { success: true, message, id } *)
| Failed (message : string).         (* 500 *)

(** [isRateLimited(ip)] *)
Definition isRateLimited (now : Z) (ip : string) (m : gmap string RateRecord)
  : bool * gmap string RateRecord :=
  match m !! ip with
  | Some record =>
      if resetTime record <? now then
        (false, <[ip := mkRate 1 (now + RATE_LIMIT_WINDOW_MS)]> m)
      else if count record >=? RATE_LIMIT_MAX_REQUESTS then (true, m)
      else (false, <[ip := mkRate (count record + 1) (resetTime record)]> m)
  | None => (false, <[ip := mkRate 1 (now + RATE_LIMIT_WINDOW_MS)]> m)
  end.

(** [req.headers['x-forwarded-for']?.split(',')[0]?.trim() || 'unknown'] *)
Definition clientIp (req : Request) : string :=
  match forwardedFor req with
  | Some h => let ip := trim (beforeChar "," h) in
              if (ip =? "")%string then "unknown" else ip
  | None => "unknown"
  end.

(** the payload whose id the handler computes: the sanitized texts *)
Definition sanitized (payload : Payload) : Payload :=
  mkPayload (option_map sanitizeDiscordText (error payload))
            (if truthy (stack payload)
             then option_map sanitizeDiscordText (stack payload) else None)
            (context payload) (additionalContext payload).

(** [s.split('\n').slice(0, n).join('\n')] *)
Fixpoint firstLines (n : nat) (s : list ascii) : list ascii :=
  match n with
  | O => []
  | S k =>
      match s with
      | [] => []
      | c :: t =>
          if Ascii.eqb c (ascii_of_nat 10)
          then match k with O => [] | _ => c :: firstLines k t end
          else c :: firstLines n t
      end
  end.

Definition slice (n : nat) (s : string) : string := String.substring 0 n s.

(** the embed the handler posts *)
Definition buildPost (url : string) (p : Payload) (id : string) : Post :=
  mkPost url
    (slice 1900 (default "" (error p)))
    (option_map (fun st => slice 1000 (string_of_list_ascii (firstLines 15 (chars st))))
                (stack p))
    id.

(** [handler(req, res)]: the reply, the maps afterwards, the posts made *)
Definition handler (req : Request) (env : Env) (store : Store)
  : Reply * Store * list Post :=
  if (method req =? "OPTIONS")%string then (Preflight, store, [])
  else if negb (method req =? "POST")%string then (MethodNotAllowed, store, [])
  else
    let (limited, rates) := isRateLimited (nowRate env) (clientIp req) (rateLimitMap store) in
    let store := mkStore rates (errorCache store) in
    if limited then (RateLimited, store, [])
    else
      match webhookUrl env with
      | None => (Unavailable, store, [])
      | Some url =>
          if (url =? "")%string then (Unavailable, store, []) else
          match body req with
          | None => (InvalidPayload, store, [])
          | Some payload =>
              if negb (truthy (error payload)) then (InvalidPayload, store, [])
              else
                let p := sanitized payload in
                let computedId := computeErrorId p in
                let now := nowCache env in
                let fresh :=
                  let cache := <[computedId := mkCache (now + ERROR_TTL_MS) 1]>
                                 (errorCache store) in
                  let post := buildPost url p computedId in
                  match postError env with
                  | Some message =>
                      (Failed message, mkStore (rateLimitMap store) cache, [post])
                  | None =>
                      (Received computedId, mkStore (rateLimitMap store) cache, [post])
                  end in
                match errorCache store !! computedId with
                | Some existing =>
                    if now <? expires existing then
                      (Duplicate computedId,
                       mkStore (rateLimitMap store)
                               (<[computedId := mkCache (expires existing) (hits existing + 1)]>
                                  (errorCache store)),
                       [])
                    else fresh
                | None => fresh
                end
          end
      end.

(** a sequence of invocations of one warm instance *)
Fixpoint serve (calls : list (Request * Env)) (store : Store)
  : list (Reply * list Post) * Store :=
  match calls with
  | [] => ([], store)
  | (req, env) :: rest =>
      let '(reply, store1, posts) := handler req env store in
      let (replies, store2) := serve rest store1 in
      ((reply, posts) :: replies, store2)
  end.

(** *** Matching is local: it never crosses a character no class accepts *)

(** no class of [r] accepts [sp] *)
Fixpoint avoids (sp : ascii) (r : Re) : bool :=
  match r with
  | Chr p | Plus p | Star p => negb (p sp)
  | Seq a b | Alt a b => avoids sp a && avoids sp b
  | Opt a => avoids sp a
  end.

(** some class of [r] accepts [c] *)
Fixpoint accepts (r : Re) (c : ascii) : bool :=
  match r with
  | Chr p | Plus p | Star p => p c
  | Seq a b | Alt a b => accepts a c || accepts b c
  | Opt a => accepts a c
  end.

Lemma dropWhile_sep (p : ascii -> bool) (sp : ascii) (x y : list ascii) :
  p sp = false -> dropWhile p (x ++ sp :: y) = dropWhile p x ++ sp :: y.
Proof.
  intros Hsp. induction x as [|c x IH]; cbn.
  - now rewrite Hsp.
  - destruct (p c); [exact IH | reflexivity].
Qed.

Lemma run_sep (sp : ascii) (r : Re) (x y : list ascii) :
  avoids sp r = true ->
  run r (x ++ sp :: y) = option_map (fun t => t ++ sp :: y) (run r x).
Proof.
  revert x. induction r as [p | a IHa b IHb | a IHa b IHb | a IHa | p | p];
    intros x Hav; cbn [avoids] in Hav; cbn [run].
  - apply negb_true_iff in Hav. destruct x as [|c x]; cbn.
    + now rewrite Hav.
    + now destruct (p c).
  - apply andb_true_iff in Hav as [Ha Hb]. rewrite (IHa x Ha).
    destruct (run a x) as [t|]; cbn; [apply IHb, Hb | reflexivity].
  - apply andb_true_iff in Hav as [Ha Hb]. rewrite (IHa x Ha).
    destruct (run a x) as [t|]; cbn; [reflexivity | apply IHb, Hb].
  - rewrite (IHa x Hav). now destruct (run a x).
  - apply negb_true_iff in Hav. destruct x as [|c x]; cbn.
    + now rewrite Hav.
    + destruct (p c); [| reflexivity]. cbn. now rewrite dropWhile_sep.
  - apply negb_true_iff in Hav. cbn. now rewrite dropWhile_sep.
Qed.

Lemma dropWhile_split (p : ascii -> bool) (s : list ascii) :
  exists m, s = m ++ dropWhile p s /\ Forall (fun c => p c = true) m.
Proof.
  induction s as [|c s (m & Hm & Hf)]; cbn.
  - now exists [].
  - destruct (p c) eqn:Hc.
    + exists (c :: m). split; [cbn; congruence | now constructor].
    + now exists [].
Qed.

(** a match consumes a prefix, made of characters its classes accept *)
Lemma run_split (r : Re) (s t : list ascii) :
  run r s = Some t ->
  exists m, s = m ++ t /\ Forall (fun c => accepts r c = true) m.
Proof.
  revert s t. induction r as [p | a IHa b IHb | a IHa b IHb | a IHa | p | p];
    intros s t; cbn [run accepts].
  - destruct s as [|c s]; [discriminate |]. destruct (p c) eqn:Hc; [| discriminate].
    intros [= <-]. exists [c]. split; [reflexivity | now repeat constructor].
  - destruct (run a s) as [u|] eqn:Ha; [| discriminate]. intros Hb.
    destruct (IHa _ _ Ha) as (m1 & -> & H1). destruct (IHb _ _ Hb) as (m2 & -> & H2).
    exists (m1 ++ m2). split; [now rewrite List.app_assoc |].
    apply List.Forall_app. split; eapply List.Forall_impl; eauto; cbn;
      intros c ->; [reflexivity | apply orb_true_r].
  - destruct (run a s) as [u|] eqn:Ha.
    + intros [= <-]. destruct (IHa _ _ Ha) as (m & -> & H). exists m. split; [reflexivity |].
      eapply List.Forall_impl; eauto. cbn. now intros c ->.
    + intros Hb. destruct (IHb _ _ Hb) as (m & -> & H). exists m. split; [reflexivity |].
      eapply List.Forall_impl; eauto. cbn. intros c ->. apply orb_true_r.
  - destruct (run a s) as [u|] eqn:Ha.
    + intros [= <-]. exact (IHa _ _ Ha).
    + intros [= <-]. now exists [].
  - destruct s as [|c s]; [discriminate |]. destruct (p c) eqn:Hc; [| discriminate].
    intros [= <-]. destruct (dropWhile_split p s) as (m & Hm & Hf).
    exists (c :: m). split; [cbn; congruence | now constructor].
  - intros [= <-]. apply dropWhile_split.
Qed.

Lemma matchLen_le (r : Re) (s : list ascii) (n : nat) :
  matchLen r s = Some n -> (n <= List.length s)%nat.
Proof.
  unfold matchLen. destruct (run r s); [intros [= <-]; lia | discriminate].
Qed.

Lemma matchLen_sep (sp : ascii) (r : Re) (x y : list ascii) :
  avoids sp r = true -> matchLen r (x ++ sp :: y) = matchLen r x.
Proof.
  intros Hav. unfold matchLen. rewrite (run_sep sp r x y Hav).
  destruct (run r x) as [t|] eqn:Hr; cbn; [| reflexivity].
  destruct (run_split _ _ _ Hr) as (m & -> & _).
  rewrite !List.length_app. cbn [List.length]. f_equal. lia.
Qed.

Lemma scan_sep (sp : ascii) (r : Re) (rep : list ascii -> list ascii)
  (x y : list ascii) (k : nat) :
  avoids sp r = true -> (k <= List.length x)%nat ->
  scan r rep k (x ++ sp :: y) = scan r rep k x ++ sp :: scan r rep 0 y.
Proof.
  intros Hav. revert k. induction x as [|c x IH]; intros k Hk.
  - assert (k = 0%nat) by (cbn in Hk; lia). subst k. cbn [List.app scan].
    change (sp :: y) with ([] ++ sp :: y) at 1. rewrite (matchLen_sep sp r [] y Hav).
    destruct (matchLen r []) as [[|n]|] eqn:Hm; try reflexivity.
    apply matchLen_le in Hm. cbn in Hm. lia.
  - destruct k as [|k].
    + cbn [List.app scan].
      change (c :: x ++ sp :: y) with ((c :: x) ++ sp :: y).
      rewrite (matchLen_sep sp r (c :: x) y Hav).
      destruct (matchLen r (c :: x)) as [[|n]|] eqn:Hm.
      * cbn [List.app]. rewrite (IH 0%nat); [reflexivity | lia].
      * pose proof (matchLen_le _ _ _ Hm) as Hle. cbn [List.length] in Hle.
        rewrite List.firstn_app.
        replace (S n - List.length (c :: x))%nat with 0%nat by (cbn [List.length]; lia).
        rewrite List.firstn_O, List.app_nil_r.
        rewrite (IH n); [| lia]. now rewrite <- List.app_assoc.
      * cbn [List.app]. rewrite (IH 0%nat); [reflexivity | lia].
    + cbn [List.app scan]. apply IH. cbn in Hk. lia.
Qed.

Lemma replaceAll_sep (sp : ascii) (r : Re) (rep : list ascii -> list ascii)
  (x y : list ascii) :
  avoids sp r = true ->
  replaceAll r rep (x ++ sp :: y) = replaceAll r rep x ++ sp :: replaceAll r rep y.
Proof. intros Hav. apply scan_sep; [exact Hav | lia]. Qed.

(** *** Whole matches, and texts on which an expression cannot match *)

Lemma scan_skip (r : Re) (rep : list ascii -> list ascii) (x y : list ascii) :
  scan r rep (List.length x) (x ++ y) = scan r rep 0 y.
Proof.
  induction x as [|c x IH]; [reflexivity |]. exact IH.
Qed.

Lemma scan_skip_all (r : Re) (rep : list ascii -> list ascii) (x : list ascii) (k : nat) :
  (List.length x <= k)%nat -> scan r rep k x = [].
Proof.
  revert k. induction x as [|c x IH]; intros k Hk; [reflexivity |].
  destruct k as [|k]; [cbn in Hk; lia |]. cbn [scan]. apply IH. cbn in Hk. lia.
Qed.

(** a match at the head is replaced, and the scan goes on behind it *)
Lemma replaceAll_head (r : Re) (rep : list ascii -> list ascii) (x y : list ascii) :
  x <> [] -> run r (x ++ y) = Some y ->
  replaceAll r rep (x ++ y) = rep x ++ replaceAll r rep y.
Proof.
  intros Hx Hrun. destruct x as [|c x]; [contradiction |].
  unfold replaceAll. cbn [List.app scan]. unfold matchLen.
  change (c :: x ++ y) with ((c :: x) ++ y). rewrite Hrun.
  rewrite List.length_app.
  replace (List.length (c :: x) + List.length y - List.length y)%nat
    with (S (List.length x)) by (cbn [List.length]; lia).
  rewrite List.firstn_app.
  replace (S (List.length x) - List.length (c :: x))%nat with 0%nat by (cbn [List.length]; lia).
  rewrite List.firstn_O, List.app_nil_r.
  change (S (List.length x)) with (List.length (c :: x)). rewrite List.firstn_all.
  now rewrite scan_skip.
Qed.

Lemma replaceAll_whole (r : Re) (rep : list ascii -> list ascii) (x : list ascii) :
  x <> [] -> run r x = Some [] -> replaceAll r rep x = rep x.
Proof.
  intros Hx Hrun. rewrite <- (List.app_nil_r x) at 1.
  rewrite replaceAll_head; [now rewrite List.app_nil_r | exact Hx |].
  now rewrite List.app_nil_r.
Qed.

(** no match at the head: the character stays *)
Lemma replaceAll_skip_head (r : Re) (rep : list ascii -> list ascii)
  (c : ascii) (t : list ascii) :
  run r (c :: t) = None ->
  replaceAll r rep (c :: t) = c :: replaceAll r rep t.
Proof.
  intros Hrun. unfold replaceAll. cbn [scan]. unfold matchLen. now rewrite Hrun.
Qed.

Lemma replaceAll_inert (r : Re) (rep : list ascii -> list ascii) (s : list ascii) :
  (forall pre z, s = pre ++ z -> run r z = None) ->
  replaceAll r rep s = s.
Proof.
  induction s as [|c s IH]; intros Hno; [reflexivity |].
  rewrite replaceAll_skip_head; [| exact (Hno [] _ eq_refl)].
  f_equal. apply IH. intros pre z ->. exact (Hno (c :: pre) z eq_refl).
Qed.

(** every character, for the tests that quantify over the characters *)
Definition allAscii : list ascii := List.map ascii_of_nat (List.seq 0 256).

Lemma In_allAscii (c : ascii) : In c allAscii.
Proof.
  unfold allAscii. rewrite <- (ascii_nat_embedding c).
  apply List.in_map, List.in_seq. pose proof (nat_ascii_bounded c). lia.
Qed.

(** no character is accepted by both classes *)
Definition disjoint (p q : ascii -> bool) : bool :=
  List.forallb (fun c => negb (p c && q c)) allAscii.

Lemma disjoint_spec (p q : ascii -> bool) (c : ascii) :
  disjoint p q = true -> q c = true -> p c = false.
Proof.
  unfold disjoint. rewrite List.forallb_forall. intros H Hq.
  specialize (H c (In_allAscii c)). rewrite Hq, andb_true_r in H.
  now apply negb_true_iff in H.
Qed.

(** every match of [r] consumes a character outside [q] *)
Fixpoint needsOutside (q : ascii -> bool) (r : Re) : bool :=
  match r with
  | Chr p | Plus p => disjoint p q
  | Seq a b => needsOutside q a || needsOutside q b
  | Alt a b => needsOutside q a && needsOutside q b
  | Opt _ | Star _ => false
  end.

Lemma run_needsOutside (q : ascii -> bool) (r : Re) (s : list ascii) :
  needsOutside q r = true -> Forall (fun c => q c = true) s -> run r s = None.
Proof.
  revert s. induction r as [p | a IHa b IHb | a IHa b IHb | a IHa | p | p];
    intros s Hn Hq; cbn [needsOutside run] in *; try discriminate.
  - destruct s as [|c s]; [reflexivity |]. apply List.Forall_inv in Hq.
    now rewrite (disjoint_spec p q c Hn Hq).
  - destruct (run a s) as [t|] eqn:Ha; [| reflexivity].
    apply orb_true_iff in Hn as [Hn|Hn]; [now rewrite (IHa s Hn Hq) in Ha |].
    destruct (run_split _ _ _ Ha) as (m & -> & _).
    apply List.Forall_app in Hq as [_ Hq]. now apply IHb.
  - apply andb_true_iff in Hn as [Hna Hnb]. rewrite (IHa s Hna Hq). now apply IHb.
  - destruct s as [|c s]; [reflexivity |]. apply List.Forall_inv in Hq.
    now rewrite (disjoint_spec p q c Hn Hq).
Qed.

Lemma replaceAll_outside (q : ascii -> bool) (r : Re) (rep : list ascii -> list ascii)
  (s : list ascii) :
  needsOutside q r = true -> Forall (fun c => q c = true) s -> replaceAll r rep s = s.
Proof.
  intros Hn Hq. apply replaceAll_inert. intros pre z ->.
  apply List.Forall_app in Hq as [_ Hq]. now apply (run_needsOutside q).
Qed.

(** a removal leaves only characters that were there *)
Lemma scan_drop_Forall (q : ascii -> Prop) (r : Re) (s : list ascii) (k : nat) :
  Forall q s -> Forall q (scan r drop k s).
Proof.
  revert k. induction s as [|c s IH]; intros k Hq; [constructor |].
  apply List.Forall_cons_iff in Hq as [Hc Hs]. cbn [scan].
  destruct k as [|k]; [| now apply IH].
  destruct (matchLen r (c :: s)) as [[|n]|]; cbn [drop List.app];
    try (constructor; [exact Hc |]); now apply IH.
Qed.

(** the characters a match can begin with *)
Fixpoint starts (r : Re) (c : ascii) : bool :=
  match r with
  | Chr p | Plus p => p c
  | Seq a _ => starts a c
  | Alt a b => starts a c || starts b c
  | Opt _ | Star _ => true
  end.

Lemma run_starts (r : Re) (c : ascii) (t : list ascii) :
  starts r c = false -> run r (c :: t) = None.
Proof.
  induction r as [p | a IHa b IHb | a IHa b IHb | a IHa | p | p];
    cbn [starts run]; intros H; try discriminate.
  - now rewrite H.
  - now rewrite IHa.
  - apply orb_false_iff in H as [Ha Hb]. now rewrite IHa, IHb.
  - now rewrite H.
Qed.

Lemma replaceAll_skip_prefix (r : Re) (rep : list ascii -> list ascii) (x y : list ascii) :
  Forall (fun c => starts r c = false) x ->
  replaceAll r rep (x ++ y) = x ++ replaceAll r rep y.
Proof.
  induction 1 as [|c x Hc _ IH]; [reflexivity |]. cbn [List.app].
  rewrite replaceAll_skip_head by now apply run_starts. now rewrite IH.
Qed.

(** a whole match stays one when a character no class accepts follows *)
Lemma run_whole_app (r : Re) (core close : list ascii) :
  run r core = Some [] ->
  Forall (fun c => avoids c r = true) close ->
  run r (core ++ close) = Some close.
Proof.
  intros Hrun Hclose. destruct Hclose as [|c close Hc _].
  - now rewrite List.app_nil_r.
  - now rewrite (run_sep c r core close Hc), Hrun.
Qed.

Lemma run_whole_chars (r : Re) (core : list ascii) :
  run r core = Some [] -> Forall (fun c => accepts r c = true) core.
Proof.
  intros Hrun. destruct (run_split _ _ _ Hrun) as (m & -> & Hm).
  now rewrite List.app_nil_r.
Qed.

Lemma forall_ascii (P : ascii -> bool) :
  List.forallb P allAscii = true -> forall c, P c = true.
Proof.
  intros H c. rewrite List.forallb_forall in H. apply H, In_allAscii.
Qed.

(** *** The characters that may stand right around a token

    Brackets, quotes, commas, white space and the like: no digit, no letter,
    and none of [/ : . -]. *)
Definition neutral (c : ascii) : bool :=
  negb (isDigit c || isLetter c || isChar "/" c || isChar ":" c || isChar "." c
        || isChar "-" c).

Definition removals : list Re := [reTimestamp; reHex; rePath; reLineCol].

Lemma neutral_starts (r : Re) (c : ascii) :
  In r removals -> neutral c = true -> starts r c = false.
Proof.
  intros Hr Hc.
  assert (H : List.forallb (fun r => List.forallb
               (fun c => implb (neutral c) (negb (starts r c))) allAscii) removals = true)
    by (vm_compute; reflexivity).
  rewrite List.forallb_forall in H. specialize (H r Hr).
  pose proof (forall_ascii _ H c) as Hi. cbn beta in Hi. rewrite Hc in Hi.
  now apply negb_true_iff in Hi.
Qed.

Lemma neutral_avoids (r : Re) (c : ascii) :
  In r [reTimestamp; reHex; reLineCol] -> neutral c = true -> avoids c r = true.
Proof.
  intros Hr Hc.
  assert (H : List.forallb (fun r => List.forallb
               (fun c => implb (neutral c) (avoids c r)) allAscii)
               [reTimestamp; reHex; reLineCol] = true)
    by (vm_compute; reflexivity).
  rewrite List.forallb_forall in H. specialize (H r Hr).
  pose proof (forall_ascii _ H c) as Hi. cbn beta in Hi. now rewrite Hc in Hi.
Qed.

Lemma space_avoids (r : Re) (sp : ascii) :
  In r removals -> isSpace sp = true -> avoids sp r = true.
Proof.
  intros Hr Hc.
  assert (H : List.forallb (fun r => List.forallb
               (fun c => implb (isSpace c) (avoids c r)) allAscii) removals = true)
    by (vm_compute; reflexivity).
  rewrite List.forallb_forall in H. specialize (H r Hr).
  pose proof (forall_ascii _ H sp) as Hi. cbn beta in Hi. now rewrite Hc in Hi.
Qed.

(** text that is neutral, or made of the characters of an expression [by]
    that shares none of its own with [r], is left alone by [r] *)
Definition aside (by_ : Re) (c : ascii) : bool := neutral c || accepts by_ c.

Lemma aside_neutral (by_ : Re) (s : list ascii) :
  Forall (fun c => neutral c = true) s -> Forall (fun c => aside by_ c = true) s.
Proof.
  intros H. eapply List.Forall_impl; [| exact H]. cbn. unfold aside. now intros c ->.
Qed.

Lemma aside_accepted (by_ : Re) (s : list ascii) :
  Forall (fun c => accepts by_ c = true) s -> Forall (fun c => aside by_ c = true) s.
Proof.
  intros H. eapply List.Forall_impl; [| exact H]. cbn. unfold aside.
  intros c ->. apply orb_true_r.
Qed.

Lemma neutral_untouched (r : Re) (rep : list ascii -> list ascii) (s : list ascii) :
  In r removals -> Forall (fun c => neutral c = true) s -> replaceAll r rep s = s.
Proof.
  intros Hr Hs. apply (replaceAll_outside neutral); [| exact Hs].
  assert (H : List.forallb (needsOutside neutral) removals = true) by (vm_compute; reflexivity).
  rewrite List.forallb_forall in H. now apply H.
Qed.

(** a token of [r] between neutral characters is replaced as a whole *)
Lemma replaceAll_token (r : Re) (rep : list ascii -> list ascii)
  (open core close : list ascii) :
  In r [reTimestamp; reHex; reLineCol] ->
  Forall (fun c => neutral c = true) open ->
  Forall (fun c => neutral c = true) close ->
  core <> [] -> run r core = Some [] ->
  replaceAll r rep (open ++ core ++ close) = open ++ rep core ++ close.
Proof.
  intros Hr Hopen Hclose Hne Hrun.
  assert (Hr' : In r removals) by (cbn in *; tauto).
  rewrite replaceAll_skip_prefix.
  2:{ eapply List.Forall_impl; [| exact Hopen]. cbn. intros c. now apply neutral_starts. }
  rewrite replaceAll_head; [| exact Hne |].
  2:{ apply run_whole_app; [exact Hrun |].
      eapply List.Forall_impl; [| exact Hclose]. cbn. intros c. now apply neutral_avoids. }
  now rewrite (neutral_untouched r rep close Hr' Hclose).
Qed.

Lemma strip_neutral (s : list ascii) :
  Forall (fun c => neutral c = true) s -> strip s = s.
Proof.
  intros Hs. unfold strip, stripLineCol, maskPaths, stripHex, stripTimestamps.
  rewrite (neutral_untouched reTimestamp), (neutral_untouched reHex),
    (neutral_untouched rePath), (neutral_untouched reLineCol);
    solve [reflexivity | exact Hs | cbn; tauto].
Qed.

Lemma strip_sep (sp : ascii) (x y : list ascii) :
  isSpace sp = true -> strip (x ++ sp :: y) = strip x ++ sp :: strip y.
Proof.
  intros Hsp. unfold strip, stripLineCol, maskPaths, stripHex, stripTimestamps.
  rewrite (replaceAll_sep sp reTimestamp), (replaceAll_sep sp reHex),
    (replaceAll_sep sp rePath), (replaceAll_sep sp reLineCol);
    solve [reflexivity | apply space_avoids; [cbn; tauto | exact Hsp]].
Qed.

(** *** The three kinds of token [normalizeForId] is meant to hide *)

(** an ISO timestamp with fractional seconds, as [Date.toISOString] prints *)
Definition isTimestamp (core : list ascii) : Prop := run reTimestamp core = Some [].

(** a hex pointer: [0x] and hex digits *)
Definition isHexPointer (core : list ascii) : Prop := run reHex core = Some [].

(** the start of an absolute path: a slash, or a drive letter, a colon and
    a backslash *)
Definition isPathPrefix (p : list ascii) : Prop :=
  p = ["/"%char] \/ exists L, isLetter L = true /\ p = [L; ":"%char; "\"%char].

(** an absolute path with no white space and no colon in it, then
    [:line] or [:line:col] or nothing; with nothing, nothing may follow *)
Definition isPath (close core : list ascii) : Prop :=
  exists p body suffix,
    core = p ++ body ++ suffix
    /\ isPathPrefix p
    /\ Forall (fun c => notSpaceOrColon c = true) body
    /\ ((suffix = [] /\ close = []) \/ run reLineCol suffix = Some []).

Lemma stripLineCol_neutral (s : list ascii) :
  Forall (fun c => neutral c = true) s -> stripLineCol s = s.
Proof. intros Hs. apply neutral_untouched; [cbn; tauto | exact Hs]. Qed.

Lemma maskPaths_neutral (s : list ascii) :
  Forall (fun c => neutral c = true) s -> maskPaths s = s.
Proof. intros Hs. apply neutral_untouched; [cbn; tauto | exact Hs]. Qed.

Lemma stripHex_neutral (s : list ascii) :
  Forall (fun c => neutral c = true) s -> stripHex s = s.
Proof. intros Hs. apply neutral_untouched; [cbn; tauto | exact Hs]. Qed.

Lemma strip_timestamp (open core close : list ascii) :
  Forall (fun c => neutral c = true) open ->
  Forall (fun c => neutral c = true) close ->
  isTimestamp core ->
  strip (open ++ core ++ close) = open ++ close.
Proof.
  intros Hopen Hclose Hcore.
  assert (Hboth : Forall (fun c => neutral c = true) (open ++ close))
    by (apply List.Forall_app; now split).
  unfold strip, stripTimestamps. rewrite replaceAll_token; cbn [In]; auto.
  2:{ intros ->. discriminate Hcore. }
  cbn [drop List.app].
  now rewrite stripHex_neutral, maskPaths_neutral, stripLineCol_neutral.
Qed.

Lemma strip_hex (open core close : list ascii) :
  Forall (fun c => neutral c = true) open ->
  Forall (fun c => neutral c = true) close ->
  isHexPointer core ->
  strip (open ++ core ++ close) = open ++ close.
Proof.
  intros Hopen Hclose Hcore.
  assert (Hboth : Forall (fun c => neutral c = true) (open ++ close))
    by (apply List.Forall_app; now split).
  unfold strip.
  replace (stripTimestamps (open ++ core ++ close)) with (open ++ core ++ close).
  2:{ symmetry. apply (replaceAll_outside (aside reHex)); [vm_compute; reflexivity |].
      repeat (apply List.Forall_app; split).
      - now apply aside_neutral.
      - now apply aside_accepted, run_whole_chars.
      - now apply aside_neutral. }
  unfold stripHex. rewrite replaceAll_token; cbn [In]; auto.
  2:{ intros ->. discriminate Hcore. }
  cbn [drop List.app].
  now rewrite maskPaths_neutral, stripLineCol_neutral.
Qed.

(** **** No timestamp inside a path token

    The expression for timestamps needs a colon followed by two digits and a
    dot.  [colonsOk] says the text has no such place. *)
Fixpoint colonsOk (s : list ascii) : bool :=
  match s with
  | [] => true
  | c :: t =>
      negb (isChar ":" c && isDigit (List.nth 0 t " "%char) && isChar "." (List.nth 2 t " "%char))
      && colonsOk t
  end.

Lemma colonsOk_suffix (pre z : list ascii) :
  colonsOk (pre ++ z) = true -> colonsOk z = true.
Proof.
  induction pre as [|c pre IH]; [trivial |]. cbn [List.app colonsOk].
  intros H. apply andb_true_iff in H as [_ H]. now apply IH.
Qed.

Lemma colonsOk_no_dot (s : list ascii) :
  Forall (fun c => isChar "." c = false) s -> colonsOk s = true.
Proof.
  induction 1 as [|c t Hc Ht IH]; [reflexivity |]. cbn [colonsOk].
  rewrite IH, andb_true_r. apply negb_true_iff, andb_false_iff. right.
  destruct (List.nth_in_or_default 2 t " "%char) as [Hin | ->]; [| reflexivity].
  rewrite List.Forall_forall in Ht. now apply Ht.
Qed.

Lemma colonsOk_no_colon (x y : list ascii) :
  Forall (fun c => isChar ":" c = false) x -> colonsOk y = true -> colonsOk (x ++ y) = true.
Proof.
  intros Hx Hy. induction Hx as [|c x Hc _ IH]; [exact Hy |].
  cbn [List.app colonsOk]. now rewrite Hc, IH.
Qed.

Lemma run_chr_seq (p : ascii -> bool) (k : Re) (s t : list ascii) :
  run (Seq (Chr p) k) s = Some t ->
  exists c s', s = c :: s' /\ p c = true /\ run k s' = Some t.
Proof.
  cbn [run]. destruct s as [|c s']; [discriminate |].
  destruct (p c) eqn:Hc; [| discriminate]. intros H. now exists c, s'.
Qed.

Lemma timestamp_needs_colon (z t : list ascii) :
  run reTimestamp z = Some t -> colonsOk z = false.
Proof.
  intros H. cbv beta iota delta [reTimestamp digits Nat.iter nat_rect] in H.
  repeat match goal with
         | H : run (Seq (Chr _) _) _ = Some _ |- _ =>
             apply run_chr_seq in H; destruct H as (? & ? & -> & ? & H)
         end.
  cbn [colonsOk List.nth].
  repeat match goal with
         | Hc : isChar _ _ = true |- _ => rewrite Hc; clear Hc
         | Hc : isDigit _ = true |- _ => rewrite Hc; clear Hc
         end.
  cbn [andb negb]. now rewrite !andb_false_r.
Qed.

Lemma stripTimestamps_colonsOk (s : list ascii) :
  colonsOk s = true -> stripTimestamps s = s.
Proof.
  intros Hok. apply replaceAll_inert. intros pre z ->.
  apply colonsOk_suffix in Hok.
  destruct (run reTimestamp z) as [t|] eqn:Hrun; [| reflexivity].
  apply timestamp_needs_colon in Hrun. congruence.
Qed.

(** **** A path token through the four removals *)

Lemma neutral_not (c : ascii) :
  neutral c = true ->
  isChar ":" c = false /\ isChar "." c = false.
Proof.
  intros Hc.
  assert (H : List.forallb (fun c => implb (neutral c)
               (negb (isChar ":" c) && negb (isChar "." c))) allAscii = true)
    by (vm_compute; reflexivity).
  pose proof (forall_ascii _ H c) as Hi. clear H. cbn beta in Hi. rewrite Hc in Hi.
  apply andb_true_iff in Hi as [H1 H2]. split; apply negb_true_iff; assumption.
Qed.

Lemma lineCol_not_dot (c : ascii) :
  accepts reLineCol c = true -> isChar "." c = false.
Proof.
  intros Hc.
  assert (H : List.forallb (fun c => implb (accepts reLineCol c) (negb (isChar "." c)))
               allAscii = true) by (vm_compute; reflexivity).
  pose proof (forall_ascii _ H c) as Hi. cbn beta in Hi. rewrite Hc in Hi.
  now apply negb_true_iff in Hi.
Qed.

Lemma letter_starts_no_hex (c : ascii) :
  isLetter c = true -> starts reHex c = false /\ starts reLineCol c = false.
Proof.
  intros Hc.
  assert (H : List.forallb (fun c => implb (isLetter c)
               (negb (starts reHex c) && negb (starts reLineCol c))) allAscii = true)
    by (vm_compute; reflexivity).
  pose proof (forall_ascii _ H c) as Hi. clear H. cbn beta in Hi. rewrite Hc in Hi.
  apply andb_true_iff in Hi as [H1 H2]. split; apply negb_true_iff; assumption.
Qed.

Lemma notSpaceOrColon_colon (c : ascii) :
  notSpaceOrColon c = true -> isChar ":" c = false.
Proof.
  unfold notSpaceOrColon. intros H. apply andb_true_iff in H as [_ H].
  now apply negb_true_iff in H.
Qed.

Lemma isChar_eq (a c : ascii) : isChar a c = true -> c = a.
Proof. unfold isChar. intros H. apply Ascii.eqb_eq in H. congruence. Qed.

(** a [:line] or [:line:col] suffix begins with its colon *)
Lemma lineCol_head (suffix : list ascii) :
  run reLineCol suffix = Some [] -> exists rest, suffix = ":"%char :: rest.
Proof.
  intros H. unfold reLineCol in H. apply run_chr_seq in H as (c & s' & -> & Hc & _).
  apply isChar_eq in Hc. subst c. now exists s'.
Qed.

Lemma dropWhile_stop (p : ascii -> bool) (x rest : list ascii) :
  Forall (fun c => p c = true) x ->
  rest = [] \/ (exists c t, rest = c :: t /\ p c = false) ->
  dropWhile p (x ++ rest) = rest.
Proof.
  intros Hx Hrest. induction Hx as [|c x Hc _ IH]; cbn [List.app dropWhile].
  - destruct Hrest as [-> | (c & t & -> & Hc)]; [reflexivity |]. cbn. now rewrite Hc.
  - now rewrite Hc.
Qed.

(** the path expression takes the prefix and the body, and stops there *)
Lemma run_rePath (p body rest : list ascii) :
  isPathPrefix p ->
  Forall (fun c => notSpaceOrColon c = true) body ->
  rest = [] \/ (exists t, rest = ":"%char :: t) ->
  run rePath ((p ++ body) ++ rest) = Some rest.
Proof.
  intros Hp Hbody Hrest.
  assert (Hdrop : dropWhile notSpaceOrColon (body ++ rest) = rest).
  { apply dropWhile_stop; [exact Hbody |].
    destruct Hrest as [-> | (t & ->)]; [now left | right]. now exists ":"%char, t. }
  destruct Hp as [-> | (L & HL & ->)]; unfold rePath; cbn [List.app run].
  - change (isLetter "/") with false. change (isChar "/" "/") with true.
    cbn iota. exact (f_equal Some Hdrop).
  - rewrite HL. change (isChar ":" ":") with true. change (isChar "\" "\") with true.
    cbn iota. exact (f_equal Some Hdrop).
Qed.

Lemma colonsOk_path (open p body suffix close : list ascii) :
  Forall (fun c => neutral c = true) open ->
  Forall (fun c => neutral c = true) close ->
  isPathPrefix p ->
  Forall (fun c => notSpaceOrColon c = true) body ->
  (suffix = [] /\ close = []) \/ run reLineCol suffix = Some [] ->
  colonsOk (open ++ (p ++ body ++ suffix) ++ close) = true.
Proof.
  intros Hopen Hclose Hp Hbody Hsuffix.
  assert (Htail : colonsOk (suffix ++ close) = true).
  { apply colonsOk_no_dot, List.Forall_app. split.
    - destruct Hsuffix as [[-> _] | Hrun]; [constructor |].
      eapply List.Forall_impl; [| exact (run_whole_chars _ _ Hrun)].
      cbn. apply lineCol_not_dot.
    - eapply List.Forall_impl; [| exact Hclose]. cbn. intros c Hc.
      now apply neutral_not in Hc. }
  assert (Hrest : colonsOk (body ++ suffix ++ close) = true).
  { apply colonsOk_no_colon; [| exact Htail].
    eapply List.Forall_impl; [| exact Hbody]. cbn. apply notSpaceOrColon_colon. }
  apply colonsOk_no_colon.
  { eapply List.Forall_impl; [| exact Hopen]. cbn. intros c Hc. now apply neutral_not in Hc. }
  rewrite <- !List.app_assoc.
  destruct Hp as [-> | (L & HL & ->)]; cbn [List.app colonsOk List.nth].
  - change (isChar ":" "/") with false. cbn [andb negb]. exact Hrest.
  - change (isDigit "\") with false. change (isChar ":" "\") with false.
    rewrite !andb_false_r. cbn [andb negb]. exact Hrest.
Qed.

Lemma neutral_starts_all (r : Re) (s : list ascii) :
  In r removals -> Forall (fun c => neutral c = true) s ->
  Forall (fun c => starts r c = false) s.
Proof.
  intros Hr Hs. eapply List.Forall_impl; [| exact Hs].
  intros c Hc. now apply neutral_starts.
Qed.

Lemma neutral_avoids_all (r : Re) (s : list ascii) :
  In r [reTimestamp; reHex; reLineCol] -> Forall (fun c => neutral c = true) s ->
  Forall (fun c => avoids c r = true) s.
Proof.
  intros Hr Hs. eapply List.Forall_impl; [| exact Hs].
  intros c Hc. now apply neutral_avoids.
Qed.

Lemma lineCol_aside (suffix close : list ascii) :
  (suffix = [] /\ close = []) \/ run reLineCol suffix = Some [] ->
  Forall (fun c => neutral c = true) close ->
  Forall (fun c => aside reLineCol c = true) (suffix ++ close).
Proof.
  intros Hsuffix Hclose. apply List.Forall_app. split; [| now apply aside_neutral].
  destruct Hsuffix as [[-> _] | Hrun]; [constructor |].
  now apply aside_accepted, run_whole_chars.
Qed.

Lemma stripHex_path (open p body suffix close : list ascii) :
  Forall (fun c => neutral c = true) open ->
  Forall (fun c => neutral c = true) close ->
  isPathPrefix p ->
  (suffix = [] /\ close = []) \/ run reLineCol suffix = Some [] ->
  stripHex (open ++ (p ++ body ++ suffix) ++ close)
  = open ++ (p ++ stripHex body ++ suffix) ++ close.
Proof.
  intros Hopen Hclose Hp Hsuffix.
  rewrite <- !List.app_assoc. rewrite !(List.app_assoc open p).
  unfold stripHex. rewrite replaceAll_skip_prefix.
  2:{ apply List.Forall_app. split.
      - apply neutral_starts_all; [cbn; tauto | exact Hopen].
      - destruct Hp as [-> | (L & HL & ->)]; repeat constructor.
        now apply letter_starts_no_hex. }
  f_equal.
  pose proof (lineCol_aside _ _ Hsuffix Hclose) as Haside.
  destruct Hsuffix as [[-> ->] | Hrun].
  - now rewrite !List.app_nil_r.
  - destruct (lineCol_head _ Hrun) as (rest & ->). cbn [List.app] in *.
    rewrite replaceAll_sep by reflexivity. f_equal. f_equal.
    apply (replaceAll_outside (aside reLineCol)); [vm_compute; reflexivity |].
    now apply List.Forall_inv_tail in Haside.
Qed.

Lemma maskPaths_path (open p body suffix close : list ascii) :
  Forall (fun c => neutral c = true) open ->
  Forall (fun c => neutral c = true) close ->
  isPathPrefix p ->
  Forall (fun c => notSpaceOrColon c = true) body ->
  (suffix = [] /\ close = []) \/ run reLineCol suffix = Some [] ->
  maskPaths (open ++ (p ++ body ++ suffix) ++ close)
  = (open ++ chars "[PATH]") ++ suffix ++ close.
Proof.
  intros Hopen Hclose Hp Hbody Hsuffix.
  unfold maskPaths. rewrite replaceAll_skip_prefix.
  2:{ apply neutral_starts_all; [cbn; tauto | exact Hopen]. }
  rewrite <- (List.app_assoc open (chars "[PATH]")). f_equal.
  replace ((p ++ body ++ suffix) ++ close) with ((p ++ body) ++ suffix ++ close)
    by now rewrite <- !List.app_assoc.
  rewrite replaceAll_head.
  - unfold constant at 1. f_equal.
    apply (replaceAll_outside (aside reLineCol)); [vm_compute; reflexivity |].
    now apply lineCol_aside.
  - destruct Hp as [-> | (L & _ & ->)]; discriminate.
  - apply run_rePath; [exact Hp | exact Hbody |].
    destruct Hsuffix as [[-> ->] | Hrun]; [now left | right].
    destruct (lineCol_head _ Hrun) as (rest & ->). now exists (rest ++ close).
Qed.

Lemma stripLineCol_path (open suffix close : list ascii) :
  Forall (fun c => neutral c = true) open ->
  Forall (fun c => neutral c = true) close ->
  (suffix = [] /\ close = []) \/ run reLineCol suffix = Some [] ->
  stripLineCol ((open ++ chars "[PATH]") ++ suffix ++ close)
  = open ++ chars "[PATH]" ++ close.
Proof.
  intros Hopen Hclose Hsuffix.
  unfold stripLineCol. rewrite replaceAll_skip_prefix.
  2:{ apply List.Forall_app. split.
      - apply neutral_starts_all; [cbn; tauto | exact Hopen].
      - repeat constructor. }
  rewrite <- (List.app_assoc open (chars "[PATH]")). f_equal. f_equal.
  destruct Hsuffix as [[-> ->] | Hrun]; [reflexivity |].
  rewrite replaceAll_head.
  - cbn [drop List.app]. apply neutral_untouched; [cbn; tauto | exact Hclose].
  - destruct (lineCol_head _ Hrun) as (rest & ->). discriminate.
  - apply run_whole_app; [exact Hrun |].
    apply neutral_avoids_all; [cbn; tauto | exact Hclose].
Qed.

Lemma strip_path (open core close : list ascii) :
  Forall (fun c => neutral c = true) open ->
  Forall (fun c => neutral c = true) close ->
  isPath close core ->
  strip (open ++ core ++ close) = open ++ chars "[PATH]" ++ close.
Proof.
  intros Hopen Hclose (p & body & suffix & -> & Hp & Hbody & Hsuffix).
  unfold strip.
  rewrite stripTimestamps_colonsOk by now apply colonsOk_path.
  rewrite stripHex_path by assumption.
  rewrite maskPaths_path; try assumption.
  - now apply stripLineCol_path.
  - now apply scan_drop_Forall.
Qed.

(** *** Texts that differ only in tokens of these kinds *)

(** a token starts the text or follows white space, and ends it or is
    followed by white space *)
Definition boundaryL (pre : list ascii) : Prop :=
  pre = [] \/ exists pre' sp, pre = pre' ++ [sp] /\ isSpace sp = true.
Definition boundaryR (post : list ascii) : Prop :=
  post = [] \/ exists sp post', post = sp :: post' /\ isSpace sp = true.

(** two cores of one kind, within the same neutral characters *)
Definition sameKind (close c1 c2 : list ascii) : Prop :=
  (isTimestamp c1 /\ isTimestamp c2)
  \/ (isHexPointer c1 /\ isHexPointer c2)
  \/ (isPath close c1 /\ isPath close c2).

Inductive variant : list ascii -> list ascii -> Prop :=
| variant_same (t : list ascii) : variant t t
| variant_token (pre open c1 c2 close post : list ascii) :
    boundaryL pre -> boundaryR post ->
    Forall (fun c => neutral c = true) open ->
    Forall (fun c => neutral c = true) close ->
    sameKind close c1 c2 ->
    variant (pre ++ (open ++ c1 ++ close) ++ post) (pre ++ (open ++ c2 ++ close) ++ post)
| variant_trans (t1 t2 t3 : list ascii) :
    variant t1 t2 -> variant t2 t3 -> variant t1 t3.

Lemma strip_nil : strip [] = [].
Proof. reflexivity. Qed.

Lemma strip_between (pre tok post : list ascii) :
  boundaryL pre -> boundaryR post ->
  strip (pre ++ tok ++ post) = strip pre ++ strip tok ++ strip post.
Proof.
  intros HL HR.
  assert (Hright : strip (tok ++ post) = strip tok ++ strip post).
  { destruct HR as [-> | (sp & post' & -> & Hsp)].
    - now rewrite strip_nil, !List.app_nil_r.
    - rewrite (strip_sep sp tok post' Hsp).
      change (sp :: post') with ([] ++ sp :: post').
      now rewrite (strip_sep sp [] post' Hsp), strip_nil. }
  destruct HL as [-> | (pre' & sp & -> & Hsp)].
  - now rewrite strip_nil.
  - rewrite <- !List.app_assoc. cbn [List.app].
    rewrite (strip_sep sp pre' (tok ++ post) Hsp), (strip_sep sp pre' [] Hsp), strip_nil.
    rewrite Hright. now rewrite <- !List.app_assoc.
Qed.

Lemma strip_sameKind (open c1 c2 close : list ascii) :
  Forall (fun c => neutral c = true) open ->
  Forall (fun c => neutral c = true) close ->
  sameKind close c1 c2 ->
  strip (open ++ c1 ++ close) = strip (open ++ c2 ++ close).
Proof.
  intros Hopen Hclose [[H1 H2] | [[H1 H2] | [H1 H2]]].
  - now rewrite !strip_timestamp.
  - now rewrite !strip_hex.
  - now rewrite !strip_path.
Qed.

Lemma variant_strip (t1 t2 : list ascii) : variant t1 t2 -> strip t1 = strip t2.
Proof.
  induction 1 as [t | pre open c1 c2 close post HL HR Hopen Hclose Hkind
                 | t1 t2 t3 _ IH1 _ IH2].
  - reflexivity.
  - rewrite (strip_between pre (open ++ c1 ++ close) post HL HR).
    rewrite (strip_between pre (open ++ c2 ++ close) post HL HR).
    now rewrite (strip_sameKind open c1 c2 close).
  - congruence.
Qed.

Lemma sameKind_nonempty (close c1 c2 : list ascii) :
  sameKind close c1 c2 -> c1 <> [] /\ c2 <> [].
Proof.
  assert (Hpath : forall c, isPath close c -> c <> []).
  { intros c (p & body & suffix & -> & [-> | (L & _ & ->)] & _); discriminate. }
  intros [[H1 H2] | [[H1 H2] | [H1 H2]]]; split; auto;
    intros ->; discriminate.
Qed.

(** a variant of a text is empty only if the text is *)
Lemma variant_nil (t1 t2 : list ascii) : variant t1 t2 -> (t1 = [] <-> t2 = []).
Proof.
  induction 1 as [t | pre open c1 c2 close post HL HR Hopen Hclose Hkind
                 | t1 t2 t3 _ IH1 _ IH2].
  - reflexivity.
  - destruct (sameKind_nonempty _ _ _ Hkind) as [N1 N2].
    split; intros H; exfalso;
      apply List.app_eq_nil in H as [_ H]; apply List.app_eq_nil in H as [H _];
      apply List.app_eq_nil in H as [_ H]; apply List.app_eq_nil in H as [H _];
      contradiction.
  - tauto.
Qed.

Lemma variant_normalizeChars (t1 t2 : list ascii) :
  variant t1 t2 -> normalizeChars t1 = normalizeChars t2.
Proof. intros H. unfold normalizeChars. now rewrite (variant_strip t1 t2 H). Qed.

(** *** Payloads that differ only in such tokens and in [context.timestamp] *)

Definition fieldVariant (a b : option string) : Prop :=
  match a, b with
  | Some x, Some y => variant (chars x) (chars y)
  | None, None => True
  | _, _ => False
  end.

(** the context without its [timestamp] key *)
Definition withoutTimestamp (ctx : option Obj) : Obj :=
  List.filter (fun kv => negb (fst kv =? "timestamp")%string) (default [] ctx).

Definition payloadVariant (p1 p2 : Payload) : Prop :=
  fieldVariant (error p1) (error p2)
  /\ fieldVariant (stack p1) (stack p2)
  /\ withoutTimestamp (context p1) = withoutTimestamp (context p2)
  /\ additionalContext p1 = additionalContext p2.

Lemma chars_nil (x : string) : chars x = [] <-> (x =? "")%string = true.
Proof. destruct x; cbn; split; intros H; congruence. Qed.

Lemma fieldVariant_normalizeForId (a b : option string) :
  fieldVariant a b -> normalizeForId (default "" a) = normalizeForId (default "" b).
Proof.
  destruct a as [x|], b as [y|]; unfold fieldVariant; try tauto. intros H.
  change (default "" (Some x)) with x. change (default "" (Some y)) with y.
  unfold normalizeForId. now rewrite (variant_normalizeChars _ _ H).
Qed.

Lemma fieldVariant_truthy (a b : option string) :
  fieldVariant a b -> truthy a = truthy b.
Proof.
  destruct a as [x|], b as [y|]; unfold fieldVariant, truthy; try tauto. intros H.
  apply variant_nil in H. rewrite !chars_nil in H.
  destruct (x =? "")%string, (y =? "")%string; cbn; try reflexivity;
    destruct H as [H1 H2]; try (now specialize (H1 eq_refl)); now specialize (H2 eq_refl).
Qed.

Lemma In_insertSorted (x k : string) (l : list string) :
  In x (insertSorted k l) <-> x = k \/ In x l.
Proof.
  induction l as [|h t IH]; cbn.
  - intuition congruence.
  - destruct (String.leb k h); cbn; [intuition congruence |].
    rewrite IH. intuition congruence.
Qed.

Lemma In_sortStrings (x : string) (l : list string) :
  In x (sortStrings l) <-> In x l.
Proof.
  induction l as [|h t IH]; cbn; [reflexivity |].
  rewrite In_insertSorted, IH. intuition congruence.
Qed.

Lemma filter_keys (g : string -> bool) (obj : Obj) :
  List.filter g (List.map fst obj) = List.map fst (List.filter (fun kv => g (fst kv)) obj).
Proof.
  induction obj as [|[k v] obj IH]; cbn; [reflexivity |].
  destruct (g k); cbn; now rewrite IH.
Qed.

Lemma lookup_filter (g : string -> bool) (k : string) (obj : Obj) :
  g k = true -> lookup k (List.filter (fun kv => g (fst kv)) obj) = lookup k obj.
Proof.
  intros Hk. induction obj as [|[k' v] obj IH]; cbn; [reflexivity |].
  destruct (g k') eqn:Hk'; cbn.
  - now rewrite IH.
  - destruct (k' =? k)%string eqn:E; [| exact IH].
    apply String.eqb_eq in E. congruence.
Qed.

(** the entries of the context depend on the context without [timestamp] only *)
Lemma entries_withoutTimestamp (ctx : option Obj) :
  let obj := default [] ctx in
  entries obj (sortStrings (List.filter (fun k => negb (k =? "timestamp")%string)
                                        (List.map fst obj)))
  = entries (withoutTimestamp ctx) (sortStrings (List.map fst (withoutTimestamp ctx))).
Proof.
  cbn zeta. unfold withoutTimestamp. set (obj := default [] ctx).
  rewrite (filter_keys (fun k => negb (k =? "timestamp")%string) obj).
  unfold entries. apply List.map_ext_in. intros k Hk.
  rewrite In_sortStrings in Hk. apply List.in_map_iff in Hk as ([k' v] & <- & Hin).
  apply List.filter_In in Hin as [_ Hg]. cbn [fst] in *.
  now rewrite (lookup_filter (fun k => negb (k =? "timestamp")%string) k' obj Hg).
Qed.

Lemma payloadVariant_canonical (p1 p2 : Payload) :
  payloadVariant p1 p2 -> canonical p1 = canonical p2.
Proof.
  intros (Herr & Hstack & Hctx & Hadd). unfold canonical. cbn zeta.
  rewrite (entries_withoutTimestamp (context p1)), (entries_withoutTimestamp (context p2)).
  rewrite Hctx, Hadd.
  rewrite (fieldVariant_normalizeForId _ _ Herr), (fieldVariant_normalizeForId _ _ Hstack).
  now rewrite (fieldVariant_truthy _ _ Hstack).
Qed.

(** *** The cache of the handler *)

Lemma handler_cache_grows (req : Request) (env : Env) (store store' : Store)
  (reply : Reply) (posts : list Post) (id : string) (r : CacheRecord) :
  handler req env store = (reply, store', posts) ->
  errorCache store !! id = Some r ->
  exists r', errorCache store' !! id = Some r' /\ expires r <= expires r'.
Proof.
  unfold handler. intros H Hr.
  assert (Hkeep : exists r', errorCache store !! id = Some r' /\ expires r <= expires r')
    by (exists r; split; [exact Hr | lia]).
  repeat match type of H with
         | (if ?c then _ else _) = _ => destruct c eqn:?
         | (let (_, _) := ?c in _) = _ => destruct c eqn:?
         | match ?c with _ => _ end = _ => destruct c eqn:?
         end;
    injection H as <- <- <-; cbn [errorCache]; try exact Hkeep;
    match goal with
    | |- context [<[?k := _]> _] =>
        destruct (decide (k = id)) as [Heq | Hne];
        [subst id; rewrite lookup_insert_eq
        | rewrite lookup_insert_ne by exact Hne; exact Hkeep]
    end;
    eexists; (split; [reflexivity |]); cbn [expires errorCache] in *;
    unfold ERROR_TTL_MS;
    match goal with
    | E : errorCache store !! _ = Some ?c, F : (_ <? expires ?c) = _ |- _ =>
        rewrite Hr in E; injection E as <-;
        first [apply Z.ltb_ge in F; lia | lia]
    | E : errorCache store !! _ = None |- _ => congruence
    end.
Qed.

Lemma handler_received (req : Request) (env : Env) (store store' : Store)
  (posts : list Post) (id : string) :
  handler req env store = (Received id, store', posts) ->
  exists r, errorCache store' !! id = Some r
            /\ expires r = nowCache env + ERROR_TTL_MS.
Proof.
  unfold handler. intros H.
  repeat match type of H with
         | (if ?c then _ else _) = _ => destruct c eqn:?
         | (let (_, _) := ?c in _) = _ => destruct c eqn:?
         | match ?c with _ => _ end = _ => destruct c eqn:?
         end;
    try discriminate; injection H as <- <- <-; cbn [errorCache];
    rewrite lookup_insert_eq; now eexists.
Qed.

Lemma serve_cache_grows (calls : list (Request * Env)) (store store' : Store)
  (replies : list (Reply * list Post)) (id : string) (r : CacheRecord) :
  serve calls store = (replies, store') ->
  errorCache store !! id = Some r ->
  exists r', errorCache store' !! id = Some r' /\ expires r <= expires r'.
Proof.
  revert store replies r.
  induction calls as [|[req env] rest IH]; intros store replies r; cbn [serve].
  - intros [= <- <-] Hr. exists r. split; [exact Hr | lia].
  - destruct (handler req env store) as [[reply store1] posts] eqn:Hh.
    destruct (serve rest store1) as [replies' store2] eqn:Hs.
    intros [= <- <-] Hr.
    destruct (handler_cache_grows _ _ _ _ _ _ _ _ Hh Hr) as (r1 & Hr1 & Hle1).
    destruct (IH _ _ _ Hs Hr1) as (r2 & Hr2 & Hle2).
    exists r2. split; [exact Hr2 | lia].
Qed.

(** a report whose id is cached and not expired: suppressed, or turned away
    by the rate limit, and nothing is posted *)
Lemma handler_duplicate (req : Request) (env : Env) (store store' : Store)
  (reply : Reply) (posts : list Post) (url : string) (payload : Payload)
  (r : CacheRecord) :
  method req = "POST" -> webhookUrl env = Some url -> url <> "" ->
  body req = Some payload -> truthy (error payload) = true ->
  errorCache store !! computeErrorId (sanitized payload) = Some r ->
  nowCache env < expires r ->
  handler req env store = (reply, store', posts) ->
  (reply = Duplicate (computeErrorId (sanitized payload)) \/ reply = RateLimited)
  /\ posts = [].
Proof.
  intros Hm Hurl Hne Hbody Herr Hr Hnow. unfold handler.
  rewrite Hm, Hurl, Hbody, Herr. cbn [negb].
  change ("POST" =? "OPTIONS")%string with false.
  change ("POST" =? "POST")%string with true. cbn [negb].
  destruct (isRateLimited (nowRate env) (clientIp req) (rateLimitMap store))
    as [limited rates].
  destruct limited; [intros [= <- <- <-]; now split; [right |] |].
  destruct (url =? "")%string eqn:E; [apply String.eqb_eq in E; contradiction |].
  cbn [errorCache]. rewrite Hr.
  apply Z.ltb_lt in Hnow. rewrite Hnow.
  intros [= <- <- <-]. now split; [left |].
Qed.

(** *** Examples *)

Definition demoFirst : Payload :=
  mkPayload (Some "ENOENT (/home/a/bot.js:10:5) gone")
            (Some "at 0x7ffe12")
            (Some [("timestamp", "1700000000000"); ("version", "2.1")])
            None.

Definition demoSecond : Payload :=
  mkPayload (Some "ENOENT (/srv/b/run.js:7) gone")
            (Some "at 0x1b")
            (Some [("version", "2.1"); ("timestamp", "1700000099999")])
            None.

Definition demoOther : Payload :=
  mkPayload (Some "TypeError: x is undefined") None None None.

Definition demoRequest (ip : string) (p : Payload) : Request :=
  mkRequest "POST" (Some ip) (Some p).

Definition demoEnv (now : Z) : Env :=
  mkEnv now now (Some "https://discord.example/hook") None.

Definition emptyStore : Store := mkStore ∅ ∅.

Definition demoCalls : list (Request * Env) :=
  [(demoRequest "10.0.0.1" demoFirst, demoEnv 1000);
   (demoRequest "10.0.0.2" demoOther, demoEnv 2000);
   (demoRequest "10.0.0.3" demoSecond, demoEnv 3000000)].

Example demo_normalizeForId :
  normalizeForId "2024-01-02T03:04:05.678Z  fail at 0x7ffe12 in (/home/a/bot.js:10:5)"
  = "fail at in ([PATH])".
Proof. vm_compute. reflexivity. Qed.

Example demo_serve :
  fst (serve demoCalls emptyStore)
  = [(Received "8e1627812608",
      [mkPost "https://discord.example/hook" "ENOENT (/home/a/bot.js:10:5) gone"
              (Some "at 0x7ffe12") "8e1627812608"]);
     (Received "edd4c21701d8",
      [mkPost "https://discord.example/hook" "TypeError: x is undefined" None
              "edd4c21701d8"]);
     (Duplicate "8e1627812608", [])].
Proof. vm_compute. reflexivity. Qed.


(** the eleventh report of one client within the minute is turned away by
    the rate limit, duplicate or not *)
Example demo_rate_limited :
  List.nth 10 (fst (serve (List.repeat (demoRequest "10.0.0.1" demoFirst, demoEnv 1000) 11)
                          emptyStore)) (Preflight, [])
  = (RateLimited, []).
Proof. vm_compute. reflexivity. Qed.


Lemma demo_variant : payloadVariant demoFirst demoSecond.
Proof.
  unfold payloadVariant, demoFirst, demoSecond. cbn [error stack context additionalContext].
  split; [| split; [| split; reflexivity]].
  - apply (variant_token (chars "ENOENT ") (chars "(") (chars "/home/a/bot.js:10:5")
             (chars "/srv/b/run.js:7") (chars ")") (chars " gone")).
    + right. exists (chars "ENOENT"), " "%char. split; reflexivity.
    + right. exists " "%char, (chars "gone"). split; reflexivity.
    + repeat constructor.
    + repeat constructor.
    + right. right. split.
      * exists (chars "/"), (chars "home/a/bot.js"), (chars ":10:5").
        split; [reflexivity |]. split; [now left |].
        split; [repeat constructor | right; reflexivity].
      * exists (chars "/"), (chars "srv/b/run.js"), (chars ":7").
        split; [reflexivity |]. split; [now left |].
        split; [repeat constructor | right; reflexivity].
  - apply (variant_token (chars "at ") [] (chars "0x7ffe12") (chars "0x1b") [] []).
    + right. exists (chars "at"), " "%char. split; reflexivity.
    + now left.
    + constructor.
    + constructor.
    + right. left. split; reflexivity.
Qed.

(** the first report served, another one, then the variant of the first *)
Definition demoStore1 : Store :=
  snd (fst (handler (demoRequest "10.0.0.1" demoFirst) (demoEnv 1000) emptyStore)).
Definition demoStore2 : Store :=
  snd (serve [(demoRequest "10.0.0.2" demoOther, demoEnv 2000)] demoStore1).
Definition demoLast : Reply * Store * list Post :=
  handler (demoRequest "10.0.0.3" demoSecond) (demoEnv 3000000) demoStore2.


(** *** The shape of an id *)

Definition isLowerHex (c : ascii) : bool :=
  isDigit c || (let n := nat_of_ascii c in (97 <=? n)%nat && (n <=? 102)%nat).

Lemma round_length (st : list Z) (kw : Z * Z) :
  List.length (round st kw) = List.length st.
Proof.
  unfold round.
  do 9 (destruct st as [|? st]; try reflexivity).
Qed.

Lemma rounds_length (l : list (Z * Z)) (st : list Z) :
  List.length (List.fold_left round l st) = List.length st.
Proof.
  revert st. induction l as [|kw l IH]; intros st; cbn [List.fold_left]; [reflexivity |].
  now rewrite IH, round_length.
Qed.

Lemma compress_length (h block : list Z) :
  List.length (compress h block) = List.length h.
Proof.
  unfold compress. rewrite List.length_map, List.length_combine, rounds_length. lia.
Qed.

Lemma sha256_length (msg : list Z) : List.length (sha256 msg) = 8%nat.
Proof.
  unfold sha256.
  generalize (blocks (List.length (pad msg) / 64) (pad msg)). intros bs.
  assert (H : List.length initialHash = 8%nat) by (vm_compute; reflexivity).
  revert H. generalize initialHash. induction bs as [|b bs IH]; intros h Hh; cbn [List.fold_left].
  - exact Hh.
  - apply IH. now rewrite compress_length.
Qed.

Lemma hexDigit_lower (x : Z) : isLowerHex (hexDigit (Z.land x 15)) = true.
Proof.
  change 15 with (Z.ones 4). rewrite Z.land_ones by lia.
  pose proof (Z.mod_pos_bound x (2 ^ 4) ltac:(lia)) as H.
  change (2 ^ 4) with 16 in *. generalize dependent (x mod 16). intros d H.
  assert (Hd : d = 0 \/ d = 1 \/ d = 2 \/ d = 3 \/ d = 4 \/ d = 5 \/ d = 6 \/ d = 7 \/
               d = 8 \/ d = 9 \/ d = 10 \/ d = 11 \/ d = 12 \/ d = 13 \/ d = 14 \/ d = 15)
    by lia.
  repeat (destruct Hd as [-> | Hd]; [reflexivity |]). now subst d.
Qed.

Lemma hexOfWord_shape (x : Z) :
  List.length (hexOfWord x) = 8%nat
  /\ Forall (fun c => isLowerHex c = true) (hexOfWord x).
Proof.
  unfold hexOfWord. split; [now rewrite List.length_map |].
  apply List.Forall_map, List.Forall_forall. intros k _. apply hexDigit_lower.
Qed.

Lemma flat_map_hex (ws : list Z) :
  List.length (List.flat_map hexOfWord ws) = (8 * List.length ws)%nat
  /\ Forall (fun c => isLowerHex c = true) (List.flat_map hexOfWord ws).
Proof.
  induction ws as [|w ws [IHl IHf]]; cbn [List.flat_map List.length].
  - split; [reflexivity | constructor].
  - destruct (hexOfWord_shape w) as [Hl Hf]. split.
    + rewrite List.length_app, Hl, IHl. lia.
    + apply List.Forall_app. now split.
Qed.

Lemma substring_firstn (n : nat) (s : string) :
  String.substring 0 n s = string_of_list_ascii (List.firstn n (list_ascii_of_string s)).
Proof.
  revert n. induction s as [|c s IH]; intros [|n]; cbn; try reflexivity.
  now rewrite IH.
Qed.

Lemma length_string_of_list (l : list ascii) :
  String.length (string_of_list_ascii l) = List.length l.
Proof. induction l; cbn; congruence. Qed.

(** X20.  The id is twelve lower-case hex digits, whatever the payload. *)
Theorem computeErrorId_shape (payload : Payload) :
  String.length (computeErrorId payload) = 12%nat
  /\ Forall (fun c => isLowerHex c = true) (chars (computeErrorId payload)).
Proof.
  unfold computeErrorId, sha256Hex, chars.
  destruct (flat_map_hex (sha256 (bytesOf (canonical payload)))) as [Hl Hf].
  rewrite sha256_length in Hl.
  set (hex := List.flat_map hexOfWord (sha256 (bytesOf (canonical payload)))) in *.
  rewrite substring_firstn, list_ascii_of_string_of_list_ascii. split.
  - rewrite length_string_of_list, List.length_firstn. lia.
  - rewrite list_ascii_of_string_of_list_ascii.
    rewrite <- (List.firstn_skipn 12 hex) in Hf.
    now apply List.Forall_app in Hf as [Hf _].
Qed.

(** *** The order of the keys does not matter *)

Lemma ascii_compare_refl (a : ascii) : Ascii.compare a a = Eq.
Proof. unfold Ascii.compare. apply N.compare_refl. Qed.

Lemma string_leb_trans (a b c : string) :
  String.leb a b = true -> String.leb b c = true -> String.leb a c = true.
Proof.
  unfold String.leb. revert b c.
  induction a as [|x a IH]; intros [|y b] [|z c]; cbn; try congruence.
  unfold Ascii.compare.
  destruct (N.compare_spec (N_of_ascii x) (N_of_ascii y)) as [Hxy | Hxy | Hxy];
    destruct (N.compare_spec (N_of_ascii y) (N_of_ascii z)) as [Hyz | Hyz | Hyz];
    destruct (N.compare_spec (N_of_ascii x) (N_of_ascii z)) as [Hxz | Hxz | Hxz];
    try congruence; try lia; try apply IH.
Qed.

Definition keyLe (a b : string) : Prop := String.leb a b = true.

#[local] Instance keyLe_trans : Transitive keyLe.
Proof. intros a b c. apply string_leb_trans. Qed.

#[local] Instance keyLe_antisym : AntiSymm eq keyLe.
Proof. intros a b. apply String.leb_antisym. Qed.

Lemma insertSorted_Sorted (k : string) (l : list string) :
  Sorted keyLe l -> Sorted keyLe (insertSorted k l).
Proof.
  induction 1 as [|h t Ht IH Hh]; cbn [insertSorted].
  - repeat constructor.
  - destruct (String.leb k h) eqn:E.
    + constructor; [now constructor | now constructor].
    + assert (Hhk : keyLe h k).
      { destruct (String.leb_total k h) as [H | H]; [congruence | exact H]. }
      constructor; [exact IH |].
      destruct t as [|h' t]; cbn [insertSorted]; [now constructor |].
      destruct (String.leb k h'); constructor; [exact Hhk |].
      now apply HdRel_inv in Hh.
Qed.

Lemma sortStrings_Sorted (l : list string) : Sorted keyLe (sortStrings l).
Proof.
  induction l as [|k l IH]; cbn; [constructor | now apply insertSorted_Sorted].
Qed.

Lemma insertSorted_Permutation (k : string) (l : list string) :
  insertSorted k l ≡ₚ k :: l.
Proof.
  induction l as [|h t IH]; cbn [insertSorted]; [reflexivity |].
  destruct (String.leb k h); [reflexivity |].
  rewrite IH. apply Permutation_swap.
Qed.

Lemma sortStrings_Permutation (l : list string) : sortStrings l ≡ₚ l.
Proof.
  induction l as [|k l IH]; cbn; [reflexivity |].
  now rewrite insertSorted_Permutation, IH.
Qed.

Lemma sortStrings_order (l1 l2 : list string) :
  l1 ≡ₚ l2 -> sortStrings l1 = sortStrings l2.
Proof.
  intros H. apply (Sorted_unique keyLe); try apply sortStrings_Sorted.
  now rewrite !sortStrings_Permutation.
Qed.

Lemma lookup_In (k v : string) (obj : Obj) :
  List.NoDup (List.map fst obj) -> (lookup k obj = Some v <-> In (k, v) obj).
Proof.
  induction obj as [|[k' v'] obj IH]; cbn [lookup List.map fst In].
  - intros _. split; [discriminate | contradiction].
  - intros Hnd. apply List.NoDup_cons_iff in Hnd as [Hnotin Hnd].
    destruct (k' =? k)%string eqn:E.
    + apply String.eqb_eq in E. subst k'. split.
      * intros [= ->]. now left.
      * intros [[= ->] | Hin]; [reflexivity |].
        exfalso. apply Hnotin. apply List.in_map_iff. now exists (k, v).
    + apply String.eqb_neq in E. rewrite (IH Hnd). split; [now right |].
      intros [[= -> ->] | Hin]; [contradiction | exact Hin].
Qed.

Lemma lookup_order (k : string) (o1 o2 : Obj) :
  List.NoDup (List.map fst o1) -> o1 ≡ₚ o2 -> lookup k o1 = lookup k o2.
Proof.
  intros Hnd Hp.
  assert (Hnd2 : List.NoDup (List.map fst o2)).
  { eapply Stdlib.Sorting.Permutation.Permutation_NoDup; [| exact Hnd]. now apply Permutation_map. }
  destruct (lookup k o1) as [v|] eqn:E1.
  - symmetry. apply (lookup_In k v o2 Hnd2). rewrite <- Hp.
    now apply (lookup_In k v o1 Hnd).
  - destruct (lookup k o2) as [v|] eqn:E2; [| reflexivity].
    apply (lookup_In k v o2 Hnd2) in E2. rewrite <- Hp in E2.
    apply (lookup_In k v o1 Hnd) in E2. congruence.
Qed.

Lemma filter_order (g : string -> bool) (l1 l2 : list string) :
  l1 ≡ₚ l2 -> List.filter g l1 ≡ₚ List.filter g l2.
Proof.
  induction 1 as [| x l1 l2 _ IH | x y l | l1 l2 l3 _ IH1 _ IH2]; cbn [List.filter].
  - reflexivity.
  - destruct (g x); [now constructor | exact IH].
  - destruct (g x), (g y); try reflexivity. apply Permutation_swap.
  - now rewrite IH1.
Qed.

Lemma entries_order (g : string -> bool) (o1 o2 : Obj) :
  List.NoDup (List.map fst o1) -> o1 ≡ₚ o2 ->
  entries o1 (sortStrings (List.filter g (List.map fst o1)))
  = entries o2 (sortStrings (List.filter g (List.map fst o2))).
Proof.
  intros Hnd Hp.
  rewrite (sortStrings_order (List.filter g (List.map fst o1))
                             (List.filter g (List.map fst o2))).
  2:{ apply filter_order. now apply Permutation_map. }
  unfold entries. apply List.map_ext. intros k. now rewrite (lookup_order k o1 o2).
Qed.

Lemma entries_order_all (o1 o2 : Obj) :
  List.NoDup (List.map fst o1) -> o1 ≡ₚ o2 ->
  entries o1 (sortStrings (List.map fst o1)) = entries o2 (sortStrings (List.map fst o2)).
Proof.
  intros Hnd Hp.
  rewrite (sortStrings_order (List.map fst o1) (List.map fst o2))
    by now apply Permutation_map.
  unfold entries. apply List.map_ext. intros k. now rewrite (lookup_order k o1 o2).
Qed.

(** X21.  The id does not depend on the order in which the keys of
    [context] and [additionalContext] were inserted. *)
Theorem computeErrorId_key_order (e s : option string) (ctx1 ctx2 add1 add2 : Obj) :
  List.NoDup (List.map fst ctx1) -> ctx1 ≡ₚ ctx2 ->
  List.NoDup (List.map fst add1) -> add1 ≡ₚ add2 ->
  computeErrorId (mkPayload e s (Some ctx1) (Some add1))
  = computeErrorId (mkPayload e s (Some ctx2) (Some add2)).
Proof.
  intros Hc Hpc Ha Hpa. unfold computeErrorId, canonical.
  cbn [error stack context additionalContext]. cbn zeta.
  change (default [] (Some ctx1)) with ctx1. change (default [] (Some ctx2)) with ctx2.
  change (default [] (Some add1)) with add1. change (default [] (Some add2)) with add2.
  rewrite (entries_order _ ctx1 ctx2 Hc Hpc).
  now rewrite (entries_order_all add1 add2 Ha Hpa).
Qed.

Lemma computeErrorId_key_order_witness :
  computeErrorId (mkPayload (Some "boom") None
                    (Some [("version", "2.1"); ("platform", "linux")])
                    (Some [("b", "2"); ("a", "1")]))
  = computeErrorId (mkPayload (Some "boom") None
                    (Some [("platform", "linux"); ("version", "2.1")])
                    (Some [("a", "1"); ("b", "2")])).
Proof.
  apply computeErrorId_key_order.
  - repeat constructor; cbn; intuition congruence.
  - apply Permutation_swap.
  - repeat constructor; cbn; intuition congruence.
  - apply Permutation_swap.
Defined.

(** *** The rate limit *)

(** how many calls of [isRateLimited] for [ip] are let through, over a
    sequence of calls [(now, client)] *)
Fixpoint passed (ip : string) (calls : list (Z * string)) (m : gmap string RateRecord)
  : nat :=
  match calls with
  | [] => 0
  | (now, client) :: rest =>
      let (limited, m') := isRateLimited now client m in
      ((if (client =? ip)%string && negb limited then 1 else 0) + passed ip rest m')%nat
  end.

Lemma passed_within_window (ip : string) (calls : list (Z * string))
  (m : gmap string RateRecord) (r : RateRecord) :
  m !! ip = Some r ->
  (forall t, In (t, ip) calls -> t <= resetTime r) ->
  Z.of_nat (passed ip calls m) <= Z.max 0 (RATE_LIMIT_MAX_REQUESTS - count r).
Proof.
  revert m r. induction calls as [|[now client] rest IH]; intros m r Hr Hin.
  - cbn. lia.
  - cbn [passed]. destruct (isRateLimited now client m) as [limited m'] eqn:E.
    destruct (client =? ip)%string eqn:Ec.
    + apply String.eqb_eq in Ec. subst client.
      unfold isRateLimited in E. rewrite Hr in E.
      assert (Hnow : (resetTime r <? now) = false).
      { apply Z.ltb_ge, Hin. now left. }
      rewrite Hnow in E.
      destruct (count r >=? RATE_LIMIT_MAX_REQUESTS) eqn:Ecount; injection E as <- <-.
      * cbn [andb negb]. specialize (IH m r Hr (fun t H => Hin t (or_intror H))).
        lia.
      * cbn [andb negb].
        specialize (IH (<[ip := mkRate (count r + 1) (resetTime r)]> m)
                       (mkRate (count r + 1) (resetTime r))
                       (lookup_insert_eq m ip _)
                       (fun t H => Hin t (or_intror H))).
        cbn [count resetTime] in IH.
        rewrite Z.geb_leb in Ecount. apply Z.leb_gt in Ecount. lia.
    + cbn [andb]. apply String.eqb_neq in Ec.
      assert (Hr' : m' !! ip = Some r).
      { unfold isRateLimited in E.
        destruct (m !! client) as [record|];
          repeat match type of E with
                 | (if ?c then _ else _) = _ => destruct c
                 end;
          injection E as <- <-; try exact Hr;
          now rewrite lookup_insert_ne. }
      specialize (IH m' r Hr' (fun t H => Hin t (or_intror H))). lia.
Qed.

(** X22.  Of the calls a client makes within one window of a minute,
    counted from its first, at most ten are let through, whatever other
    clients do in between. *)
Theorem isRateLimited_window (ip : string) (t0 : Z) (rest : list (Z * string))
  (m : gmap string RateRecord) :
  m !! ip = None ->
  (forall t, In (t, ip) rest -> t <= t0 + RATE_LIMIT_WINDOW_MS) ->
  (passed ip ((t0, ip) :: rest) m <= 10)%nat.
Proof.
  intros Hnone Hin. cbn [passed]. unfold isRateLimited at 1. rewrite Hnone.
  rewrite String.eqb_refl. cbn [andb negb].
  pose proof (passed_within_window ip rest
                (<[ip := mkRate 1 (t0 + RATE_LIMIT_WINDOW_MS)]> m)
                (mkRate 1 (t0 + RATE_LIMIT_WINDOW_MS))
                (lookup_insert_eq m ip _) Hin) as H.
  cbn [count resetTime] in H. unfold RATE_LIMIT_MAX_REQUESTS in H. lia.
Qed.

(** fifteen calls of one client, 100 ms apart *)
Definition demoBurst : list (Z * string) :=
  List.map (fun k => (Z.of_nat k * 100, "10.0.0.1")) (List.seq 1 14).

Lemma isRateLimited_window_witness :
  (passed "10.0.0.1" ((0%Z, "10.0.0.1") :: demoBurst) ∅ <= 10)%nat.
Proof.
  apply isRateLimited_window; unfold demoBurst.
  - reflexivity.
  - intros t Hin. apply List.in_map_iff in Hin as (k & [= <-] & Hk).
    apply List.in_seq in Hk. unfold RATE_LIMIT_WINDOW_MS. lia.
Defined.

(** *** What one invocation does *)

(** X23.  The handler posts to the webhook at most once per invocation,
    and only when it answers that the report was received or, the post
    rejected, that sending failed; the post goes to the configured URL and carries the id of the
    sanitized payload. *)
Theorem handler_posts_once (req : Request) (env : Env) (store store' : Store)
  (reply : Reply) (posts : list Post) :
  handler req env store = (reply, store', posts) ->
  (posts = []
   /\ (forall id, reply <> Received id) /\ (forall message, reply <> Failed message))
  \/ (exists payload post,
        body req = Some payload /\ posts = [post]
        /\ webhookUrl env = Some (postUrl post)
        /\ footerId post = computeErrorId (sanitized payload)
        /\ (reply = Received (footerId post)
            \/ (postError env <> None /\ exists message, reply = Failed message))).
Proof.
  unfold handler. intros H.
  repeat match type of H with
         | (if ?c then _ else _) = _ => destruct c eqn:?
         | (let (_, _) := ?c in _) = _ => destruct c eqn:?
         | match ?c with _ => _ end = _ => destruct c eqn:?
         end;
    injection H as <- <- <-;
    first [ left; split; [reflexivity | split; intros; discriminate]
          | right;
            match goal with
            | |- context [Some ?p = Some _] =>
                match goal with
                | |- context [[?post] = [_]] => exists p, post
                end
            end;
            cbn [buildPost postUrl footerId];
            split; [reflexivity |]; split; [reflexivity |];
            split; [reflexivity |]; split; [reflexivity |];
            first [left; reflexivity | right; split; [discriminate | eexists; reflexivity]] ].
Qed.

Definition demoPosted : Reply * Store * list Post :=
  handler (demoRequest "10.0.0.1" demoFirst) (demoEnv 1000) emptyStore.

Lemma handler_posts_once_witness :
  (snd demoPosted = []
   /\ (forall id, fst (fst demoPosted) <> Received id)
   /\ (forall message, fst (fst demoPosted) <> Failed message))
  \/ (exists payload post,
        body (demoRequest "10.0.0.1" demoFirst) = Some payload /\ snd demoPosted = [post]
        /\ webhookUrl (demoEnv 1000) = Some (postUrl post)
        /\ footerId post = computeErrorId (sanitized payload)
        /\ (fst (fst demoPosted) = Received (footerId post)
            \/ (postError (demoEnv 1000) <> None
                /\ exists message, fst (fst demoPosted) = Failed message))).
Proof.
  apply (handler_posts_once (demoRequest "10.0.0.1" demoFirst) (demoEnv 1000) emptyStore
           (snd (fst demoPosted)) (fst (fst demoPosted)) (snd demoPosted)).
  vm_compute. reflexivity.
Defined.

(** X24.  A request that is turned away (preflight, wrong method, rate
    limit, no webhook, invalid payload) posts nothing and leaves the
    deduplication cache as it was; a request that is not a POST does not
    count against the rate limit either. *)
Theorem handler_rejections (req : Request) (env : Env) (store store' : Store)
  (reply : Reply) (posts : list Post) :
  handler req env store = (reply, store', posts) ->
  In reply [Preflight; MethodNotAllowed; RateLimited; Unavailable; InvalidPayload] ->
  posts = [] /\ errorCache store' = errorCache store
  /\ (method req <> "POST" -> store' = store).
Proof.
  unfold handler. intros H Hin.
  repeat match type of H with
         | (if ?c then _ else _) = _ => destruct c eqn:?
         | (let (_, _) := ?c in _) = _ => destruct c eqn:?
         | match ?c with _ => _ end = _ => destruct c eqn:?
         end;
    injection H as <- <- <-;
    try (exfalso; cbn [In] in Hin; intuition discriminate);
    (split; [reflexivity |]); (split; [reflexivity |]);
    intros Hm; try reflexivity;
    match goal with
    | E : negb (method req =? "POST")%string = false |- _ =>
        apply negb_false_iff, String.eqb_eq in E; contradiction
    end.
Qed.

Definition demoGet : Reply * Store * list Post :=
  handler (mkRequest "GET" None None) (demoEnv 0) emptyStore.

Lemma handler_rejections_witness :
  snd demoGet = [] /\ errorCache (snd (fst demoGet)) = errorCache emptyStore
  /\ ("GET" <> "POST" -> snd (fst demoGet) = emptyStore).
Proof.
  apply (handler_rejections (mkRequest "GET" None None) (demoEnv 0) emptyStore
           (snd (fst demoGet)) (fst (fst demoGet)) (snd demoGet)).
  - reflexivity.
  - right. left. reflexivity.
Defined.

(** what is known of a report the handler got as far as sending *)
Lemma handler_sent (req : Request) (env : Env) (store store' : Store)
  (reply : Reply) (posts : list Post) :
  handler req env store = (reply, store', posts) ->
  (exists id, reply = Received id) \/ (exists message, reply = Failed message) ->
  method req = "POST"
  /\ exists url payload,
       webhookUrl env = Some url /\ url <> "" /\ body req = Some payload
       /\ truthy (error payload) = true
       /\ errorCache store' !! computeErrorId (sanitized payload)
          = Some (mkCache (nowCache env + ERROR_TTL_MS) 1)
       /\ (forall id, reply = Received id -> id = computeErrorId (sanitized payload)).
Proof.
  unfold handler. intros H Hsent.
  repeat match type of H with
         | (if ?c then _ else _) = _ => destruct c eqn:?
         | (let (_, _) := ?c in _) = _ => destruct c eqn:?
         | match ?c with _ => _ end = _ => destruct c eqn:?
         end;
    injection H as <- <- <-;
    try (exfalso; destruct Hsent as [[? Hs] | [? Hs]]; discriminate Hs);
    match goal with
    | E : negb (method req =? "POST")%string = false,
      U : (?url =? "")%string = false,
      T : negb (truthy (error ?p)) = false |- _ =>
        apply negb_false_iff in E, T; apply String.eqb_eq in E;
        apply String.eqb_neq in U;
        split; [exact E |]; exists url, p;
        split; [reflexivity |]; split; [exact U |]; split; [reflexivity |];
        split; [exact T |]; cbn [errorCache];
        split; [apply lookup_insert_eq |]; intros id' Hid; congruence
    end.
Qed.

(** X25.  A report whose post to the webhook failed is cached all the
    same: sent again within the hour, it is answered as a duplicate (or turned
    away by the rate limit) and not posted, though nothing was delivered. *)
Theorem handler_failed_post_not_retried (req : Request) (env1 env2 : Env)
  (store store1 store2 : Store) (message : string) (posts1 posts2 : list Post)
  (reply2 : Reply) :
  handler req env1 store = (Failed message, store1, posts1) ->
  webhookUrl env2 = webhookUrl env1 ->
  nowCache env2 < nowCache env1 + ERROR_TTL_MS ->
  handler req env2 store1 = (reply2, store2, posts2) ->
  ((exists id, reply2 = Duplicate id) \/ reply2 = RateLimited) /\ posts2 = [].
Proof.
  intros H1 Hurl Hnow H2.
  destruct (handler_sent _ _ _ _ _ _ H1) as (Hm & url & payload & Hu & Hne & Hb & Ht & Hc & _).
  { right. now exists message. }
  rewrite <- Hurl in Hu.
  destruct (handler_duplicate req env2 store1 store2 reply2 posts2 url payload _
              Hm Hu Hne Hb Ht Hc Hnow H2) as [[-> | ->] ->].
  - split; [left; now eexists | reflexivity].
  - split; [now right | reflexivity].
Qed.

Definition demoDown (now : Z) : Env :=
  mkEnv now now (Some "https://discord.example/hook") (Some "connect ETIMEDOUT").

Definition demoFailed : Reply * Store * list Post :=
  handler (demoRequest "10.0.0.1" demoFirst) (demoDown 1000) emptyStore.

Definition demoRetry : Reply * Store * list Post :=
  handler (demoRequest "10.0.0.1" demoFirst) (demoEnv 61000) (snd (fst demoFailed)).

Lemma handler_failed_post_not_retried_witness :
  ((exists id, fst (fst demoRetry) = Duplicate id) \/ fst (fst demoRetry) = RateLimited)
  /\ snd demoRetry = [].
Proof.
  apply (handler_failed_post_not_retried
           (demoRequest "10.0.0.1" demoFirst) (demoDown 1000) (demoEnv 61000)
           emptyStore (snd (fst demoFailed)) (snd (fst demoRetry))
           "connect ETIMEDOUT" (snd demoFailed) (snd demoRetry) (fst (fst demoRetry)));
    vm_compute; reflexivity.
Defined.

(** X26.  The deduplication window is half open: a report repeated
    right after the first, with the handler's clock a full hour or more
    later, is not a duplicate; unless the rate limit turns it away it is
    posted again. *)
Theorem handler_repost_after_ttl (req : Request) (env1 env2 : Env)
  (store store1 store2 : Store) (id : string) (posts1 posts2 : list Post)
  (reply2 : Reply) :
  handler req env1 store = (Received id, store1, posts1) ->
  webhookUrl env2 = webhookUrl env1 ->
  nowCache env1 + ERROR_TTL_MS <= nowCache env2 ->
  handler req env2 store1 = (reply2, store2, posts2) ->
  (reply2 = RateLimited /\ posts2 = [])
  \/ (List.length posts2 = 1%nat
      /\ (reply2 = Received id \/ exists message, reply2 = Failed message)).
Proof.
  intros H1 Hurl Hnow H2.
  destruct (handler_sent _ _ _ _ _ _ H1) as (Hm & url & payload & Hu & Hne & Hb & Ht & Hc & Hid).
  { left. now exists id. }
  specialize (Hid id eq_refl). subst id.
  revert H2. unfold handler. rewrite Hm, Hurl, Hu, Hb, Ht.
  change ("POST" =? "OPTIONS")%string with false.
  change ("POST" =? "POST")%string with true. cbn [negb].
  destruct (isRateLimited (nowRate env2) (clientIp req) (rateLimitMap store1))
    as [limited rates].
  destruct limited; [intros [= <- <- <-]; now left |].
  destruct (url =? "")%string eqn:E; [apply String.eqb_eq in E; contradiction |].
  cbn [errorCache]. rewrite Hc. cbn [expires].
  apply Z.ltb_ge in Hnow. rewrite Hnow.
  destruct (postError env2) as [m|]; intros [= <- <- <-]; right;
    (split; [reflexivity |]); [right; now exists m | now left].
Qed.

Definition demoLater : Reply * Store * list Post :=
  handler (demoRequest "10.0.0.1" demoFirst) (demoEnv (1000 + ERROR_TTL_MS)) demoStore1.

Lemma handler_repost_after_ttl_witness :
  (fst (fst demoLater) = RateLimited /\ snd demoLater = [])
  \/ (List.length (snd demoLater) = 1%nat
      /\ (fst (fst demoLater) = Received "8e1627812608"
          \/ exists message, fst (fst demoLater) = Failed message)).
Proof.
  apply (handler_repost_after_ttl
           (demoRequest "10.0.0.1" demoFirst) (demoEnv 1000) (demoEnv (1000 + ERROR_TTL_MS))
           emptyStore demoStore1 (snd (fst demoLater)) "8e1627812608"
           (snd (handler (demoRequest "10.0.0.1" demoFirst) (demoEnv 1000) emptyStore))
           (snd demoLater) (fst (fst demoLater)));
    vm_compute; solve [reflexivity | discriminate].
Defined.

(** *** The maps only grow *)

Lemma isRateLimited_keeps (now : Z) (ip client : string) (m : gmap string RateRecord) :
  is_Some (m !! client) -> is_Some (snd (isRateLimited now ip m) !! client).
Proof.
  intros H. unfold isRateLimited.
  destruct (m !! ip) as [record|];
    repeat match goal with
           | |- context [if ?c then _ else _] => destruct c
           end;
    cbn [snd]; try exact H;
    (destruct (decide (ip = client)) as [-> | Hne];
     [rewrite lookup_insert_eq; now eexists | now rewrite lookup_insert_ne]).
Qed.

Lemma handler_keeps_clients (req : Request) (env : Env) (store : Store) (client : string) :
  is_Some (rateLimitMap store !! client) ->
  is_Some (rateLimitMap (snd (fst (handler req env store))) !! client).
Proof.
  intros H. unfold handler.
  pose proof (isRateLimited_keeps (nowRate env) (clientIp req) client _ H) as Hk.
  destruct (isRateLimited (nowRate env) (clientIp req) (rateLimitMap store))
    as [limited rates]. cbn [snd] in Hk.
  repeat match goal with
         | |- context [if ?c then _ else _] => destruct c
         | |- context [match ?c with _ => _ end] => destruct c
         end; cbn [fst snd rateLimitMap]; assumption.
Qed.

(** X27.  Over any sequence of invocations of one instance, no client
    is ever removed from the rate-limit map and no id from the
    deduplication cache: both maps only grow. *)
Theorem serve_never_evicts (calls : list (Request * Env)) (store : Store)
  (client id : string) :
  (is_Some (rateLimitMap store !! client) ->
   is_Some (rateLimitMap (snd (serve calls store)) !! client))
  /\ (is_Some (errorCache store !! id) ->
      is_Some (errorCache (snd (serve calls store)) !! id)).
Proof.
  revert store. induction calls as [|[req env] rest IH]; intros store; cbn [serve].
  - now split.
  - pose proof (handler_keeps_clients req env store client) as Hk.
    destruct (handler req env store) as [[reply store1] posts] eqn:Hh.
    cbn [fst snd] in Hk. specialize (IH store1).
    destruct (serve rest store1) as [replies store2]. cbn [snd] in *.
    split.
    + intros H. apply IH, Hk, H.
    + intros [r Hr].
      destruct (handler_cache_grows _ _ _ _ _ _ _ _ Hh Hr) as (r' & Hr' & _).
      apply IH. now exists r'.
Qed.

Lemma serve_never_evicts_witness :
  is_Some (rateLimitMap (snd (serve (List.tl demoCalls) demoStore1)) !! "10.0.0.1")
  /\ is_Some (errorCache (snd (serve (List.tl demoCalls) demoStore1)) !! "8e1627812608").
Proof.
  destruct (serve_never_evicts (List.tl demoCalls) demoStore1 "10.0.0.1" "8e1627812608")
    as [H1 H2].
  split; [apply H1 | apply H2]; vm_compute; now eexists.
Defined.

(** *** [sanitizeDiscordText] on text without mentions *)

Definition plain (c : ascii) : bool := negb (isChar "@" c || isChar "<" c).



End ReportError.
